(** * zigbee2mqtt: the publish extension ([lib/extension/publish.js])

    A shallow embedding of [EntityPublish.parseTopic] and
    [EntityPublish.onMQTTMessage], and the properties of the attribute
    dispatch and optimistic-state pipeline; and of [convert2graph], the
    function of the network map that the file ends with.

    Conventions of the embedding.
    - A JavaScript string is a [string]: one [ascii] per code unit, so code
      units above 0xFF are outside the model (the line terminators U+2028
      and U+2029 among them).
    - A JavaScript object is the list of its own enumerable properties in
      property order ([Obj.t]); [Obj.set] keeps that order the way the
      language does (array indices first, ascending; then creation order).
    - Objects of zigbee-herdsman (devices, endpoints, groups) and converter
      objects are references ([ref]); what the file reads from them comes
      from the collaborators' record [Env].
    - Everything the handler does to the outside (logger, MQTT client,
      converters, timers, state publisher) is appended to a trace of
      [Event]s; the converters run in a world [W] that they may change.

    What is taken of the collaborators.
    - The logger, the MQTT client, the state store, the state publisher,
      the settings and zigbee-herdsman return without throwing; of the
      collaborators only [convertSet] and [convertGet] of a converter may
      throw.  What they throw is any value that has a text in a template
      literal, [null] and [undefined] among them ([JsError]).
    - A definition may come without [endpoint]; calling it at line 181
      then throws.  Where a definition has it, it returns an object.
    - The state a converter returns is an object of its own, shared with
      no member state and no other result: lines 237 to 244 change it in
      place.
    - No key of a message or of a state is a name found on
      [Object.prototype] ([constructor], [__proto__], ...).
    - The names of [utils.endpointNames] hold no character that is
      special in a regular expression: lines 10 and 177 put them into a
      pattern as they are. *)

From Stdlib Require Import String Ascii List Bool Arith ZArith NArith Lia.
From Stdlib Require Import Permutation Sorted DecimalString.
Import ListNotations.
Local Open Scope string_scope.
Local Open Scope list_scope.

(** ** Strings *)

Module Str.

(** [drop n s]: [s.substring(n)]. *)
Fixpoint drop (n : nat) (s : string) : string :=
  match n, s with
  | O, _ => s
  | S n', String _ s' => drop n' s'
  | S _, EmptyString => EmptyString
  end.

(** [take n s]: [s.substring(0, n)]. *)
Fixpoint take (n : nat) (s : string) : string :=
  match n, s with
  | O, _ => EmptyString
  | S n', String c s' => String c (take n' s')
  | S _, EmptyString => EmptyString
  end.

(** [startsWith s p]: [s.startsWith(p)]. *)
Fixpoint startsWith (s p : string) {struct p} : bool :=
  match p, s with
  | EmptyString, _ => true
  | String a p', String b s' => Ascii.eqb a b && startsWith s' p'
  | String _ _, EmptyString => false
  end.

(** [endsWith s p]: [s.endsWith(p)], some suffix of [s] is [p]. *)
Fixpoint endsWith (s p : string) : bool :=
  String.eqb s p ||
  match s with
  | EmptyString => false
  | String _ s' => endsWith s' p
  end.

(** [includes s p]: [s.includes(p)], also [s.match(/p/)] for a literal [p]. *)
Fixpoint includes (s p : string) : bool :=
  startsWith s p ||
  match s with
  | EmptyString => false
  | String _ s' => includes s' p
  end.

(** [remove_first p s]: [s.replace(p, '')] for a string pattern [p]: the
    first occurrence goes, [s] is returned as it is when there is none. *)
Fixpoint remove_first (p s : string) : string :=
  if startsWith s p then drop (String.length p) s
  else match s with
       | EmptyString => EmptyString
       | String c s' => String c (remove_first p s')
       end.

Definition lower (c : ascii) : ascii :=
  let n := nat_of_ascii c in
  if (65 <=? n)%nat && (n <=? 90)%nat then ascii_of_nat (n + 32) else c.

(** [toLowerCase s]: on the code units of the model, the letters A-Z. *)
Fixpoint toLowerCase (s : string) : string :=
  match s with
  | EmptyString => EmptyString
  | String c s' => String (lower c) (toLowerCase s')
  end.

(** Line terminators of the regular-expression grammar: LF and CR. *)
Definition is_line_terminator (c : ascii) : bool :=
  Ascii.eqb c "010"%char || Ascii.eqb c "013"%char.

(** What [$] sees under the [m] flag: the end of the input or a line
    terminator next. *)
Definition at_line_end (s : string) : bool :=
  match s with
  | EmptyString => true
  | String c _ => is_line_terminator c
  end.

(** [strip_line_ends p s]: [s.replace(new RegExp(`(p)$`, 'gm'), '')] for a
    literal, non-empty [p]: every occurrence of [p] that stands at the end
    of a line goes.  [skip] counts the code units of a match that are
    still to be dropped. *)
Fixpoint strip_line_ends_from (skip : nat) (p s : string) : string :=
  match s with
  | EmptyString => EmptyString
  | String c s' =>
      match skip with
      | S k => strip_line_ends_from k p s'
      | O =>
          if startsWith s p && at_line_end (drop (String.length p) s)
          then strip_line_ends_from (String.length p - 1) p s'
          else String c (strip_line_ends_from O p s')
      end
  end.

Definition strip_line_ends (p s : string) : string :=
  strip_line_ends_from O p s.

(** Decimal form of a number used as a property key. *)
Definition of_nat (n : nat) : string := NilEmpty.string_of_uint (Nat.to_uint n).
Definition of_N (n : N) : string := NilEmpty.string_of_uint (N.to_uint n).

Definition is_digit (c : ascii) : bool :=
  let n := nat_of_ascii c in (48 <=? n)%nat && (n <=? 57)%nat.

Fixpoint all_digits (s : string) : bool :=
  match s with
  | EmptyString => true
  | String c s' => is_digit c && all_digits s'
  end.

Fixpoint digits_value (acc : N) (s : string) : N :=
  match s with
  | EmptyString => acc
  | String c s' => digits_value (acc * 10 + (N_of_ascii c - 48))%N s'
  end.

(** [array_index k]: the number [k] denotes when [k] is an array index (a
    canonical numeric string below 2^32 - 1). *)
Definition array_index (k : string) : option N :=
  match k with
  | EmptyString => None
  | String c rest =>
      if all_digits k && (negb (Ascii.eqb c "0"%char) || String.eqb rest "")
      then let n := digits_value 0 k in
           if (n <? 4294967295)%N then Some n else None
      else None
  end.

End Str.

(** ** Objects: own enumerable properties in property order *)

Module Obj.
Section WithValue.
Context {A : Type}.

Definition t := list (string * A).

Definition empty : t := [].

Fixpoint get (k : string) (o : t) : option A :=
  match o with
  | [] => None
  | (k', v) :: o' => if String.eqb k k' then Some v else get k o'
  end.

(** [has k o]: [o.hasOwnProperty(k)]. *)
Definition has (k : string) (o : t) : bool :=
  match get k o with Some _ => true | None => false end.

(** [delete k o]: [delete o[k]]. *)
Fixpoint delete (k : string) (o : t) : t :=
  match o with
  | [] => []
  | (k', v) :: o' =>
      if String.eqb k k' then delete k o' else (k', v) :: delete k o'
  end.

Fixpoint replace (k : string) (v : A) (o : t) : t :=
  match o with
  | [] => []
  | (k', v') :: o' =>
      if String.eqb k k' then (k', v) :: o' else (k', v') :: replace k v o'
  end.

(** A new array index goes among the leading array indices, in
    ascending order. *)
Fixpoint insert_index (n : N) (k : string) (v : A) (o : t) : t :=
  match o with
  | [] => [(k, v)]
  | (k', v') :: o' =>
      match Str.array_index k' with
      | Some n' =>
          if (n' <? n)%N then (k', v') :: insert_index n k v o'
          else (k, v) :: o
      | None => (k, v) :: o
      end
  end.

(** [set k v o]: [o[k] = v]. *)
Definition set (k : string) (v : A) (o : t) : t :=
  if has k o then replace k v o
  else match Str.array_index k with
       | Some n => insert_index n k v o
       | None => o ++ [(k, v)]
       end.

(** [keys o]: [Object.keys(o)]; [o] itself is [Object.entries(o)]. *)
Definition keys (o : t) : list string := map fst o.

(** [merge o p]: [{...o, ...p}]. *)
Definition merge (o p : t) : t :=
  fold_left (fun acc kv => set (fst kv) (snd kv) acc) p o.

(** [spread o]: [{...o}], a fresh object with the properties of [o]. *)
Definition spread (o : t) : t := merge empty o.

End WithValue.
Arguments t : clear implicits.
End Obj.

(** ** Values *)

(** What [JSON.parse] returns, and [undefined]. *)
#[warnings="-register-all"]
Inductive JsVal : Type :=
| JUndefined
| JNull
| JBool (b : bool)
| JNum (n : Z)
| JStr (s : string)
| JArr (l : list JsVal)
| JObj (o : list (string * JsVal)).

Definition JsObj := Obj.t JsVal.
Definition entry := (string * JsVal)%type.

(** What is thrown, by what the handler reads of it: the text it has in a
    template literal ([`${error}`]) and its [stack].  [null] and
    [undefined] have a text and no property: reading [stack] of them
    throws.  [TypeError_at l] is the [TypeError] the runtime throws at
    line [l] of the file. *)
Inductive JsError : Type :=
| error_object (error_text : string) (error_stack : JsVal)
| error_null
| error_undefined
| TypeError_at (line : nat).

(** [error == null] *)
Definition is_nullish (error : JsError) : bool :=
  match error with
  | error_null | error_undefined => true
  | _ => false
  end.

(** [truthy v]: [v] in a condition. *)
Definition truthy (v : JsVal) : bool :=
  match v with
  | JUndefined | JNull => false
  | JBool b => b
  | JNum n => negb (n =? 0)%Z
  | JStr s => negb (String.eqb s "")
  | JArr _ | JObj _ => true
  end.

Fixpoint chars (s : string) : list JsVal :=
  match s with
  | EmptyString => []
  | String c s' => JStr (String c EmptyString) :: chars s'
  end.

Definition indexed (l : list JsVal) : list entry :=
  combine (map Str.of_nat (seq 0 (List.length l))) l.

(** [Object_entries v]: [Object.entries(v)]. *)
Definition Object_entries (v : JsVal) : list entry :=
  match v with
  | JObj o => o
  | JArr l => indexed l
  | JStr s => indexed (chars s)
  | _ => []
  end.

(** [hasOwnProperty v k] and [prop v k] ([v[k]]) for the names this file
    asks for: none of them is an index, [length] or a method. *)
Definition hasOwnProperty (v : JsVal) (k : string) : bool :=
  Obj.has k (Object_entries v).

Definition prop (v : JsVal) (k : string) : JsVal :=
  match Obj.get k (Object_entries v) with
  | Some x => x
  | None => JUndefined
  end.

(** [delete_prop v k]: [delete v[k]]. *)
Definition delete_prop (v : JsVal) (k : string) : JsVal :=
  match v with
  | JObj o => JObj (Obj.delete k o)
  | _ => v
  end.

(** ** Entities, converters and the collaborators *)

(** A reference to an object of zigbee-herdsman or to a converter object;
    two references are the same object when they are equal. *)
Definition ref := nat.

Inductive TopicType : Type := get | set.

(** What [parseTopic] returns. *)
Record Topic : Type := {
  ID : string;
  endpointName : string;
  type : TopicType;
  attribute : option string
}.

(** [resolvedEntity.settings]: the options of the entity. *)
Record EntitySettings : Type := {
  settings_ID : string;
  optimistic : option bool;
  filtered_optimistic : option (list string);
  retrieve_state : bool
}.

(** A definition of zigbee-herdsman-converters: its converters and, when
    it has one, its map from endpoint names to endpoint numbers. *)
Record Definition_ : Type := {
  toZigbee : list ref;
  endpoint : option (ref -> Obj.t N)
}.

Inductive ResolvedEntity : Type :=
| device_entity (name : string) (settings : EntitySettings)
    (device : ref) (endpoint_ : ref) (definition : option Definition_)
| group_entity (name : string) (settings : EntitySettings) (group : ref).

Definition entity_name (r : ResolvedEntity) : string :=
  match r with
  | device_entity n _ _ _ _ => n
  | group_entity n _ _ => n
  end.

Definition entity_settings (r : ResolvedEntity) : EntitySettings :=
  match r with
  | device_entity _ s _ _ _ => s
  | group_entity _ s _ => s
  end.

Definition is_device (r : ResolvedEntity) : bool :=
  match r with
  | device_entity _ _ _ _ _ => true
  | group_entity _ _ _ => false
  end.

(** What a converter is given to write to or read from. *)
Inductive Target : Type :=
| Endpoint (e : ref)
| Group (g : ref).

(** [definition] after the entity is resolved: one definition for a device,
    the members' definitions for a group. *)
Inductive Mapped : Type :=
| mapped_device (d : Definition_)
| mapped_group (ds : list Definition_).

(** [meta]: what a converter is told about the call. *)
Record Meta : Type := {
  endpoint_name : string;
  options : EntitySettings;
  message : JsObj;
  meta_device : option ref;
  state : JsObj;
  membersState : option (Obj.t (option JsObj));
  mapped : Mapped
}.

(** What [convertSet] returns when it returns an object. *)
Record Result : Type := {
  result_state : option JsObj;
  result_membersState : option (Obj.t JsObj);
  readAfterWriteTime : option Z
}.

Inductive Outcome (A : Type) : Type :=
| Returned (a : A)
| Thrown (error : JsError).
Arguments Returned {A} a.
Arguments Thrown {A} error.

Section World.

(** What the converters act on: the network, the devices. *)
Variable W : Type.

Record Converter : Type := {
  key : list string;
  convertSet :
    option (Target -> string -> JsVal -> Meta -> W -> Outcome (option Result) * W);
  convertGet : option (Target -> string -> Meta -> W -> Outcome unit * W)
}.

(** The collaborators of the extension: settings, [utils], the language
    runtime, zigbee-herdsman and zigbee-herdsman-converters. *)
Record Env : Type := {
  base_topic : string;
  legacy_api : bool;
  homeassistant : bool;
  endpointNames : list string;
  JSON_parse : string -> option JsVal;
  Array_sort : (entry -> entry -> Z) -> list entry -> list entry;
  resolveEntity : string -> option ResolvedEntity;
  state_get : string -> option JsObj;
  findByDevice : ref -> option Definition_;
  getDevice : ref -> ref;
  getEndpoint : ref -> option N -> option ref;
  endpoint_ID : ref -> N;
  groupID : ref -> N;
  members : ref -> list ref;
  ieeeAddr : ref -> string;
  modelID : ref -> string;
  toZigbeeConverters : string -> ref;
  converter_at : ref -> Converter
}.

End World.

Arguments key {W} _.
Arguments convertSet {W} _.
Arguments convertGet {W} _.
Arguments base_topic {W} _.
Arguments legacy_api {W} _.
Arguments homeassistant {W} _.
Arguments endpointNames {W} _.
Arguments JSON_parse {W} _.
Arguments Array_sort {W} _.
Arguments resolveEntity {W} _.
Arguments state_get {W} _.
Arguments findByDevice {W} _.
Arguments getDevice {W} _.
Arguments getEndpoint {W} _.
Arguments endpoint_ID {W} _.
Arguments groupID {W} _.
Arguments members {W} _.
Arguments ieeeAddr {W} _.
Arguments modelID {W} _.
Arguments toZigbeeConverters {W} _.
Arguments converter_at {W} _.

(** ** What the handler does to the outside *)

(** The lines given to the logger, by the data their text is built from. *)
Inductive LogLine : Type :=
| Entity_is_unknown (entityKey : string)
| Device_is_not_supported (modelID : string)
| Please_see_how_to_support
| Invalid_JSON_skipping (message : string)
| Skipping_state_because_of_Home_Assistant
| Device_has_no_endpoint (name endpointName : string)
| No_converter_available_for (key : string) (value : JsVal)
| Publishing_to (t : TopicType) (key name : string)
| Publishing_get_to (t : TopicType) (key name : string)
| No_converter_available_for_type (t : TopicType) (key : string) (value : JsVal)
| Publish_failed (t : TopicType) (key name : string) (error : JsError)
| Error_stack (error : JsError).

(** The records published on [bridge/log] under the legacy API. *)
Inductive BridgeLog : Type :=
| entity_not_found (friendly_name : string)
| zigbee_publish_error (message : LogLine) (friendly_name : string).

Inductive Event : Type :=
| logger_error (l : LogLine)
| logger_warn (l : LogLine)
| logger_debug (l : LogLine)
| mqtt_publish (topic : string) (payload : BridgeLog)
(** [converter.convertSet(actualTarget, key, value, meta)]; the event also
    keeps [endpointOrGroupID] as it stands at the call. *)
| call_convertSet (converter : ref) (endpointOrGroupID : string)
    (actualTarget : Target) (key : string) (value : JsVal) (meta : Meta)
| call_convertGet (converter : ref) (endpointOrGroupID : string)
    (actualTarget : Target) (key : string) (meta : Meta)
(** [setTimeout(() => converter.convertGet(actualTarget, key, meta), delay)] *)
| setTimeout_convertGet (converter : ref) (actualTarget : Target)
    (key : string) (meta : Meta) (delay : Z)
| publishEntityState (ID : string) (payload : JsObj)
(** Not an effect: the calls of [addToToPublish], kept to tell what was
    accumulated for an identifier. *)
| accumulated (ID : string) (payload : JsObj).

(** What [onMQTTMessage] returns. *)
Inductive Returns : Type := returns_true | returns_false | returns_undefined.

(** How a statement of the loop body ends. *)
Inductive Completion : Type :=
| Normal
| Continue
| Throw (error : JsError).

Definition stateValues : list string :=
  ["on"; "off"; "toggle"; "open"; "close"; "stop"; "lock"; "unlock"].

Definition string_in (s : string) (l : list string) : bool :=
  existsb (String.eqb s) l.

Definition ref_opt_eqb (a b : option ref) : bool :=
  match a, b with
  | Some x, Some y => Nat.eqb x y
  | None, None => true
  | _, _ => false
  end.

(** [l.includes(c)] on an array of converters. *)
Definition includes_converter (l : list (option ref)) (c : option ref) : bool :=
  existsb (ref_opt_eqb c) l.

(** What is read off a trace. *)
Definition is_convertSet_call (c : ref) (id : string) (ev : Event) : bool :=
  match ev with
  | call_convertSet c' id' _ _ _ _ => Nat.eqb c c' && String.eqb id id'
  | _ => false
  end.

Definition is_converter_call (ev : Event) : bool :=
  match ev with
  | call_convertSet _ _ _ _ _ _ | call_convertGet _ _ _ _ _ => true
  | _ => false
  end.

Definition is_state_publish (ev : Event) : bool :=
  match ev with
  | publishEntityState _ _ => true
  | _ => false
  end.

Definition is_accumulated (ev : Event) : bool :=
  match ev with
  | accumulated _ _ => true
  | _ => false
  end.

(** What is given to the logger or to the MQTT client. *)
Definition is_quiet (ev : Event) : bool :=
  match ev with
  | logger_error _ | logger_warn _ | logger_debug _ | mqtt_publish _ _ => true
  | _ => false
  end.

(** What the handling of a result adds to the trace. *)
Definition is_internal (ev : Event) : bool :=
  match ev with
  | accumulated _ _ | setTimeout_convertGet _ _ _ _ _ => true
  | _ => false
  end.

(** The number of calls of [convertSet] of converter [c] under the
    identifier [id]. *)
Definition convertSet_calls (c : ref) (id : string) (tr : list Event) : nat :=
  List.length (filter (is_convertSet_call c id) tr).

(** The payloads given to [addToToPublish] for [ID], in order. *)
Definition deltas_of (ID : string) (tr : list Event) : list JsObj :=
  flat_map (fun ev => match ev with
                      | accumulated id payload =>
                          if String.eqb id ID then [payload] else []
                      | _ => []
                      end) tr.

(** The publications of state, in order. *)
Definition state_publishes (tr : list Event) : list (string * JsObj) :=
  flat_map (fun ev => match ev with
                      | publishEntityState id payload => [(id, payload)]
                      | _ => []
                      end) tr.

(** ** [topicRegex] and [parseTopic] *)

Section TopicRegex.

(** [utils.endpointNames]; each name is taken as a literal of the pattern. *)
Variable names : list string.

(** The alternatives of the endpoint group: [names.join('|')], which for an
    empty list is the empty alternative. *)
Definition alternatives : list string :=
  match names with
  | [] => [""]
  | _ => names
  end.

(** [/(get|set)]: the type and what follows it. *)
Definition match_type (s : string) : option (TopicType * string) :=
  if Str.startsWith s "/get" then Some (get, Str.drop 4 s)
  else if Str.startsWith s "/set" then Some (set, Str.drop 4 s)
  else None.

(** [.+] at the end of the pattern: the code units up to the first line
    terminator. *)
Fixpoint dots (s : string) : string :=
  match s with
  | EmptyString => EmptyString
  | String c s' =>
      if Str.is_line_terminator c then EmptyString else String c (dots s')
  end.

(** [(?:/(.+))?] *)
Definition match_attribute (s : string) : option string :=
  match s with
  | String "/"%char s' =>
      match dots s' with
      | EmptyString => None
      | a => Some a
      end
  | _ => None
  end.

(** [(?:/(n1|n2|...))?] followed by [/(get|set)]: the alternatives are
    tried in order, each with the rest of the pattern. *)
Fixpoint match_endpoint (alts : list string) (s : string)
  : option (string * (TopicType * string)) :=
  match alts with
  | [] => None
  | n :: alts' =>
      if Str.startsWith s ("/" ++ n) then
        match match_type (Str.drop (1 + String.length n) s) with
        | Some r => Some (n, r)
        | None => match_endpoint alts' s
        end
      else match_endpoint alts' s
  end.

(** The pattern after its first group: groups 2, 3 and 4. *)
Definition match_rest (s : string)
  : option (option string * TopicType * option string) :=
  match match_endpoint alternatives s with
  | Some (n, (t, rest)) => Some (Some n, t, match_attribute rest)
  | None =>
      match match_type s with
      | Some (t, rest) => Some (None, t, match_attribute rest)
      | None => None
      end
  end.

(** [^(.+?)]: the shortest non-empty run of code units, none of them a
    line terminator, after which the rest of the pattern matches. *)
Fixpoint match_from (s : string)
  : option (string * (option string * TopicType * option string)) :=
  match s with
  | EmptyString => None
  | String c s' =>
      if Str.is_line_terminator c then None
      else match match_rest s' with
           | Some r => Some (String c EmptyString, r)
           | None =>
               match match_from s' with
               | Some (g1, r) => Some (String c g1, r)
               | None => None
               end
           end
  end.

(** [topic.match(topicRegex)]: groups 1 to 4. *)
Definition topicRegex_match := match_from.

(** What the pattern says, without the way it is searched: the topic
    starts with a non-empty run free of line terminators, then an
    optional endpoint segment, then [/get] or [/set]. *)
Definition segment (t : TopicType) : string :=
  match t with get => "/get" | set => "/set" end.

Fixpoint no_line_terminator (s : string) : bool :=
  match s with
  | EmptyString => true
  | String c s' => negb (Str.is_line_terminator c) && no_line_terminator s'
  end.

Definition endpoint_segment (ep : string) (m2 : option string) : Prop :=
  (ep = "" /\ m2 = None)
  \/ (exists n, In n alternatives /\ ep = ("/" ++ n)%string /\ m2 = Some n).




End TopicRegex.

(** A name that holds no slash and does not start with [get] or [set],
    as the names of the endpoints are. *)
Definition plain_name (n : string) : bool :=
  negb (Str.includes n "/") && negb (Str.startsWith n "get")
  && negb (Str.startsWith n "set").

Section Publish.

Variable W : Type.
Variable E : Env W.

(** [parseTopic(topic)] *)
Definition parseTopic (topic : string) : option Topic :=
  match topicRegex_match (endpointNames E) topic with
  | None => None
  | Some (match1, (match2, match3, match4)) =>
      let ID := Str.remove_first (base_topic E ++ "/") match1 in
      if String.eqb ID match1 || Str.includes ID "bridge" then None
      else Some {| ID := ID;
                   endpointName := match match2 with Some n => n | None => "" end;
                   type := match3;
                   attribute := match4 |}
  end.

(** *** Resolving the entity *)

(** The entity details the rest of the handler works with: [converters],
    [target], [options], [device], [definition] and [membersState]. *)
Record Details : Type := {
  converters : list ref;
  target : Target;
  details_options : EntitySettings;
  details_device : option ref;
  definition_ : Mapped;
  details_membersState : option (Obj.t (option JsObj))
}.

(** [new Set()] filled with [add], then spread: the first occurrence of
    each converter, in order. *)
Fixpoint Set_add (c : ref) (s : list ref) : list ref :=
  match s with
  | [] => [c]
  | c' :: s' => if Nat.eqb c c' then s else c' :: Set_add c s'
  end.

Definition Set_of (l : list ref) : list ref :=
  fold_left (fun s c => Set_add c s) l [].

(** [defaultGroupConverters] *)
Definition defaultGroupConverters : list ref :=
  map (toZigbeeConverters E)
    ["light_onoff_brightness"; "light_color_colortemp"; "effect";
     "ignore_transition"; "cover_position_tilt";
     "thermostat_occupied_heating_setpoint"; "tint_scene";
     "light_brightness_move"; "light_brightness_step";
     "light_colortemp_step"; "light_colortemp_move";
     "light_hue_saturation_move"; "light_hue_saturation_step"].

(** The definitions of the members of a group that have one. *)
Definition member_definitions (g : ref) : list Definition_ :=
  flat_map (fun e => match findByDevice E (getDevice E e) with
                     | Some d => [d]
                     | None => []
                     end) (members E g).

(** The converters of a group. *)
Definition group_converters (g : ref) : list ref :=
  let converters := Set_of (flat_map toZigbee (member_definitions g)) in
  match converters with
  | [] => defaultGroupConverters
  | _ => converters
  end.

Definition group_membersState (g : ref) : Obj.t (option JsObj) :=
  fold_left (fun ms member =>
               let addr := ieeeAddr E (getDevice E member) in
               Obj.set addr (state_get E addr) ms)
            (members E g) Obj.empty.

(** Lines 76 to 102: [inl] is the early return with what was logged. *)
Definition entity_details (r : ResolvedEntity) : list Event + Details :=
  match r with
  | device_entity _ settings device endpoint_ None =>
      inl [logger_warn (Device_is_not_supported (modelID E device));
           logger_warn Please_see_how_to_support]
  | device_entity _ settings device endpoint_ (Some definition) =>
      inr {| converters := toZigbee definition;
             target := Endpoint endpoint_;
             details_options := settings;
             details_device := Some device;
             definition_ := mapped_device definition;
             details_membersState := None |}
  | group_entity _ settings group =>
      inr {| converters := group_converters group;
             target := Group group;
             details_options := settings;
             details_device := None;
             definition_ := mapped_group (member_definitions group);
             details_membersState := Some (group_membersState group) |}
  end.

(** *** Decoding the payload *)

(** [topic.hasOwnProperty('attribute') && topic.attribute] *)
Definition has_attribute (topic : Topic) : option string :=
  match attribute topic with
  | Some a => if String.eqb a "" then None else Some a
  | None => None
  end.

(** Lines 105 to 127: [inl] is the early return. *)
Definition decode (topic : Topic) (message : string)
  : (Returns * list Event) + JsVal :=
  let json :=
    match has_attribute topic with
    | Some a =>
        inr (JObj [(a, match JSON_parse E message with
                       | Some v => v
                       | None => JStr message
                       end)])
    | None =>
        match JSON_parse E message with
        | Some v => inr v
        | None =>
            if string_in (Str.toLowerCase message) stateValues
            then inr (JObj [("state", JStr message)])
            else inl (returns_false,
                      [logger_error (Invalid_JSON_skipping message)])
        end
    end in
  match json with
  | inl early => inl early
  | inr json =>
      if truthy json then inr json
      else inl (returns_undefined,
                [logger_error (Invalid_JSON_skipping message)])
  end.

(** Lines 134 to 144: the Home Assistant adjustment. *)
Definition entityState_of (r : ResolvedEntity) : JsObj :=
  match state_get E (settings_ID (entity_settings r)) with
  | Some s => s
  | None => Obj.empty
  end.

Definition is_ON (entityState : JsObj) : bool :=
  match Obj.get "state" entityState with
  | Some (JStr s) => String.eqb s "ON"
  | _ => false
  end.

Definition home_assistant (entityState : JsObj) (json : JsVal)
  : JsVal * list Event :=
  if homeassistant E then
    let hasColorTemp := hasOwnProperty json "color_temp" in
    let hasColor := hasOwnProperty json "color" in
    let hasBrightness := hasOwnProperty json "brightness" in
    let isOn := is_ON entityState in
    if isOn && (hasColorTemp || hasColor) && negb hasBrightness
    then (delete_prop json "state",
          [logger_debug Skipping_state_because_of_Home_Assistant])
    else (json, [])
  else (json, []).

(** *** Ordering the attributes *)

(** Line 156 *)
Definition sorter_of (json : JsVal) : Z :=
  match prop json "state" with
  | JStr s => if String.eqb (Str.toLowerCase s) "off" then 1 else (-1)
  | _ => (-1)
  end%Z.

(** The comparison function of line 157; it does not look at [b]. *)
Definition compare_entries (sorter : Z) (a b : entry) : Z :=
  if string_in (fst a) ["state"; "brightness"; "brightness_percent"]
  then sorter else (sorter * -1)%Z.

(** Lines 155 to 157 *)
Definition ordered_entries (json : JsVal) : list entry :=
  Array_sort E (compare_entries (sorter_of json)) (Object_entries json).

(** *** The dispatch loop *)

(** What the loop changes: [usedConverters], [toPublish], the trace of
    what was done to the outside, and the world of the converters. *)
Record LoopState : Type := {
  usedConverters : Obj.t (list (option ref));
  toPublish : Obj.t JsObj;
  trace : list Event;
  world : W
}.

Definition emit (ev : Event) (st : LoopState) : LoopState :=
  {| usedConverters := usedConverters st;
     toPublish := toPublish st;
     trace := trace st ++ [ev];
     world := world st |}.

Definition with_world (w : W) (st : LoopState) : LoopState :=
  {| usedConverters := usedConverters st;
     toPublish := toPublish st;
     trace := trace st;
     world := w |}.

Definition with_used (u : Obj.t (list (option ref))) (st : LoopState)
  : LoopState :=
  {| usedConverters := u;
     toPublish := toPublish st;
     trace := trace st;
     world := world st |}.

(** [addToToPublish(ID, payload)] *)
Definition addToToPublish (ID : string) (payload : JsObj) (st : LoopState)
  : LoopState :=
  let tp := if Obj.has ID (toPublish st) then toPublish st
            else Obj.set ID Obj.empty (toPublish st) in
  let old := match Obj.get ID tp with Some o => o | None => Obj.empty end in
  {| usedConverters := usedConverters st;
     toPublish := Obj.set ID (Obj.merge old payload) tp;
     trace := trace st ++ [accumulated ID payload];
     world := world st |}.

(** [usedConverters[id]], an array once line 190 has run. *)
Definition used_at (id : string) (st : LoopState) : list (option ref) :=
  match Obj.get id (usedConverters st) with
  | Some l => l
  | None => []
  end.

(** Lines 219 to 223: what the loop of lines 218 to 224 does for one entry
    of the message. *)
Definition cut_endpoint_name (endpoint_name : string) (m : JsObj) (kv : entry)
  : JsObj :=
  let key := fst kv in
  if Str.endsWith key endpoint_name then
    let keyWithoutEndpoint :=
      Str.take (String.length key - String.length endpoint_name - 1) key in
    Obj.set keyWithoutEndpoint (snd kv) (Obj.delete key m)
  else m.

(** Lines 217 to 225: the endpoint name is cut off the properties of
    [meta.message]; the loop runs over the entries as they were. *)
Definition strip_endpoint_name (endpoint_name : string) (message : JsObj)
  : JsObj :=
  if String.eqb endpoint_name "" then message
  else fold_left (cut_endpoint_name endpoint_name) message message.

(** Lines 237 and 238: what the loop of lines 236 to 239 does for one key
    of the state. *)
Definition attach_endpoint_name (endpointName : string) (m : JsObj)
  (key : string) : JsObj :=
  Obj.delete key
    (Obj.set (key ++ "_" ++ endpointName)
       (match Obj.get key m with Some v => v | None => JUndefined end)
       m).

(** Lines 235 to 240: the endpoint name is put back on the properties of
    the state the converter returned; the loop runs over the keys as they
    were and changes the object as it goes. *)
Definition add_endpoint_name (endpointName : string) (msg : JsObj) : JsObj :=
  if String.eqb endpointName "" then msg
  else fold_left (attach_endpoint_name endpointName) (Obj.keys msg) msg.

(** A state with the endpoint name after every key, and the key of a
    message without the endpoint name it ends with, as the specification
    has them. *)
Definition suffixed (endpointName : string) (msg : JsObj) : JsObj :=
  map (fun kv => ((fst kv ++ "_" ++ endpointName)%string, snd kv)) msg.

Definition bare_key (endpointName key : string) : string :=
  Str.take (String.length key - String.length endpointName - 1) key.

(** The keys of a message whose bare forms do not end with the endpoint
    name again, and are the bare form of one key only. *)
Definition bare_forms_apart (endpointName : string) (L : JsObj) : Prop :=
  (forall k, In k (Obj.keys L) -> Str.endsWith k endpointName = true ->
             Str.endsWith (bare_key endpointName k) endpointName = false)
  /\ (forall k1 k2, In k1 (Obj.keys L) -> In k2 (Obj.keys L) ->
                    Str.endsWith k1 endpointName = true ->
                    Str.endsWith k2 endpointName = true ->
                    bare_key endpointName k1 = bare_key endpointName k2 ->
                    k1 = k2).

(** Lines 243 to 245 *)
Definition filter_optimistic (options : EntitySettings) (msg : JsObj) : JsObj :=
  match filtered_optimistic options with
  | Some l => fold_left (fun m a => Obj.delete a m) l msg
  | None => msg
  end.

(** [!options.hasOwnProperty('optimistic') || options.optimistic] *)
Definition is_optimistic (options : EntitySettings) : bool :=
  match optimistic options with
  | Some b => b
  | None => true
  end.

(** What the handling of a result does to the state, one step after the
    other: calls of [addToToPublish] with arguments that satisfy [Q], and
    the timer. *)
Inductive Accumulates (Q : string -> JsObj -> Prop) (st : LoopState)
  : LoopState -> Prop :=
| acc_none : Accumulates Q st st
| acc_add (st' : LoopState) (ID : string) (payload : JsObj) :
    Accumulates Q st st' -> Q ID payload ->
    Accumulates Q st (addToToPublish ID payload st')
| acc_timer (st' : LoopState) (c : ref) (tgt : Target) (k : string)
    (m : Meta) (delay : Z) :
    Accumulates Q st st' ->
    Accumulates Q st (emit (setTimeout_convertGet c tgt k m delay) st').

(** Line 190: [usedConverters[id]] is made an array when it is none. *)
Definition ensure_used (id : string) (st : LoopState) : LoopState :=
  if Obj.has id (usedConverters st) then st
  else with_used (Obj.set id [] (usedConverters st)) st.

(** Line 294: [usedConverters[id].push(converter)] *)
Definition push_used (id : string) (c : ref) (st : LoopState) : LoopState :=
  with_used (Obj.set id (used_at id st ++ [Some c]) (usedConverters st)) st.

(** [converters.find((c) => c.key.includes(key))] *)
Definition find_converter (converters : list ref) (k : string) : option ref :=
  find (fun c => string_in k (key (converter_at E c))) converters.

Section Message.

Variable topic : Topic.
Variable resolvedEntity : ResolvedEntity.
Variable details : Details.
Variable json : JsVal.
Variable entityState : JsObj.

(** Lines 231 to 270: what is done with the result of [convertSet]. *)
Definition after_convertSet (converter : ref) (endpointName : string)
  (actualTarget : Target) (key : string) (meta : Meta)
  (result : option Result) (st : LoopState) : LoopState :=
  let options := details_options details in
  let optimistic := is_optimistic options in
  let st :=
    match result with
    | Some {| result_state := Some msg |} =>
        if optimistic then
          let msg := add_endpoint_name endpointName msg in
          let msg := filter_optimistic options msg in
          if negb (Nat.eqb (List.length (Obj.keys msg)) 0)
          then addToToPublish (settings_ID (entity_settings resolvedEntity)) msg st
          else st
        else st
    | _ => st
    end in
  let st :=
    match result with
    | Some {| result_membersState := Some ms |} =>
        if optimistic then
          fold_left (fun st kv => addToToPublish (fst kv) (snd kv) st) ms st
        else st
    | _ => st
    end in
  match result with
  | Some {| readAfterWriteTime := Some delay |} =>
      if is_device resolvedEntity
         && retrieve_state (entity_settings resolvedEntity)
      then emit (setTimeout_convertGet converter actualTarget key meta delay) st
      else st
  | _ => st
  end.

(** Lines 229 and 230, 272 and 273: the line for the logger and the
    call, up to the point where the converter takes over. *)
Definition announce_set (converter : ref) (endpointOrGroupID : string)
  (actualTarget : Target) (key : string) (value : JsVal) (meta : Meta)
  (st : LoopState) : LoopState :=
  emit (call_convertSet converter endpointOrGroupID actualTarget key value meta)
    (emit (logger_debug (Publishing_to set key (entity_name resolvedEntity))) st).

Definition announce_get (converter : ref) (endpointOrGroupID : string)
  (actualTarget : Target) (key : string) (meta : Meta)
  (st : LoopState) : LoopState :=
  emit (call_convertGet converter endpointOrGroupID actualTarget key meta)
    (emit (logger_debug (Publishing_get_to get key (entity_name resolvedEntity))) st).

(** Lines 228 to 277: the body of [try]. *)
Definition try_block (converter : ref) (endpointOrGroupID endpointName : string)
  (actualTarget : Target) (key : string) (value : JsVal) (meta : Meta)
  (st : LoopState) : Completion * LoopState :=
  match type topic, convertSet (converter_at E converter),
        convertGet (converter_at E converter) with
  | set, Some convertSet, _ =>
      let st := announce_set converter endpointOrGroupID actualTarget key
                  value meta st in
      match convertSet actualTarget key value meta (world st) with
      | (Thrown error, w) => (Throw error, with_world w st)
      | (Returned result, w) =>
          (Normal,
           after_convertSet converter endpointName actualTarget key meta
             result (with_world w st))
      end
  | get, _, Some convertGet =>
      let st := announce_get converter endpointOrGroupID actualTarget key
                  meta st in
      match convertGet actualTarget key meta (world st) with
      | (Thrown error, w) => (Throw error, with_world w st)
      | (Returned _, w) => (Normal, with_world w st)
      end
  | t, _, _ =>
      (Continue,
       emit (logger_error
               (No_converter_available_for_type t key (prop json key))) st)
  end.

(** Lines 278 to 292: the body of [catch].  Line 282 reads [error.stack]
    outside any [try]: for [null] and [undefined] that throws, after the
    line of 281 went to the logger. *)
Definition catch_block (key : string) (error : JsError) (st : LoopState)
  : Completion * LoopState :=
  let name := entity_name resolvedEntity in
  let message := Publish_failed (type topic) key name error in
  let st := emit (logger_error message) st in
  if is_nullish error then (Throw (TypeError_at 282), st)
  else
    let st := emit (logger_debug (Error_stack error)) st in
    (Normal,
     if legacy_api E
     then emit (mqtt_publish "bridge/log" (zigbee_publish_error message name)) st
     else st).

(** What the body of [catch] gives to the logger and to the MQTT
    client. *)
Definition catch_events (key : string) (error : JsError) : list Event :=
  let name := entity_name resolvedEntity in
  let message := Publish_failed (type topic) key name error in
  logger_error message
  :: (if is_nullish error then []
      else logger_debug (Error_stack error)
           :: (if legacy_api E
               then [mqtt_publish "bridge/log"
                       (zigbee_publish_error message name)]
               else [])).

(** [try { ... } catch (error) { ... }] *)
Definition try_catch (c : Completion * LoopState) (key : string)
  : Completion * LoopState :=
  match c with
  | (Throw error, st) => catch_block key error st
  | other => other
  end.

(** Lines 173 to 188: the endpoint a key names, when the entity is a
    device: the name, the key without it and the endpoint of that name,
    or the [TypeError] of line 181 when the definition has no
    [endpoint]. *)
Definition endpoint_of_key (key : string)
  : option (string * string * Outcome (option ref)) :=
  match resolvedEntity with
  | device_entity _ _ _ target (Some definition) =>
      if Str.includes key "_" then
        match find (fun n => Str.endsWith key ("_" ++ n)) (endpointNames E) with
        | Some endpointNameMatch =>
            if String.eqb endpointNameMatch "" then None
            else
              let key' := Str.strip_line_ends ("_" ++ endpointNameMatch) key in
              let device := getDevice E target in
              Some (endpointNameMatch, key',
                    match endpoint definition with
                    | Some endpoint =>
                        Returned
                          (getEndpoint E device
                             (Obj.get endpointNameMatch (endpoint device)))
                    | None => Thrown (TypeError_at 181)
                    end)
        | None => None
        end
      else None
  | _ => None
  end.

Definition endpointOrGroupID_of (t : Target) : string :=
  match t with
  | Group g => Str.of_N (groupID E g)
  | Endpoint e => Str.of_N (endpoint_ID E e)
  end.

Definition is_set (t : TopicType) : bool :=
  match t with set => true | get => false end.

(** Lines 205 to 225: [meta], its message without the endpoint name. *)
Definition meta_of (endpointName : string) : Meta :=
  {| endpoint_name := endpointName;
     options := details_options details;
     message := strip_endpoint_name endpointName
                  (Obj.spread (Object_entries json));
     meta_device := details_device details;
     state := entityState;
     membersState := details_membersState details;
     mapped := definition_ details |}.

(** Lines 190 to 294: from the converter lookup to the end of the body. *)
Definition dispatch (endpointName endpointOrGroupID : string)
  (actualTarget : Target) (key : string) (value : JsVal) (st : LoopState)
  : Completion * LoopState :=
  let st := ensure_used endpointOrGroupID st in
  let converter := find_converter (converters details) key in
  if is_set (type topic)
     && includes_converter (used_at endpointOrGroupID st) converter
  then (Continue, st)
  else
    match converter with
    | None =>
        (Continue,
         emit (logger_error (No_converter_available_for key (prop json key))) st)
    | Some c =>
        let meta := meta_of endpointName in
        match try_catch (try_block c endpointOrGroupID endpointName
                           actualTarget key value meta st) key with
        | (Normal, st) => (Normal, push_used endpointOrGroupID c st)
        | other => other
        end
    end.

(** Lines 168 to 188: where an entry goes. *)
Inductive Route : Type :=
| throws (error : JsError)
| no_such_endpoint (endpointName : string)
| routed (endpointName endpointOrGroupID : string) (actualTarget : Target)
    (key : string).

Definition route (key : string) : Route :=
  match endpoint_of_key key with
  | Some (_, _, Thrown error) => throws error
  | Some (endpointName, key', Returned (Some actualTarget)) =>
      routed endpointName endpointName (Endpoint actualTarget) key'
  | Some (endpointName, _, Returned None) => no_such_endpoint endpointName
  | None =>
      routed (endpointName topic) (endpointOrGroupID_of (target details))
        (target details) key
  end.

(** Lines 167 to 295: the body of the loop for one entry. *)
Definition loop_body (kv : entry) (st : LoopState) : Completion * LoopState :=
  match route (fst kv) with
  | throws error => (Throw error, st)
  | no_such_endpoint endpointName =>
      (Continue,
       emit (logger_error
               (Device_has_no_endpoint (entity_name resolvedEntity) endpointName))
            st)
  | routed endpointName endpointOrGroupID actualTarget key =>
      dispatch endpointName endpointOrGroupID actualTarget key (snd kv) st
  end.

(** The ways through the body, one case per path of the source: what
    [loop_body] does is always one of them ([loop_body_Step]). *)
Inductive Step (kv : entry) (st : LoopState) : Completion -> LoopState -> Prop :=
| step_throws (error : JsError) :
    route (fst kv) = throws error ->
    Step kv st (Throw error) st
| step_no_endpoint (n : string) :
    route (fst kv) = no_such_endpoint n ->
    Step kv st Continue
      (emit (logger_error
               (Device_has_no_endpoint (entity_name resolvedEntity) n)) st)
| step_skipped (ep id : string) (tgt : Target) (k : string) :
    route (fst kv) = routed ep id tgt k ->
    type topic = set ->
    includes_converter (used_at id (ensure_used id st))
      (find_converter (converters details) k) = true ->
    Step kv st Continue (ensure_used id st)
| step_no_converter (ep id : string) (tgt : Target) (k : string) :
    route (fst kv) = routed ep id tgt k ->
    find_converter (converters details) k = None ->
    Step kv st Continue
      (emit (logger_error (No_converter_available_for k (prop json k)))
         (ensure_used id st))
| step_no_operation (ep id : string) (tgt : Target) (k : string) (c : ref) :
    route (fst kv) = routed ep id tgt k ->
    find_converter (converters details) k = Some c ->
    match type topic with
    | set => convertSet (converter_at E c) = None
    | get => convertGet (converter_at E c) = None
    end ->
    Step kv st Continue
      (emit (logger_error
               (No_converter_available_for_type (type topic) k (prop json k)))
         (ensure_used id st))
| step_set_thrown (ep id : string) (tgt : Target) (k : string) (c : ref)
    f (error : JsError) (w : W) :
    route (fst kv) = routed ep id tgt k ->
    find_converter (converters details) k = Some c ->
    type topic = set ->
    includes_converter (used_at id (ensure_used id st)) (Some c) = false ->
    convertSet (converter_at E c) = Some f ->
    f tgt k (snd kv) (meta_of ep) (world st) = (Thrown error, w) ->
    is_nullish error = false ->
    Step kv st Normal
      (push_used id c
         (snd (catch_block k error
                 (with_world w
                    (announce_set c id tgt k (snd kv) (meta_of ep)
                       (ensure_used id st))))))
| step_set_thrown_nullish (ep id : string) (tgt : Target) (k : string) (c : ref)
    f (error : JsError) (w : W) :
    route (fst kv) = routed ep id tgt k ->
    find_converter (converters details) k = Some c ->
    type topic = set ->
    includes_converter (used_at id (ensure_used id st)) (Some c) = false ->
    convertSet (converter_at E c) = Some f ->
    f tgt k (snd kv) (meta_of ep) (world st) = (Thrown error, w) ->
    is_nullish error = true ->
    Step kv st (Throw (TypeError_at 282))
      (snd (catch_block k error
              (with_world w
                 (announce_set c id tgt k (snd kv) (meta_of ep)
                    (ensure_used id st)))))
| step_set_returned (ep id : string) (tgt : Target) (k : string) (c : ref)
    f (result : option Result) (w : W) :
    route (fst kv) = routed ep id tgt k ->
    find_converter (converters details) k = Some c ->
    type topic = set ->
    includes_converter (used_at id (ensure_used id st)) (Some c) = false ->
    convertSet (converter_at E c) = Some f ->
    f tgt k (snd kv) (meta_of ep) (world st) = (Returned result, w) ->
    Step kv st Normal
      (push_used id c
         (after_convertSet c ep tgt k (meta_of ep) result
            (with_world w
               (announce_set c id tgt k (snd kv) (meta_of ep)
                  (ensure_used id st)))))
| step_get_thrown (ep id : string) (tgt : Target) (k : string) (c : ref)
    f (error : JsError) (w : W) :
    route (fst kv) = routed ep id tgt k ->
    find_converter (converters details) k = Some c ->
    type topic = get ->
    convertGet (converter_at E c) = Some f ->
    f tgt k (meta_of ep) (world st) = (Thrown error, w) ->
    is_nullish error = false ->
    Step kv st Normal
      (push_used id c
         (snd (catch_block k error
                 (with_world w
                    (announce_get c id tgt k (meta_of ep)
                       (ensure_used id st))))))
| step_get_thrown_nullish (ep id : string) (tgt : Target) (k : string) (c : ref)
    f (error : JsError) (w : W) :
    route (fst kv) = routed ep id tgt k ->
    find_converter (converters details) k = Some c ->
    type topic = get ->
    convertGet (converter_at E c) = Some f ->
    f tgt k (meta_of ep) (world st) = (Thrown error, w) ->
    is_nullish error = true ->
    Step kv st (Throw (TypeError_at 282))
      (snd (catch_block k error
              (with_world w
                 (announce_get c id tgt k (meta_of ep) (ensure_used id st)))))
| step_get_returned (ep id : string) (tgt : Target) (k : string) (c : ref)
    f (u : unit) (w : W) :
    route (fst kv) = routed ep id tgt k ->
    find_converter (converters details) k = Some c ->
    type topic = get ->
    convertGet (converter_at E c) = Some f ->
    f tgt k (meta_of ep) (world st) = (Returned u, w) ->
    Step kv st Normal
      (push_used id c
         (with_world w
            (announce_get c id tgt k (meta_of ep) (ensure_used id st)))).

(** [for (let [key, value] of entries) { ... }]: [continue] goes on with
    the next entry, an exception leaves the loop. *)
Fixpoint for_of (entries : list entry) (st : LoopState)
  : Completion * LoopState :=
  match entries with
  | [] => (Normal, st)
  | kv :: rest =>
      match loop_body kv st with
      | (Throw error, st') => (Throw error, st')
      | (_, st') => for_of rest st'
      end
  end.

End Message.

(** Lines 297 to 299 *)
Definition flush (toPublish : Obj.t JsObj) : list Event :=
  map (fun kv => publishEntityState (fst kv) (snd kv)) toPublish.

(** *** [onMQTTMessage] *)

(** How a call of the handler ends: with a value, or with an exception
    that leaves it. *)
Inductive Ending : Type :=
| Ends (r : Returns)
| Raises (error : JsError).

Definition entityKey_of (topic : Topic) : string :=
  ID topic ++ (if String.eqb (endpointName topic) "" then ""
               else "/" ++ endpointName topic).

Definition onMQTTMessage (topic message : string) (w : W)
  : Ending * list Event * W :=
  match parseTopic topic with
  | None => (Ends returns_false, [], w)
  | Some topic =>
      let entityKey := entityKey_of topic in
      match resolveEntity E entityKey with
      | None =>
          (Ends returns_undefined,
           (if legacy_api E
            then [mqtt_publish "bridge/log" (entity_not_found entityKey)]
            else [])
           ++ [logger_error (Entity_is_unknown entityKey)],
           w)
      | Some resolvedEntity =>
          match entity_details resolvedEntity with
          | inl logged => (Ends returns_undefined, logged, w)
          | inr details =>
              match decode topic message with
              | inl (r, logged) => (Ends r, logged, w)
              | inr json =>
                  let entityState := entityState_of resolvedEntity in
                  let '(json, logged) := home_assistant entityState json in
                  let entries := ordered_entries json in
                  let st := {| usedConverters := Obj.empty;
                               toPublish := Obj.empty;
                               trace := logged;
                               world := w |} in
                  match for_of topic resolvedEntity details json entityState
                          entries st with
                  | (Throw error, st) => (Raises error, trace st, world st)
                  | (_, st) =>
                      (Ends returns_true,
                       trace st ++ flush (toPublish st),
                       world st)
                  end
              end
          end
      end
  end.

(** The parts of what a call of the handler gives. *)
Definition ending_of (r : Ending * list Event * W) : Ending := fst (fst r).
Definition trace_of (r : Ending * list Event * W) : list Event := snd (fst r).
Definition world_of (r : Ending * list Event * W) : W := snd r.

(** A condition on the converters, for the last part of C3: a write never
    returns an empty state for a member. *)
Definition member_states_not_empty : Prop :=
  forall c f tgt k v m w r w' ms id p,
    convertSet (converter_at E c) = Some f ->
    f tgt k v m w = (Returned (Some r), w') ->
    result_membersState r = Some ms ->
    In (id, p) ms -> p <> [].

End Publish.

Arguments catch_events {W}.
Arguments Accumulates {W}.
Arguments ending_of {W}.
Arguments trace_of {W}.
Arguments world_of {W}.
Arguments member_states_not_empty {W}.

Arguments emit {W}.
Arguments with_world {W}.
Arguments with_used {W}.
Arguments addToToPublish {W}.
Arguments used_at {W}.
Arguments ensure_used {W}.
Arguments push_used {W}.
Arguments find_converter {W}.
Arguments after_convertSet {W}.
Arguments announce_set {W}.
Arguments announce_get {W}.
Arguments try_block {W}.
Arguments catch_block {W}.
Arguments try_catch {W}.
Arguments endpoint_of_key {W}.
Arguments endpointOrGroupID_of {W}.
Arguments dispatch {W}.
Arguments route {W}.
Arguments loop_body {W}.
Arguments for_of {W}.
Arguments Step {W}.
Arguments onMQTTMessage {W}.
Arguments parseTopic {W}.
Arguments entity_details {W}.
Arguments decode {W}.
Arguments home_assistant {W}.
Arguments entityState_of {W}.
Arguments ordered_entries {W}.
Arguments group_converters {W}.
Arguments member_definitions {W}.
Arguments defaultGroupConverters {W}.
Arguments group_membersState {W}.
Arguments trace {W}.
Arguments world {W}.
Arguments usedConverters {W}.
Arguments toPublish {W}.
Arguments Build_LoopState {W}.

(** ** What holds of the state throughout the loop *)

Section Invariants.

Variable W : Type.

(** What [after_convertSet] may give to [addToToPublish]: for the entity a
    state that is not empty, and the states of the members as the converter
    returned them. *)
Definition accumulable (resolvedEntity : ResolvedEntity)
  (result : option Result) (ID : string) (payload : JsObj) : Prop :=
  (ID = settings_ID (entity_settings resolvedEntity) /\ payload <> [])
  \/ exists r ms, result = Some r /\ result_membersState r = Some ms /\
                  In (ID, payload) ms.

(** No converter was written to twice under an identifier, and one that
    was written to is recorded as used under it. *)
Definition used_once (st : LoopState W) : Prop :=
  forall (c : ref) (id : string),
    convertSet_calls c id (trace st) <= 1 /\
    (convertSet_calls c id (trace st) = 1 -> In (Some c) (used_at id st)).

(** No converter was written to twice under an identifier. *)
Definition written_once (st : LoopState W) : Prop :=
  forall (c : ref) (id : string), convertSet_calls c id (trace st) <= 1.

(** [toPublish] holds, for each identifier something was accumulated for,
    the merge of what was accumulated, and nothing else. *)
Definition buffer_is_merge (st : LoopState W) : Prop :=
  NoDup (Obj.keys (toPublish st)) /\
  forall id : string,
    Obj.get id (toPublish st) =
    match deltas_of id (trace st) with
    | [] => None
    | ds => Some (fold_left Obj.merge ds Obj.empty)
    end.

Definition buffer_not_empty (st : LoopState W) : Prop :=
  forall (id : string) (p : JsObj), Obj.get id (toPublish st) = Some p -> p <> [].

Definition no_publish (st : LoopState W) : Prop :=
  Forall (fun ev => is_state_publish ev = false) (trace st).

End Invariants.

Arguments accumulable : clear implicits.
Arguments used_once {W}.
Arguments written_once {W}.
Arguments buffer_is_merge {W}.
Arguments buffer_not_empty {W}.
Arguments no_publish {W}.

(** ** What the loop adds to the trace *)

(** The lines the loop gives to the logger (lines 184, 200, 229, 272, 275,
    281 and 282). *)
Definition is_loop_line (l : LogLine) : bool :=
  match l with
  | Device_has_no_endpoint _ _ | No_converter_available_for _ _
  | Publishing_to _ _ _ | Publishing_get_to _ _ _
  | No_converter_available_for_type _ _ _ | Publish_failed _ _ _ _
  | Error_stack _ => true
  | _ => false
  end.

(** What the body of the loop can add to the trace, for a topic of type
    [t] on the entity [r] with the details [d]: lines for the logger; the
    failure record for [bridge/log] under the legacy API; calls of
    [convertSet] for a [set] and of [convertGet] for a [get]; for a [set],
    what is accumulated when the entity is optimistic, and the timer when
    it is a device that asks for [retrieve_state]. *)
Definition loop_event (legacy : bool) (t : TopicType) (r : ResolvedEntity)
  (d : Details) (ev : Event) : bool :=
  match ev with
  | logger_error l | logger_debug l => is_loop_line l
  | logger_warn _ => false
  | mqtt_publish tp (zigbee_publish_error _ _) =>
      legacy && String.eqb tp "bridge/log"
  | mqtt_publish _ (entity_not_found _) => false
  | call_convertSet _ _ _ _ _ _ => is_set t
  | call_convertGet _ _ _ _ _ => negb (is_set t)
  | setTimeout_convertGet _ _ _ _ _ =>
      is_set t && is_device r && retrieve_state (entity_settings r)
  | accumulated _ _ => is_set t && is_optimistic (details_options d)
  | publishEntityState _ _ => false
  end.

Definition is_convertSet (ev : Event) : bool :=
  match ev with
  | call_convertSet _ _ _ _ _ _ => true
  | _ => false
  end.

Definition is_convertGet (ev : Event) : bool :=
  match ev with
  | call_convertGet _ _ _ _ _ => true
  | _ => false
  end.

Definition is_timer (ev : Event) : bool :=
  match ev with
  | setTimeout_convertGet _ _ _ _ _ => true
  | _ => false
  end.

(** A timer is for the converter, target, key and [meta] of a write. *)
Definition timers_follow_writes (evs : list Event) : Prop :=
  forall (c : ref) (tgt : Target) (k : string) (m : Meta) (delay : Z),
    In (setTimeout_convertGet c tgt k m delay) evs ->
    exists (id : string) (v : JsVal), In (call_convertSet c id tgt k v m) evs.

(** The number of calls of [convertSet] of converter [c], under whatever
    identifier. *)
Definition writes_of (c : ref) (tr : list Event) : nat :=
  List.length
    (filter (fun ev => match ev with
                       | call_convertSet c' _ _ _ _ _ => Nat.eqb c c'
                       | _ => false
                       end) tr).

(** A condition on the converters [cs]: a write returns no states of
    members. *)
Definition no_member_states {W : Type} (E : Env W) (cs : list ref) : Prop :=
  forall (c : ref) f (tgt : Target) (k : string) (v : JsVal) (m : Meta)
         (w w' : W) (r : Result),
    In c cs ->
    convertSet (converter_at E c) = Some f ->
    f tgt k v m w = (Returned (Some r), w') ->
    result_membersState r = None.

(** What is kept for publication holds, under the identifier [ID] and
    under no other, states without the keys [l]. *)
Definition kept_without {W : Type} (ID : string) (l : list string)
  (st : LoopState W) : Prop :=
  forall (id : string) (p : JsObj),
    Obj.get id (toPublish st) = Some p ->
    id = ID /\ forall a, In a l -> Obj.has a p = false.

(** ** The order the specification describes

    A second definition, after the words of the specification and not after
    the code: each entry has a rank, and the entries are sorted by
    ascending rank, entries of equal rank keeping their order. *)

Definition rank (sorter : Z) (a : entry) : Z :=
  if string_in (fst a) ["state"; "brightness"; "brightness_percent"]
  then sorter else (- sorter)%Z.

Fixpoint insert_by_rank (rk : entry -> Z) (x : entry) (l : list entry)
  : list entry :=
  match l with
  | [] => [x]
  | y :: l' => if (rk x <=? rk y)%Z then x :: l else y :: insert_by_rank rk x l'
  end.

Definition stable_by_rank (rk : entry -> Z) (l : list entry) : list entry :=
  fold_right (insert_by_rank rk) [] l.

Definition Attribute_Orderer_spec (json : JsVal) : list entry :=
  stable_by_rank (rank (sorter_of json)) (Object_entries json).

(** ** [Array.prototype.sort] in V8

    The comparison function of line 157 is not a consistent comparison
    function (it is not even reflexive), so the language leaves the order of
    the result to the engine.  Node runs V8, whose sort is TimSort
    ([third_party/v8/builtins/array-sort.tq]).  An array of fewer than 64
    elements is one run: [ComputeMinRunLength] is the length itself, so
    [CountAndMakeRun] finds the run the array starts with and
    [BinaryInsertionSort] inserts the elements after it, and nothing is
    merged.  This is that path. *)

Module V8.
Section Sort.
Context {A : Type}.
Variable comparefn : A -> A -> Z.

(** The loop of [CountAndMakeRun]: the run goes on while the order of
    an element and the one before it is the order of the first two. *)
Fixpoint run_rest (isDescending : bool) (previousElement : A) (l : list A)
  : list A * list A :=
  match l with
  | [] => ([], [])
  | currentElement :: l' =>
      let order := comparefn currentElement previousElement in
      if (if isDescending then (0 <=? order)%Z else (order <? 0)%Z)
      then ([], l)
      else let (run, rest) := run_rest isDescending currentElement l' in
           (currentElement :: run, rest)
  end.

(** [CountAndMakeRun]: the run at the start, reversed when it
    descends, and the elements after it. *)
Definition CountAndMakeRun (l : list A) : list A * list A :=
  match l with
  | elementHigh :: elementLow :: l' =>
      let order := comparefn elementLow elementHigh in
      let isDescending := (order <? 0)%Z in
      let (run, rest) := run_rest isDescending elementLow l' in
      let run := elementHigh :: elementLow :: run in
      (if isDescending then rev run else run, rest)
  | _ => (l, [])
  end.

(** The search of [BinaryInsertionSort] for the place of [pivot] in the
    sorted part [work]; [fuel] bounds the halvings. *)
Fixpoint search (fuel : nat) (pivot : A) (work : list A) (left right : nat)
  : nat :=
  match fuel with
  | O => left
  | S fuel' =>
      if (left <? right)%nat then
        let mid := (left + Nat.div2 (right - left))%nat in
        let order := comparefn pivot (nth mid work pivot) in
        if (order <? 0)%Z then search fuel' pivot work left mid
        else search fuel' pivot work (mid + 1)%nat right
      else left
  end.

Definition insert_pivot (work : list A) (pivot : A) : list A :=
  let left := search (List.length work) pivot work 0 (List.length work) in
  firstn left work ++ pivot :: skipn left work.

(** [BinaryInsertionSort]: the elements after the run, one by one. *)
Definition BinaryInsertionSort (run rest : list A) : list A :=
  fold_left insert_pivot rest run.

Definition sort (l : list A) : list A :=
  let (run, rest) := CountAndMakeRun l in
  BinaryInsertionSort run rest.

(** For a comparison function that only looks at its first operand and
    gives [r a] for it: the elements it puts before any other. *)
Definition smaller (r : A -> Z) (a : A) : bool := (r a <? 0)%Z.

End Sort.
End V8.

(** ** The network map ([convert2graph], lines 306 to 353)

    The devices of the map come as a dictionary from device key to device
    ([Obj.t Device], in property order).  Of a device the function reads
    [friendly_name], [Rtg] (the routes, numbers that name other devices by
    their key), [st.linkquality] and [type]; [null] and [undefined] are
    [None].  [GATEWAY] and [genDeviceShortAddress] come from other
    files, and [toString] is [Number.prototype.toString] of the runtime:
    the decimal digits of a route below 10^21, the exponent notation from
    there on. *)

Module Map.

Record St : Type := { linkquality : option Z }.

Record Device : Type := {
  friendly_name : option string;
  Rtg : option (list N);
  st : option St;
  type : string
}.

Record NodeI : Type := {
  id : string;
  device : Device;
  name : string
}.

Record LinkI : Type := {
  source : string;
  target : string;
  linkQuality : option Z;
  link_type : string
}.

Record GraphI : Type := {
  nodes : list NodeI;
  links : list LinkI
}.

Section Graph.

Variable GATEWAY : Device.
Variable genDeviceShortAddress : string -> option string.
Variable toString : N -> string.

(** [a ?? b] *)
Definition nullish {A : Type} (a : option A) (b : A) : A :=
  match a with Some x => x | None => b end.

(** [getName(device, deviceKey)] *)
Definition getName (device : Device) (deviceKey : string) : string :=
  nullish (friendly_name device)
    (nullish (genDeviceShortAddress deviceKey) "Unknow device").

Definition coordinator : NodeI :=
  {| id := "SLS GW"; device := GATEWAY; name := "GW" |}.

(** [getLinkType(source, dest)] *)
Definition getLinkType (source dest : string) : string :=
  (source ++ "2" ++ dest)%string.

(** [deviceData?.st?.linkquality] *)
Definition linkquality_of (deviceData : Device) : option Z :=
  match st deviceData with
  | Some s => linkquality s
  | None => None
  end.

(** The body of [deviceData.Rtg.forEach]: [None] is the [TypeError] of
    reading [type] of [file[route.toString()]] when there is no such
    device. *)
Definition push_route (file : Obj.t Device) (deviceKey : string)
  (deviceData : Device) (graph : option GraphI) (route : N) : option GraphI :=
  match graph with
  | None => None
  | Some graph =>
      match Obj.get (toString route) file with
      | None => None
      | Some dest =>
          Some {| nodes := nodes graph;
                  links := links graph ++
                           [{| source := deviceKey;
                               target := toString route;
                               linkQuality := linkquality_of deviceData;
                               link_type :=
                                 getLinkType (type deviceData) (type dest) |}] |}
      end
  end.

(** The body of [Object.entries(file).forEach]. *)
Definition push_device (file : Obj.t Device) (graph : option GraphI)
  (entry : string * Device) : option GraphI :=
  match graph with
  | None => None
  | Some graph =>
      let deviceKey := fst entry in
      let deviceData := snd entry in
      let graph :=
        {| nodes := nodes graph ++
                    [{| id := deviceKey;
                        device := deviceData;
                        name := getName deviceData deviceKey |}];
           links := links graph |} in
      match Rtg deviceData with
      | Some (route :: routes) =>
          fold_left (push_route file deviceKey deviceData) (route :: routes)
            (Some graph)
      | _ =>
          Some {| nodes := nodes graph;
                  links := links graph ++
                           [{| source := deviceKey;
                               target := id coordinator;
                               linkQuality := linkquality_of deviceData;
                               link_type :=
                                 getLinkType (type deviceData) "Coordinator" |}] |}
      end
  end.

(** [convert2graph(file)]: the graph, or [None] when it throws. *)
Definition convert2graph (file : Obj.t Device) : option GraphI :=
  fold_left (push_device file) file
    (Some {| nodes := [coordinator]; links := [] |}).

(** The node of line 329 for a device. *)
Definition node_of (entry : string * Device) : NodeI :=
  {| id := fst entry;
     device := snd entry;
     name := getName (snd entry) (fst entry) |}.

(** The link of line 336 for a route that names a device of the file. *)
Definition link_of_route (file : Obj.t Device) (deviceKey : string)
  (deviceData : Device) (route : N) : list LinkI :=
  match Obj.get (toString route) file with
  | Some dest =>
      [{| source := deviceKey;
          target := toString route;
          linkQuality := linkquality_of deviceData;
          link_type := getLinkType (type deviceData) (type dest) |}]
  | None => []
  end.

(** The links of one device: one for each route, or else the link to the
    coordinator. *)
Definition links_of (file : Obj.t Device) (entry : string * Device)
  : list LinkI :=
  match Rtg (snd entry) with
  | Some (route :: routes) =>
      flat_map (link_of_route file (fst entry) (snd entry)) (route :: routes)
  | _ =>
      [{| source := fst entry;
          target := id coordinator;
          linkQuality := linkquality_of (snd entry);
          link_type := getLinkType (type (snd entry)) "Coordinator" |}]
  end.

(** Every route of the devices [entries] names a device of [file]. *)
Definition routed_in (file entries : Obj.t Device) : bool :=
  forallb (fun entry =>
             match Rtg (snd entry) with
             | Some routes =>
                 forallb (fun route => Obj.has (toString route) file) routes
             | None => true
             end) entries.

(** A route of a device of the file that names no device of the file. *)
Definition dangling (file : Obj.t Device) (deviceKey : string) (route : N)
  : Prop :=
  exists (deviceData : Device) (routes : list N),
    In (deviceKey, deviceData) file /\ Rtg deviceData = Some routes
    /\ In route routes /\ Obj.get (toString route) file = None.

End Graph.

End Map.

(** A map to run [convert2graph] on: a router that routes through an end
    device, and the end device. *)
Module MapExample.

Definition gateway : Map.Device :=
  {| Map.friendly_name := None; Map.Rtg := None; Map.st := None;
     Map.type := "Coordinator" |}.

Definition short (deviceKey : string) : option string :=
  if String.eqb deviceKey "4660" then Some "0x1234" else None.

(** The routes of the example are below 10^21. *)
Definition toString (route : N) : string := Str.of_N route.

Definition router : Map.Device :=
  {| Map.friendly_name := Some "plug"; Map.Rtg := Some [4660%N];
     Map.st := Some {| Map.linkquality := Some 120%Z |};
     Map.type := "Router" |}.

Definition sensor : Map.Device :=
  {| Map.friendly_name := None; Map.Rtg := Some []; Map.st := None;
     Map.type := "EndDevice" |}.

Definition file : Obj.t Map.Device := [("4660", sensor); ("22136", router)].

(** The same with a route to a device that is not in the file. *)
Definition lost : Map.Device :=
  {| Map.friendly_name := None; Map.Rtg := Some [7%N]; Map.st := None;
     Map.type := "Router" |}.

Definition broken : Obj.t Map.Device := [("4660", sensor); ("9", lost)].

(** What [convert2graph] makes of [file]. *)
Definition graph : Map.GraphI :=
  {| Map.nodes :=
       [{| Map.id := "SLS GW"; Map.device := gateway; Map.name := "GW" |};
        {| Map.id := "4660"; Map.device := sensor; Map.name := "0x1234" |};
        {| Map.id := "22136"; Map.device := router; Map.name := "plug" |}];
     Map.links :=
       [{| Map.source := "4660"; Map.target := "SLS GW";
           Map.linkQuality := None;
           Map.link_type := "EndDevice2Coordinator" |};
        {| Map.source := "22136"; Map.target := "4660";
           Map.linkQuality := Some 120%Z;
           Map.link_type := "Router2EndDevice" |}] |}.

End MapExample.

(** ** An installation to run the handler on

    One lamp with two named endpoints of which the device has one, a device
    without a definition, and a group without members.  The world of the
    converters is the number of frames they have sent. *)

Module Example.

Definition quoted (s : string) : string :=
  (String "034"%char s ++ String "034"%char EmptyString)%string.

(** [{"state":"ON","brightness":200}] and the like. *)
Definition payload_state_brightness : string :=
  ("{" ++ quoted "state" ++ ":" ++ quoted "ON" ++ ","
       ++ quoted "brightness" ++ ":200}")%string.
Definition payload_state_left : string :=
  ("{" ++ quoted "state_left" ++ ":" ++ quoted "ON" ++ "}")%string.
Definition payload_state_right : string :=
  ("{" ++ quoted "state_right" ++ ":" ++ quoted "ON" ++ "}")%string.
Definition payload_effect : string :=
  ("{" ++ quoted "effect" ++ ":" ++ quoted "blink" ++ "}")%string.
Definition payload_color : string :=
  ("{" ++ quoted "color" ++ ":" ++ quoted "red" ++ ","
       ++ quoted "color_temp" ++ ":300}")%string.
Definition payload_toggle : string :=
  ("{" ++ quoted "state" ++ ":" ++ quoted "TOGGLE" ++ "}")%string.

Definition json_state_brightness : JsVal :=
  JObj [("state", JStr "ON"); ("brightness", JNum 200)].

(** [JSON.parse] on the payloads above; any other payload is rejected. *)
Definition parse (message : string) : option JsVal :=
  if String.eqb message payload_state_brightness then Some json_state_brightness
  else if String.eqb message payload_state_left
  then Some (JObj [("state_left", JStr "ON")])
  else if String.eqb message payload_state_right
  then Some (JObj [("state_right", JStr "ON")])
  else if String.eqb message payload_effect
  then Some (JObj [("effect", JStr "blink")])
  else if String.eqb message payload_color
  then Some (JObj [("color", JStr "red"); ("color_temp", JNum 300)])
  else if String.eqb message payload_toggle
  then Some (JObj [("state", JStr "TOGGLE")])
  else None.

(** A converter for [state] and [brightness]: one frame, and the written
    attribute as the new state. *)
Definition light_onoff_brightness : Converter nat :=
  {| key := ["state"; "brightness"; "brightness_percent"];
     convertSet :=
       Some (fun _ k v _ w =>
               (Returned (Some {| result_state := Some [(k, v)];
                                  result_membersState := None;
                                  readAfterWriteTime := None |}), S w));
     convertGet := Some (fun _ _ _ w => (Returned tt, S w)) |}.

(** What is thrown when a device does not answer. *)
Definition timeout : JsError :=
  error_object "Error: timeout" (JStr "Error: timeout").

(** A converter for [color] and [color_temp] whose device does not
    answer. *)
Definition light_color_colortemp : Converter nat :=
  {| key := ["color"; "color_temp"];
     convertSet := Some (fun _ _ _ _ w => (Thrown timeout, S w));
     convertGet := Some (fun _ _ _ w => (Thrown timeout, S w)) |}.

(** A converter for [effect] that returns an empty state for a member. *)
Definition effect : Converter nat :=
  {| key := ["effect"];
     convertSet :=
       Some (fun _ _ _ _ w =>
               (Returned (Some {| result_state := None;
                                  result_membersState := Some [("0x0b", [])];
                                  readAfterWriteTime := None |}), S w));
     convertGet := None |}.

Definition no_converter : Converter nat :=
  {| key := []; convertSet := None; convertGet := None |}.

Definition lamp_definition : Definition_ :=
  {| toZigbee := [0; 1];
     endpoint := Some (fun _ => [("left", 2%N); ("right", 3%N)]) |}.

Definition lamp_settings : EntitySettings :=
  {| settings_ID := "0x0a"; optimistic := None; filtered_optimistic := None;
     retrieve_state := false |}.

Definition group_settings : EntitySettings :=
  {| settings_ID := "1"; optimistic := None; filtered_optimistic := None;
     retrieve_state := false |}.

Definition lamp : ResolvedEntity :=
  device_entity "lamp1" lamp_settings 10 11 (Some lamp_definition).

Definition resolve (entityKey : string) : option ResolvedEntity :=
  if String.eqb entityKey "lamp1" then Some lamp
  else if String.eqb entityKey "unsupported"
  then Some (device_entity "unsupported" lamp_settings 20 21 None)
  else if String.eqb entityKey "group1"
  then Some (group_entity "group1" group_settings 30)
  else None.

(** The installation, with the converters behind the references. *)
Definition installation (legacy : bool) (converter_at : ref -> Converter nat)
  : Env nat :=
  {| base_topic := "zigbee2mqtt";
     legacy_api := legacy;
     homeassistant := false;
     endpointNames := ["left"; "right"; "center"; "bottom_left"];
     JSON_parse := parse;
     Array_sort := V8.sort;
     resolveEntity := resolve;
     state_get := fun _ => None;
     findByDevice := fun _ => None;
     getDevice := fun _ => 10;
     getEndpoint := fun _ n => match n with Some 2%N => Some 12 | _ => None end;
     endpoint_ID := N.of_nat;
     groupID := fun _ => 1%N;
     members := fun _ => [];
     ieeeAddr := fun _ => "0x0a";
     modelID := fun _ => "unknown model";
     toZigbeeConverters :=
       fun name =>
         if String.eqb name "light_onoff_brightness" then 0
         else if String.eqb name "light_color_colortemp" then 1
         else if String.eqb name "effect" then 2
         else 3;
     converter_at := converter_at |}.

Definition E (legacy : bool) : Env nat :=
  installation legacy
    (fun c =>
       match c with
       | 0 => light_onoff_brightness
       | 1 => light_color_colortemp
       | 2 => effect
       | _ => no_converter
       end).

(** The same without the converter for [effect]. *)
Definition E_lamps (legacy : bool) : Env nat :=
  installation legacy
    (fun c =>
       match c with
       | 0 => light_onoff_brightness
       | 1 => light_color_colortemp
       | _ => no_converter
       end).

Definition set_topic : Topic :=
  {| ID := "lamp1"; endpointName := ""; type := set; attribute := None |}.

Definition lamp_details : Details :=
  {| converters := [0; 1];
     target := Endpoint 11;
     details_options := lamp_settings;
     details_device := Some 10;
     definition_ := mapped_device lamp_definition;
     details_membersState := None |}.

Definition start (w : nat) : LoopState nat :=
  {| usedConverters := Obj.empty; toPublish := Obj.empty; trace := [];
     world := w |}.

(** More of the installation: a lamp whose colour temperature is read
    back after a write, a lamp that is not optimistic, a lamp that keeps
    [brightness] out of the optimistic state, and payloads that are JSON
    but no object. *)
Definition payload_color_temp : string :=
  ("{" ++ quoted "color_temp" ++ ":300}")%string.

Definition payload_color_off : string :=
  ("{" ++ quoted "color" ++ ":" ++ quoted "red" ++ ","
       ++ quoted "state" ++ ":" ++ quoted "OFF" ++ "}")%string.
Definition payload_brightness_state_left : string :=
  ("{" ++ quoted "brightness" ++ ":200,"
       ++ quoted "state_left" ++ ":" ++ quoted "ON" ++ "}")%string.

Definition parse_more (message : string) : option JsVal :=
  if String.eqb message payload_color_temp
  then Some (JObj [("color_temp", JNum 300)])
  else if String.eqb message payload_color_off
  then Some (JObj [("color", JStr "red"); ("state", JStr "OFF")])
  else if String.eqb message payload_brightness_state_left
  then Some (JObj [("brightness", JNum 200); ("state_left", JStr "ON")])
  else if String.eqb message "5" then Some (JNum 5)
  else if String.eqb message "null" then Some JNull
  else parse message.

Definition light_colortemp : Converter nat :=
  {| key := ["color_temp"];
     convertSet :=
       Some (fun _ k v _ w =>
               (Returned (Some {| result_state := Some [(k, v)];
                                  result_membersState := None;
                                  readAfterWriteTime := Some 500%Z |}), S w));
     convertGet := Some (fun _ _ _ w => (Returned tt, S w)) |}.

Definition readback_settings : EntitySettings :=
  {| settings_ID := "0x0c"; optimistic := None; filtered_optimistic := None;
     retrieve_state := true |}.

Definition quiet_settings : EntitySettings :=
  {| settings_ID := "0x0d"; optimistic := Some false;
     filtered_optimistic := None; retrieve_state := false |}.

Definition filtered_settings : EntitySettings :=
  {| settings_ID := "0x0e"; optimistic := None;
     filtered_optimistic := Some ["brightness"]; retrieve_state := false |}.

(** A definition without [endpoint]. *)
Definition lamp2_definition : Definition_ :=
  {| toZigbee := [0; 4]; endpoint := None |}.

Definition lamp2 : ResolvedEntity :=
  device_entity "lamp2" readback_settings 40 41 (Some lamp2_definition).

Definition lamp3 : ResolvedEntity :=
  device_entity "lamp3" quiet_settings 50 51 (Some lamp_definition).

Definition lamp4 : ResolvedEntity :=
  device_entity "lamp4" filtered_settings 60 61 (Some lamp_definition).

Definition resolve_more (entityKey : string) : option ResolvedEntity :=
  if String.eqb entityKey "lamp2" then Some lamp2
  else if String.eqb entityKey "lamp3" then Some lamp3
  else if String.eqb entityKey "lamp4" then Some lamp4
  else if String.eqb entityKey "lamp1/left" then Some lamp
  else resolve entityKey.

Definition E_more (legacy homeassistant : bool) : Env nat :=
  {| base_topic := "zigbee2mqtt";
     legacy_api := legacy;
     homeassistant := homeassistant;
     endpointNames := ["left"; "right"; "center"; "bottom_left"];
     JSON_parse := parse_more;
     Array_sort := V8.sort;
     resolveEntity := resolve_more;
     state_get := fun _ => None;
     findByDevice := fun _ => None;
     getDevice := fun _ => 10;
     getEndpoint := fun _ n => match n with Some 2%N => Some 12 | _ => None end;
     endpoint_ID := N.of_nat;
     groupID := fun _ => 1%N;
     members := fun _ => [];
     ieeeAddr := fun _ => "0x0a";
     modelID := fun _ => "unknown model";
     toZigbeeConverters :=
       fun name =>
         if String.eqb name "light_onoff_brightness" then 0
         else if String.eqb name "light_color_colortemp" then 1
         else if String.eqb name "effect" then 2
         else 3;
     converter_at :=
       fun c =>
         match c with
         | 0 => light_onoff_brightness
         | 1 => light_color_colortemp
         | 2 => effect
         | 4 => light_colortemp
         | _ => no_converter
         end |}.

(** The same with a converter for [color] and [color_temp] that rejects
    with [undefined]. *)
Definition light_color_rejecting : Converter nat :=
  {| key := ["color"; "color_temp"];
     convertSet := Some (fun _ _ _ _ w => (Thrown error_undefined, S w));
     convertGet := Some (fun _ _ _ w => (Thrown error_undefined, S w)) |}.

Definition with_converters (E : Env nat) (converters : ref -> Converter nat)
  : Env nat :=
  {| base_topic := base_topic E;
     legacy_api := legacy_api E;
     homeassistant := homeassistant E;
     endpointNames := endpointNames E;
     JSON_parse := JSON_parse E;
     Array_sort := Array_sort E;
     resolveEntity := resolveEntity E;
     state_get := state_get E;
     findByDevice := findByDevice E;
     getDevice := getDevice E;
     getEndpoint := getEndpoint E;
     endpoint_ID := endpoint_ID E;
     groupID := groupID E;
     members := members E;
     ieeeAddr := ieeeAddr E;
     modelID := modelID E;
     toZigbeeConverters := toZigbeeConverters E;
     converter_at := converters |}.

Definition E_rejecting (legacy : bool) : Env nat :=
  with_converters (E_more legacy false)
    (fun c =>
       match c with
       | 0 => light_onoff_brightness
       | 1 => light_color_rejecting
       | _ => no_converter
       end).

(** The same with two members in every group: the endpoint 11 of the
    lamp and the endpoint 41 of the second lamp. *)
Definition E_group : Env nat :=
  {| base_topic := "zigbee2mqtt";
     legacy_api := false;
     homeassistant := false;
     endpointNames := ["left"; "right"; "center"; "bottom_left"];
     JSON_parse := parse_more;
     Array_sort := V8.sort;
     resolveEntity := resolve_more;
     state_get := fun _ => None;
     findByDevice :=
       fun device =>
         match device with
         | 10 => Some lamp_definition
         | 40 => Some lamp2_definition
         | _ => None
         end;
     getDevice := Nat.pred;
     getEndpoint := fun _ n => match n with Some 2%N => Some 12 | _ => None end;
     endpoint_ID := N.of_nat;
     groupID := fun _ => 1%N;
     members := fun _ => [11; 41];
     ieeeAddr := fun device => if Nat.eqb device 10 then "0x0a" else "0x0c";
     modelID := fun _ => "unknown model";
     toZigbeeConverters := toZigbeeConverters (E_more false false);
     converter_at := converter_at (E_more false false) |}.

Definition get_topic : Topic :=
  {| ID := "lamp1"; endpointName := ""; type := get; attribute := None |}.

Definition left_topic : Topic :=
  {| ID := "lamp1"; endpointName := "left"; type := set; attribute := None |}.

Definition topic_of (ID : string) : Topic :=
  {| ID := ID; endpointName := ""; type := set; attribute := None |}.

Definition lamp2_details : Details :=
  {| converters := [0; 4];
     target := Endpoint 41;
     details_options := readback_settings;
     details_device := Some 40;
     definition_ := mapped_device lamp2_definition;
     details_membersState := None |}.

Definition lamp4_details : Details :=
  {| converters := [0; 1];
     target := Endpoint 61;
     details_options := filtered_settings;
     details_device := Some 60;
     definition_ := mapped_device lamp_definition;
     details_membersState := None |}.

End Example.

(** * Properties *)

Local Open Scope string_scope.
Local Open Scope list_scope.

(** ** Strings *)

Module StrFacts.
Import Str.
Local Open Scope string_scope.


Lemma append_assoc (a b c : string) : (a ++ b) ++ c = a ++ b ++ c.
Proof. induction a as [|x a IH]; simpl; [reflexivity | now rewrite IH]. Qed.

Lemma length_append (a b : string) :
  String.length (a ++ b) = String.length a + String.length b.
Proof. induction a as [|x a IH]; simpl; [reflexivity | now rewrite IH]. Qed.

Lemma drop_append (a b : string) : drop (String.length a) (a ++ b) = b.
Proof. induction a as [|x a IH]; simpl; auto. Qed.

Lemma take_append (a b : string) : take (String.length a) (a ++ b) = a.
Proof. induction a as [|x a IH]; simpl; [now destruct b | now rewrite IH]. Qed.

Lemma startsWith_append (p s : string) : startsWith (p ++ s) p = true.
Proof.
  induction p as [|c p IH]; simpl; [reflexivity|].
  now rewrite Ascii.eqb_refl, IH.
Qed.

Lemma startsWith_split (s p : string) :
  startsWith s p = true -> s = p ++ drop (String.length p) s.
Proof.
  revert s; induction p as [|c p IH]; intros s H; simpl in *; [reflexivity|].
  destruct s as [|d s]; [discriminate|].
  apply andb_true_iff in H as [Hc Hs].
  apply Ascii.eqb_eq in Hc; subst d.
  simpl. f_equal. now apply IH.
Qed.

Lemma startsWith_iff (s p : string) :
  startsWith s p = true <-> exists r, s = p ++ r.
Proof.
  split.
  - intros H. eexists. now apply startsWith_split.
  - intros [r ->]. apply startsWith_append.
Qed.

Lemma endsWith_unfold (s p : string) :
  endsWith s p =
  (String.eqb s p ||
   match s with EmptyString => false | String _ s' => endsWith s' p end)%bool.
Proof. now destruct s. Qed.

Lemma includes_unfold (s p : string) :
  includes s p =
  (startsWith s p ||
   match s with EmptyString => false | String _ s' => includes s' p end)%bool.
Proof. now destruct s. Qed.

Lemma endsWith_iff (s p : string) :
  endsWith s p = true <-> exists q, s = q ++ p.
Proof.
  induction s as [|c s IH]; rewrite endsWith_unfold.
  - rewrite orb_false_r, String.eqb_eq. split.
    + intros <-. now exists "".
    + intros [q H]. destruct q; simpl in H; [now symmetry | discriminate].
  - rewrite orb_true_iff, String.eqb_eq, IH. split.
    + intros [<- | [q ->]]; [now exists "" | now exists (String c q)].
    + intros [q H]. destruct q as [|d q]; simpl in H.
      * now left.
      * right. exists q. now injection H.
Qed.

Lemma includes_iff (s p : string) :
  includes s p = true <-> exists a b, s = a ++ p ++ b.
Proof.
  induction s as [|c s IH]; rewrite includes_unfold.
  - rewrite orb_false_r, startsWith_iff. split.
    + intros [r H]. now exists "", r.
    + intros (a & b & H). destruct a; simpl in H; [now exists b | discriminate].
  - rewrite orb_true_iff, startsWith_iff, IH. split.
    + intros [[r H] | (a & b & ->)]; [now exists "", r | now exists (String c a), b].
    + intros (a & b & H). destruct a as [|d a]; simpl in H.
      * left. now exists b.
      * right. exists a, b. now injection H.
Qed.

(** [s.replace(p, '')] cuts the first occurrence of [p] out of [s], and
    gives [s] back exactly when there is none. *)
Lemma remove_first_unfold (p s : string) :
  remove_first p s =
  if startsWith s p then drop (String.length p) s
  else match s with
       | EmptyString => EmptyString
       | String c s' => String c (remove_first p s')
       end.
Proof. now destruct s. Qed.


Lemma remove_first_absent (p s : string) :
  includes s p = false -> remove_first p s = s.
Proof.
  induction s as [|c s IH]; rewrite includes_unfold, remove_first_unfold;
    intros H.
  - apply orb_false_iff in H as [H _]. now rewrite H.
  - apply orb_false_iff in H as [Hp H]. rewrite Hp. now rewrite IH.
Qed.


End StrFacts.

Local Open Scope list_scope.
Local Open Scope string_scope.

(** ** The topic pattern *)

Section TopicRegexFacts.
Import StrFacts.
Variable names : list string.

Lemma match_type_sound (s : string) (t : TopicType) (rest : string) :
  match_type s = Some (t, rest) -> s = segment t ++ rest.
Proof.
  unfold match_type. intros H.
  destruct (Str.startsWith s "/get") eqn:Hg.
  - injection H as <- <-. now apply startsWith_split in Hg.
  - destruct (Str.startsWith s "/set") eqn:Hs; [|discriminate].
    injection H as <- <-. now apply startsWith_split in Hs.
Qed.

Lemma match_type_complete (t : TopicType) (tail : string) :
  match_type (segment t ++ tail) = Some (t, tail).
Proof. now destruct t. Qed.

Lemma match_endpoint_sound (alts : list string) (s n : string)
      (t : TopicType) (rest : string) :
  match_endpoint alts s = Some (n, (t, rest)) ->
  In n alts /\ s = ("/" ++ n) ++ segment t ++ rest.
Proof.
  induction alts as [|a alts IH]; cbn [match_endpoint]; [discriminate|].
  destruct (Str.startsWith s ("/" ++ a)) eqn:Hp.
  - destruct (match_type (Str.drop (1 + String.length a) s)) as [[t' r']|] eqn:Ht.
    + intros H. injection H as <- <- <-. split; [now left|].
      apply startsWith_split in Hp. apply match_type_sound in Ht.
      change (1 + String.length a) with (String.length ("/" ++ a)) in Ht.
      rewrite Hp at 1. now rewrite Ht.
    + intros H. destruct (IH H) as [Hin Hs]. split; [now right | exact Hs].
  - intros H. destruct (IH H) as [Hin Hs]. split; [now right | exact Hs].
Qed.

Lemma match_endpoint_complete (alts : list string) (n : string)
      (t : TopicType) (tail : string) :
  In n alts ->
  match_endpoint alts (("/" ++ n) ++ segment t ++ tail) <> None.
Proof.
  induction alts as [|a alts IH]; cbn [match_endpoint]; [easy|].
  intros [-> | Hin].
  - rewrite startsWith_append.
    change (1 + String.length n) with (String.length ("/" ++ n)).
    rewrite drop_append, match_type_complete. discriminate.
  - destruct (Str.startsWith _ _); [|now apply IH].
    destruct (match_type _) as [r|]; [discriminate | now apply IH].
Qed.

Lemma match_rest_sound (s : string) (m2 : option string) (t : TopicType)
      (m4 : option string) :
  match_rest names s = Some (m2, t, m4) ->
  exists ep tail,
    endpoint_segment names ep m2 /\ s = ep ++ segment t ++ tail /\
    m4 = match_attribute tail.
Proof.
  unfold match_rest.
  destruct (match_endpoint _ s) as [[n [t' rest]]|] eqn:He.
  - intros H. injection H as <- <- <-.
    apply match_endpoint_sound in He as [Hin Hs].
    exists ("/" ++ n), rest. split; [right; now exists n|]. now split.
  - destruct (match_type s) as [[t' rest]|] eqn:Ht; [|discriminate].
    intros H. injection H as <- <- <-.
    apply match_type_sound in Ht.
    exists "", rest. split; [now left|]. now split.
Qed.

Lemma match_rest_complete (ep : string) (m2 : option string) (t : TopicType)
      (tail : string) :
  endpoint_segment names ep m2 ->
  match_rest names (ep ++ segment t ++ tail) <> None.
Proof.
  unfold match_rest. intros [[-> _] | (n & Hin & -> & _)].
  - destruct (match_endpoint _ _) as [[n [t' r]]|]; [discriminate|].
    simpl. now rewrite match_type_complete.
  - pose proof (match_endpoint_complete _ n t tail Hin) as H.
    destruct (match_endpoint _ _) as [[n' [t' r]]|]; [discriminate | easy].
Qed.

(** The search finds what the pattern says, and finds something whenever
    the topic has the shape. *)
Lemma match_from_sound (s g1 : string) (m2 : option string) (t : TopicType)
      (m4 : option string) :
  match_from names s = Some (g1, (m2, t, m4)) ->
  exists ep tail,
    g1 <> "" /\ no_line_terminator g1 = true /\
    endpoint_segment names ep m2 /\
    s = g1 ++ ep ++ segment t ++ tail /\ m4 = match_attribute tail.
Proof.
  revert g1. induction s as [|c s IH]; simpl; intros g1; [discriminate|].
  destruct (Str.is_line_terminator c) eqn:Hc; [discriminate|].
  destruct (match_rest names s) as [[[m2' t'] m4']|] eqn:Hr.
  - intros H. injection H as <- <- <- <-.
    destruct (match_rest_sound _ _ _ _ Hr) as (ep & tail & Hep & -> & Hm).
    exists ep, tail. repeat split; auto; [easy | simpl; now rewrite Hc].
  - destruct (match_from names s) as [[g r]|] eqn:Hf; [|discriminate].
    intros H. injection H as <- ->.
    destruct (IH _ eq_refl) as (ep & tail & Hg & Hn & Hep & -> & Hm).
    exists ep, tail. repeat split; auto; [easy | simpl; now rewrite Hc, Hn].
Qed.






End TopicRegexFacts.


Local Open Scope string_scope.
Local Open Scope list_scope.

(** ** The engine's sort under a comparison function of one operand *)

Module V8Facts.
Section OneOperand.
Context {A : Type}.
Variable comparefn : A -> A -> Z.
Variable r : A -> Z.
Hypothesis one_operand : forall a b, comparefn a b = r a.

Local Abbreviation neg := (V8.smaller r).

Lemma search_neg (fuel : nat) (pivot : A) (work : list A) (left right : nat) :
  neg pivot = true -> V8.search comparefn fuel pivot work left right = left.
Proof.
  intros Hn. revert right.
  induction fuel as [|fuel IH]; intros right; cbn [V8.search]; [reflexivity|].
  destruct (left <? right)%nat; [|reflexivity].
  rewrite one_operand. unfold V8.smaller in Hn. rewrite Hn. apply IH.
Qed.

Lemma search_nonneg (fuel : nat) (pivot : A) (work : list A) (left right : nat) :
  neg pivot = false -> (left <= right)%nat -> (right - left <= fuel)%nat ->
  V8.search comparefn fuel pivot work left right = right.
Proof.
  intros Hn. revert left.
  induction fuel as [|fuel IH]; intros left Hle Hf; cbn [V8.search]; [lia|].
  destruct (left <? right)%nat eqn:Hlt.
  - apply Nat.ltb_lt in Hlt.
    rewrite one_operand. unfold V8.smaller in Hn. rewrite Hn.
    assert (Hd : (Nat.div2 (right - left) < right - left)%nat)
      by (apply Nat.lt_div2; lia).
    generalize dependent (Nat.div2 (right - left)). intros d Hd.
    apply IH; lia.
  - apply Nat.ltb_ge in Hlt. lia.
Qed.

Lemma insert_pivot_one_operand (work : list A) (pivot : A) :
  V8.insert_pivot comparefn work pivot =
  if neg pivot then pivot :: work else work ++ [pivot].
Proof.
  unfold V8.insert_pivot. destruct (neg pivot) eqn:Hn.
  - now rewrite search_neg.
  - rewrite search_nonneg by (auto; lia).
    now rewrite firstn_all, skipn_all.
Qed.

Lemma BinaryInsertionSort_one_operand (rest run : list A) :
  V8.BinaryInsertionSort comparefn run rest =
  rev (filter neg rest) ++ run ++ filter (fun a => negb (neg a)) rest.
Proof.
  unfold V8.BinaryInsertionSort. revert run.
  induction rest as [|a rest IH]; intros run; simpl.
  - now rewrite app_nil_r.
  - rewrite IH, insert_pivot_one_operand.
    destruct (neg a); simpl.
    + now rewrite <- app_assoc.
    + now rewrite <- app_assoc.
Qed.

Lemma run_rest_split (isDescending : bool) (previous : A) (l run rest : list A) :
  V8.run_rest comparefn isDescending previous l = (run, rest) ->
  l = run ++ rest /\ Forall (fun a => neg a = isDescending) run.
Proof.
  revert previous run rest.
  induction l as [|a l IH]; intros previous run rest; simpl.
  - intros H. now injection H as <- <-.
  - rewrite one_operand.
    destruct (if isDescending then (0 <=? r a)%Z else (r a <? 0)%Z) eqn:Hc.
    + intros H. now injection H as <- <-.
    + destruct (V8.run_rest comparefn isDescending a l) as [run' rest'] eqn:Hr.
      intros H. injection H as <- <-.
      destruct (IH _ _ _ Hr) as [-> Hall]. split; [reflexivity|].
      constructor; [|exact Hall]. unfold V8.smaller.
      destruct isDescending; [|exact Hc].
      apply Z.leb_gt in Hc. now apply Z.ltb_lt.
Qed.

Lemma filter_all (p : A -> bool) (l : list A) :
  Forall (fun a => p a = true) l -> filter p l = l.
Proof.
  induction 1 as [|a l Ha _ IH]; simpl; [reflexivity|]. now rewrite Ha, IH.
Qed.

Lemma filter_none (p : A -> bool) (l : list A) :
  Forall (fun a => p a = false) l -> filter p l = [].
Proof.
  induction 1 as [|a l Ha _ IH]; simpl; [reflexivity|]. now rewrite Ha, IH.
Qed.

(** What V8 makes of an array under a comparison function that only
    looks at its first operand: the elements it calls negative come
    first, last one first; the others follow in the order they had. *)
Theorem sort_one_operand (l : list A) :
  V8.sort comparefn l =
  rev (filter neg l) ++ filter (fun a => negb (neg a)) l.
Proof.
  unfold V8.sort, V8.CountAndMakeRun.
  destruct l as [|a0 [|a1 l]].
  - reflexivity.
  - rewrite BinaryInsertionSort_one_operand. simpl. now destruct (neg a0).
  - rewrite one_operand. fold (V8.smaller r a1).
    destruct (V8.run_rest comparefn (neg a1) a1 l) as [run rest] eqn:Hr.
    apply run_rest_split in Hr as [-> Hall].
    rewrite BinaryInsertionSort_one_operand.
    destruct (neg a1) eqn:H1.
    + assert (Hf : filter neg run = run).
      { apply filter_all. exact Hall. }
      assert (Hg : filter (fun a => negb (neg a)) run = []).
      { apply filter_none. revert Hall. apply Forall_impl. now intros a ->. }
      cbn [filter]. rewrite H1. cbn [negb].
      rewrite !filter_app, Hf, Hg.
      destruct (neg a0); cbn [negb rev app];
        rewrite ?rev_app_distr; cbn [rev app];
        rewrite <- ?app_assoc; cbn [app]; rewrite <- ?app_assoc; reflexivity.
    + assert (Hf : filter neg run = []).
      { apply filter_none. exact Hall. }
      assert (Hg : filter (fun a => negb (neg a)) run = run).
      { apply filter_all. revert Hall. apply Forall_impl. now intros a ->. }
      cbn [filter]. rewrite H1. cbn [negb].
      rewrite !filter_app, Hf, Hg.
      destruct (neg a0); cbn [negb rev app];
        rewrite <- ?app_assoc; cbn [app]; rewrite <- ?app_assoc; reflexivity.
Qed.

End OneOperand.
End V8Facts.

(** ** The order of the attributes *)

Section Ordering.

Lemma Permutation_partition {A : Type} (p : A -> bool) (l : list A) :
  Permutation l (filter p l ++ filter (fun a => negb (p a)) l).
Proof.
  induction l as [|a l IH]; simpl; [constructor|].
  destruct (p a); simpl.
  - now constructor.
  - now apply Permutation_cons_app.
Qed.

Lemma filter_filter {A : Type} (p q : A -> bool) (l : list A) :
  filter p (filter q l) = filter (fun a => p a && q a) l.
Proof.
  induction l as [|a l IH]; simpl; [reflexivity|].
  destruct (q a); simpl; rewrite ?andb_true_r, ?andb_false_r;
    [destruct (p a)|]; now rewrite IH.
Qed.

Lemma filter_empty {A : Type} (p : A -> bool) (l : list A) :
  (forall a, In a l -> p a = false) -> filter p l = [].
Proof.
  induction l as [|a l IH]; simpl; intros H; [reflexivity|].
  rewrite (H a) by now left. apply IH. intros b Hb. apply H. now right.
Qed.

Lemma StronglySorted_app {A : Type} (R : A -> A -> Prop) (l1 l2 : list A) :
  StronglySorted R l1 -> StronglySorted R l2 ->
  (forall a b, In a l1 -> In b l2 -> R a b) ->
  StronglySorted R (l1 ++ l2).
Proof.
  induction 1 as [|a l1 Hs IH Ha]; intros H2 H12; simpl; [exact H2|].
  constructor.
  - apply IH; [exact H2|]. intros x y Hx Hy. apply H12; [now right | exact Hy].
  - apply Forall_app. split; [exact Ha|].
    apply Forall_forall. intros y Hy. apply H12; [now left | exact Hy].
Qed.

Lemma StronglySorted_same {A : Type} (R : A -> A -> Prop) (l : list A) :
  (forall a b, In a l -> In b l -> R a b) -> StronglySorted R l.
Proof.
  induction l as [|a l IH]; intros H; constructor.
  - apply IH. intros x y Hx Hy. apply H; now right.
  - apply Forall_forall. intros y Hy. apply H; [now left | now right].
Qed.

Variable sorter : Z.
Hypothesis sorter_values : sorter = 1%Z \/ sorter = (-1)%Z.

Local Abbreviation rk := (rank sorter).

Lemma compare_entries_rank (a b : entry) : compare_entries sorter a b = rk a.
Proof.
  unfold compare_entries, rank. destruct (string_in _ _); [reflexivity|].
  lia.
Qed.

Lemma rank_values (a : entry) : rk a = 1%Z \/ rk a = (-1)%Z.
Proof.
  unfold rank. destruct (string_in _ _); destruct sorter_values; lia.
Qed.

(** For two ranks the stable sort is: the entries of rank -1 in their
    order, then the entries of rank 1 in theirs. *)
Lemma insert_by_rank_low (x : entry) (l : list entry) :
  rk x = (-1)%Z -> insert_by_rank rk x l = x :: l.
Proof.
  intros Hx. destruct l as [|y l]; simpl; [reflexivity|].
  destruct (rank_values y) as [Hy | Hy]; rewrite Hx, Hy; reflexivity.
Qed.

Lemma insert_by_rank_high (x : entry) (l1 l2 : list entry) :
  rk x = 1%Z -> Forall (fun y => rk y = (-1)%Z) l1 ->
  Forall (fun y => rk y = 1%Z) l2 ->
  insert_by_rank rk x (l1 ++ l2) = l1 ++ x :: l2.
Proof.
  intros Hx H1 H2. induction H1 as [|y l1 Hy _ IH]; simpl.
  - destruct H2 as [|y l2 Hy _]; simpl; [reflexivity|]. now rewrite Hx, Hy.
  - rewrite Hx, Hy. simpl. now rewrite IH.
Qed.

Lemma stable_by_rank_two_ranks (l : list entry) :
  stable_by_rank rk l =
  filter (fun a => (rk a =? -1)%Z) l ++ filter (fun a => (rk a =? 1)%Z) l.
Proof.
  unfold stable_by_rank.
  induction l as [|a l IH]; simpl; [reflexivity|].
  rewrite IH.
  destruct (rank_values a) as [Ha | Ha]; rewrite Ha; simpl.
  - apply insert_by_rank_high; [exact Ha | |];
      apply Forall_forall; intros y Hy; apply filter_In in Hy as [_ Hy];
      now apply Z.eqb_eq in Hy.
  - now apply insert_by_rank_low.
Qed.

(** What V8 makes of the entries under the comparison function of the
    handler. *)
Lemma V8_sort_compare_entries (l : list entry) :
  V8.sort (compare_entries sorter) l =
  rev (filter (fun a => (rk a =? -1)%Z) l) ++ filter (fun a => (rk a =? 1)%Z) l.
Proof.
  rewrite (V8Facts.sort_one_operand _ rk compare_entries_rank).
  f_equal; [f_equal|]; apply filter_ext; intros a; unfold V8.smaller;
    destruct (rank_values a) as [-> | ->]; reflexivity.
Qed.

End Ordering.

Lemma sorter_of_values (json : JsVal) :
  sorter_of json = 1%Z \/ sorter_of json = (-1)%Z.
Proof.
  unfold sorter_of. destruct (prop json "state"); auto.
  destruct (String.eqb _ _); auto.
Qed.

(** C4 (amended). Under V8, for a map of fewer than 64 entries, the
    ordered entries are a permutation of the entries of the map in
    ascending rank: the entries of rank -1 come first and those of rank 1
    after them.  The entries of rank 1 keep their relative order; those of
    rank -1 come out in the reverse of theirs.  So the order is the stable
    one of the specification whenever at most one entry has rank -1. *)
Theorem ordered_entries_V8 (W : Type) (E : Env W) (json : JsVal) :
  (forall comparefn l, Array_sort E comparefn l = V8.sort comparefn l) ->
  (List.length (Object_entries json) < 64)%nat ->
  let rk := rank (sorter_of json) in
  let entries := Object_entries json in
  let out := ordered_entries E json in
  Permutation entries out
  /\ StronglySorted (fun a b => (rk a <= rk b)%Z) out
  /\ filter (fun a => (rk a =? 1)%Z) out = filter (fun a => (rk a =? 1)%Z) entries
  /\ filter (fun a => (rk a =? -1)%Z) out
     = rev (filter (fun a => (rk a =? -1)%Z) entries)
  /\ ((List.length (filter (fun a => (rk a =? -1)%Z) entries) <= 1)%nat ->
      out = Attribute_Orderer_spec json).
Proof.
  intros Hsort _ rk entries out.
  pose proof (sorter_of_values json) as Hv.
  assert (Hout : out = rev (filter (fun a => (rk a =? -1)%Z) entries)
                       ++ filter (fun a => (rk a =? 1)%Z) entries).
  { unfold out, ordered_entries. rewrite Hsort.
    now apply V8_sort_compare_entries. }
  assert (Hneg : forall a, (rk a =? 1)%Z = negb (rk a =? -1)%Z).
  { intros a. destruct (rank_values _ Hv a) as [H | H];
      unfold rk; rewrite H; reflexivity. }
  assert (Hlow : forall a l, In a (filter (fun a => (rk a =? -1)%Z) l) ->
                             rk a = (-1)%Z).
  { intros a l Ha. apply filter_In in Ha as [_ Ha]. now apply Z.eqb_eq. }
  assert (Hhigh : forall a l, In a (filter (fun a => (rk a =? 1)%Z) l) ->
                              rk a = 1%Z).
  { intros a l Ha. apply filter_In in Ha as [_ Ha]. now apply Z.eqb_eq. }
  rewrite Hout. repeat split.
  - etransitivity; [apply (Permutation_partition (fun a => (rk a =? -1)%Z))|].
    apply Permutation_app; [apply Permutation_rev|].
    erewrite filter_ext; [reflexivity|]. intros a. symmetry. apply Hneg.
  - apply StronglySorted_app.
    + apply StronglySorted_same. intros a b Ha Hb.
      apply in_rev in Ha, Hb. rewrite (Hlow _ _ Ha), (Hlow _ _ Hb). lia.
    + apply StronglySorted_same. intros a b Ha Hb.
      rewrite (Hhigh _ _ Ha), (Hhigh _ _ Hb). lia.
    + intros a b Ha Hb. apply in_rev in Ha.
      rewrite (Hlow _ _ Ha), (Hhigh _ _ Hb). lia.
  - rewrite filter_app, filter_filter.
    rewrite (filter_empty (fun a => (rk a =? 1)%Z)).
    + simpl. apply filter_ext. intros a. now rewrite andb_diag.
    + intros a Ha. apply in_rev in Ha. now rewrite Hneg, (Hlow _ _ Ha).
  - rewrite filter_app.
    rewrite (filter_empty _ (filter _ entries)).
    + rewrite app_nil_r, <- filter_rev, filter_filter.
      erewrite filter_ext; [reflexivity|]. intros a. apply andb_diag.
    + intros a Ha. now rewrite (Hhigh _ _ Ha).
  - intros Hlen. unfold Attribute_Orderer_spec. fold rk entries.
    rewrite (stable_by_rank_two_ranks _ Hv).
    change (rev (filter (fun a => (rk a =? -1)%Z) entries)
              ++ filter (fun a => (rk a =? 1)%Z) entries
            = filter (fun a => (rk a =? -1)%Z) entries
              ++ filter (fun a => (rk a =? 1)%Z) entries).
    destruct (filter (fun a => (rk a =? -1)%Z) entries) as [|a [|b l]];
      [reflexivity | reflexivity | simpl in Hlen; lia].
Qed.

(** ** Objects *)

Module ObjFacts.
Section WithValue.
Context {A : Type}.
Implicit Types (o p : Obj.t A) (k : string) (v : A).

Lemma get_In_keys k o : Obj.get k o <> None <-> In k (Obj.keys o).
Proof.
  induction o as [|[k' v'] o IH]; simpl; [easy|].
  destruct (String.eqb_spec k k') as [-> | Hne].
  - split; [now left | discriminate].
  - rewrite IH. split; [now right | intros [H | H]; [congruence | exact H]].
Qed.

Lemma has_In_keys k o : Obj.has k o = true <-> In k (Obj.keys o).
Proof.
  rewrite <- get_In_keys. unfold Obj.has.
  destruct (Obj.get k o); split; congruence.
Qed.

Lemma has_false k o : Obj.has k o = false <-> ~ In k (Obj.keys o).
Proof.
  rewrite <- has_In_keys. destruct (Obj.has k o); split; congruence.
Qed.

Lemma get_None k o : Obj.get k o = None <-> ~ In k (Obj.keys o).
Proof.
  rewrite <- get_In_keys. destruct (Obj.get k o); split; try congruence.
  intros H. now contradiction H.
Qed.

(** *** [replace] *)

Lemma keys_replace k v o : Obj.keys (Obj.replace k v o) = Obj.keys o.
Proof.
  induction o as [|[k' v'] o IH]; simpl; [reflexivity|].
  destruct (String.eqb k k'); simpl; [reflexivity | now rewrite IH].
Qed.

Lemma get_replace k v o k' :
  Obj.get k' (Obj.replace k v o) =
  if String.eqb k' k then (if Obj.has k o then Some v else None)
  else Obj.get k' o.
Proof.
  unfold Obj.has.
  induction o as [|[k0 v0] o IH]; simpl.
  - now destruct (String.eqb k' k).
  - destruct (String.eqb_spec k k0) as [-> | Hne]; simpl.
    + now destruct (String.eqb k' k0).
    + rewrite IH. destruct (String.eqb_spec k' k) as [Heq | Hne'].
      * subst k'. destruct (String.eqb_spec k k0); [easy | reflexivity].
      * reflexivity.
Qed.

(** *** [insert_index] *)

Lemma keys_insert_index n k v o k' :
  In k' (Obj.keys (Obj.insert_index n k v o)) <-> k' = k \/ In k' (Obj.keys o).
Proof.
  induction o as [|[k0 v0] o IH]; simpl; [intuition|].
  destruct (Str.array_index k0) as [n'|]; [destruct (n' <? n)%N|]; simpl;
    rewrite ?IH; intuition.
Qed.

Lemma get_insert_index n k v o k' :
  ~ In k (Obj.keys o) ->
  Obj.get k' (Obj.insert_index n k v o) =
  if String.eqb k' k then Some v else Obj.get k' o.
Proof.
  induction o as [|[k0 v0] o IH]; simpl; intros Hn; [reflexivity|].
  assert (Hk : k0 <> k) by intuition.
  destruct (Str.array_index k0) as [n'|]; [destruct (n' <? n)%N|]; simpl;
    try reflexivity.
  rewrite IH by intuition.
  destruct (String.eqb_spec k' k0) as [-> | H0]; [|reflexivity].
  destruct (String.eqb_spec k0 k); [easy | reflexivity].
Qed.

Lemma NoDup_insert_index n k v o :
  ~ In k (Obj.keys o) -> NoDup (Obj.keys o) ->
  NoDup (Obj.keys (Obj.insert_index n k v o)).
Proof.
  induction o as [|[k0 v0] o IH]; simpl; intros Hn Hd.
  - constructor; [easy | constructor].
  - destruct (Str.array_index k0) as [n'|]; [destruct (n' <? n)%N|]; simpl;
      try (constructor; [simpl; intuition | exact Hd]).
    inversion Hd as [|? ? H0 Hd']; subst. constructor.
    + rewrite keys_insert_index. intuition.
    + apply IH; intuition.
Qed.

(** *** appending *)

Lemma get_app k o p :
  Obj.get k (o ++ p) =
  match Obj.get k o with Some v => Some v | None => Obj.get k p end.
Proof.
  induction o as [|[k0 v0] o IH]; simpl; [reflexivity|].
  now destruct (String.eqb k k0).
Qed.

(** *** [set] *)

Theorem get_set k v o k' :
  Obj.get k' (Obj.set k v o) =
  if String.eqb k' k then Some v else Obj.get k' o.
Proof.
  unfold Obj.set. destruct (Obj.has k o) eqn:Hh.
  - rewrite get_replace, Hh. reflexivity.
  - apply has_false in Hh. destruct (Str.array_index k) as [n|].
    + now apply get_insert_index.
    + rewrite get_app. simpl.
      destruct (String.eqb_spec k' k) as [-> | Hne].
      * apply get_None in Hh. now rewrite Hh.
      * now destruct (Obj.get k' o).
Qed.

Lemma get_set_same k v o : Obj.get k (Obj.set k v o) = Some v.
Proof. now rewrite get_set, String.eqb_refl. Qed.

Lemma get_set_other k v o k' :
  k' <> k -> Obj.get k' (Obj.set k v o) = Obj.get k' o.
Proof. intros H. rewrite get_set. now apply String.eqb_neq in H as ->. Qed.

Theorem keys_set k v o k' :
  In k' (Obj.keys (Obj.set k v o)) <-> k' = k \/ In k' (Obj.keys o).
Proof.
  rewrite <- !get_In_keys, get_set.
  destruct (String.eqb_spec k' k) as [-> | Hne]; split; intuition congruence.
Qed.

Lemma has_set k v o k' :
  Obj.has k' (Obj.set k v o) = (String.eqb k' k || Obj.has k' o)%bool.
Proof.
  unfold Obj.has. rewrite get_set. now destruct (String.eqb k' k).
Qed.

Theorem NoDup_set k v o :
  NoDup (Obj.keys o) -> NoDup (Obj.keys (Obj.set k v o)).
Proof.
  intros Hd. unfold Obj.set. destruct (Obj.has k o) eqn:Hh.
  - now rewrite keys_replace.
  - apply has_false in Hh. destruct (Str.array_index k) as [n|].
    + now apply NoDup_insert_index.
    + unfold Obj.keys. rewrite map_app. simpl.
      apply NoDup_app; [exact Hd | constructor; [easy | constructor] |].
      intros x Hx [<- | []]. contradiction.
Qed.

Lemma set_not_empty k v o : Obj.set k v o <> [].
Proof.
  intros H. pose proof (get_set_same k v o) as Hg. now rewrite H in Hg.
Qed.

Lemma set_append k v o :
  ~ In k (Obj.keys o) -> Str.array_index k = None ->
  Obj.set k v o = o ++ [(k, v)].
Proof.
  intros Hn Hi. apply has_false in Hn. unfold Obj.set. now rewrite Hn, Hi.
Qed.

(** *** [delete] *)

Theorem keys_delete k o k' :
  In k' (Obj.keys (Obj.delete k o)) <-> k' <> k /\ In k' (Obj.keys o).
Proof.
  induction o as [|[k0 v0] o IH]; simpl; [intuition|].
  destruct (String.eqb_spec k k0) as [-> | Hne]; simpl; rewrite IH.
  - intuition congruence.
  - intuition congruence.
Qed.

Lemma get_delete k o k' :
  Obj.get k' (Obj.delete k o) =
  if String.eqb k' k then None else Obj.get k' o.
Proof.
  induction o as [|[k0 v0] o IH]; simpl.
  - now destruct (String.eqb k' k).
  - destruct (String.eqb_spec k k0) as [-> | Hne]; simpl; rewrite IH.
    + now destruct (String.eqb_spec k' k0).
    + destruct (String.eqb_spec k' k) as [Heq | Hne'].
      * subst k'. destruct (String.eqb_spec k k0); [easy | reflexivity].
      * reflexivity.
Qed.

Lemma delete_absent k o : ~ In k (Obj.keys o) -> Obj.delete k o = o.
Proof.
  induction o as [|[k0 v0] o IH]; simpl; intros Hn; [reflexivity|].
  destruct (String.eqb_spec k k0) as [-> | Hne]; [intuition|].
  rewrite IH; intuition.
Qed.

Lemma NoDup_delete k o :
  NoDup (Obj.keys o) -> NoDup (Obj.keys (Obj.delete k o)).
Proof.
  induction o as [|[k0 v0] o IH]; simpl; intros Hd; [constructor|].
  inversion Hd as [|? ? H0 Hd']; subst.
  destruct (String.eqb k k0); simpl; [now apply IH|].
  constructor; [|now apply IH]. rewrite keys_delete. intuition.
Qed.

(** *** [merge] *)

Lemma merge_cons o k v p :
  Obj.merge o ((k, v) :: p) = Obj.merge (Obj.set k v o) p.
Proof. reflexivity. Qed.

Lemma merge_not_empty_l o p : o <> [] -> Obj.merge o p <> [].
Proof.
  revert o. induction p as [|[k v] p IH]; intros o Ho; simpl; [exact Ho|].
  apply IH, set_not_empty.
Qed.

Lemma merge_not_empty_r o p : p <> [] -> Obj.merge o p <> [].
Proof.
  destruct p as [|[k v] p]; [easy|]. intros _.
  rewrite merge_cons. apply merge_not_empty_l, set_not_empty.
Qed.

Lemma NoDup_merge o p :
  NoDup (Obj.keys o) -> NoDup (Obj.keys (Obj.merge o p)).
Proof.
  revert o. induction p as [|[k v] p IH]; intros o Ho; simpl; [exact Ho|].
  apply IH, NoDup_set, Ho.
Qed.

End WithValue.
End ObjFacts.

(** ** The loop body, path by path *)

(** The definitions of the handler by their own names, for the sections
    below, where the names stand for their applications to the message at
    hand. *)
Ltac unfold_loop_body := unfold loop_body, dispatch.
Ltac unfold_catch := unfold catch_block, catch_events.
Ltac unfold_announce := unfold announce_set, announce_get.
Ltac step_for_of := cbn [for_of].

Section Steps.

Variable W : Type.
Variable E : Env W.
Variable topic : Topic.
Variable resolvedEntity : ResolvedEntity.
Variable details : Details.
Variable json : JsVal.
Variable entityState : JsObj.

Local Abbreviation loop_body := (loop_body E topic resolvedEntity details json entityState).
Local Abbreviation for_of := (for_of E topic resolvedEntity details json entityState).
Local Abbreviation Step := (Step E topic resolvedEntity details json entityState).
Local Abbreviation route := (route E topic resolvedEntity details).
Local Abbreviation meta_of := (meta_of details json entityState).
Local Abbreviation catch_block := (catch_block E topic resolvedEntity).
Local Abbreviation after_convertSet := (after_convertSet resolvedEntity details).
Local Abbreviation announce_set := (announce_set resolvedEntity).
Local Abbreviation announce_get := (announce_get resolvedEntity).
Local Abbreviation find_converter := (find_converter E (converters details)).

Lemma world_ensure_used (id : string) (st : LoopState W) :
  world (ensure_used id st) = world st.
Proof. unfold ensure_used. now destruct (Obj.has _ _). Qed.

Lemma trace_ensure_used (id : string) (st : LoopState W) :
  trace (ensure_used id st) = trace st.
Proof. unfold ensure_used. now destruct (Obj.has _ _). Qed.

Lemma toPublish_ensure_used (id : string) (st : LoopState W) :
  toPublish (ensure_used id st) = toPublish st.
Proof. unfold ensure_used. now destruct (Obj.has _ _). Qed.

(** The body of [catch] ends normally, or throws at line 282. *)
Lemma catch_block_caught (k : string) (error : JsError) (st : LoopState W) :
  is_nullish error = false ->
  catch_block k error st = (Normal, snd (catch_block k error st)).
Proof. intros H. unfold_catch. now rewrite H. Qed.

Lemma catch_block_nullish (k : string) (error : JsError) (st : LoopState W) :
  is_nullish error = true ->
  catch_block k error st
  = (Throw (TypeError_at 282), snd (catch_block k error st)).
Proof. intros H. unfold_catch. now rewrite H. Qed.

(** Whatever the entry and the state, the body takes one of the paths. *)
Lemma loop_body_Step (kv : entry) (st : LoopState W) :
  Step kv st (fst (loop_body kv st)) (snd (loop_body kv st)).
Proof.
  unfold_loop_body.
  destruct (route (fst kv)) as [e | n | ep id tgt k] eqn:Hr.
  - now apply step_throws.
  - now apply step_no_endpoint.
  - destruct (is_set (type topic)
              && includes_converter (used_at id (ensure_used id st))
                   (find_converter k)) eqn:Hskip.
    + apply andb_true_iff in Hskip as [Hset Hinc].
      eapply step_skipped; eauto. now destruct (type topic).
    + destruct (find_converter k) as [c|] eqn:Hc.
      * unfold try_block.
        destruct (type topic) eqn:Ht.
        -- destruct (convertGet (converter_at E c)) as [f|] eqn:Hf.
           ++ assert (Hw : world (announce_get c id tgt k (meta_of ep)
                                    (ensure_used id st)) = world st)
                by apply world_ensure_used.
              destruct (convertSet (converter_at E c)).
              all: cbv zeta; rewrite Hw.
              all: destruct (f tgt k _ (world st)) as [[u | error] w] eqn:Hcall.
              all: cbn [try_catch fst snd].
              all: try (eapply step_get_returned;
                        [exact Hr | exact Hc | exact Ht | exact Hf | exact Hcall]).
              all: destruct (is_nullish error) eqn:Hn;
                [ rewrite (catch_block_nullish _ _ _ Hn); cbn [fst snd];
                  eapply step_get_thrown_nullish;
                  [exact Hr | exact Hc | exact Ht | exact Hf | exact Hcall
                   | exact Hn]
                | rewrite (catch_block_caught _ _ _ Hn); cbn [fst snd];
                  eapply step_get_thrown;
                  [exact Hr | exact Hc | exact Ht | exact Hf | exact Hcall
                   | exact Hn] ].
           ++ destruct (convertSet (converter_at E c)); cbn [try_catch fst snd];
                rewrite <- Ht;
                eapply step_no_operation; eauto; now rewrite Ht.
        -- destruct (convertSet (converter_at E c)) as [f|] eqn:Hf.
           ++ assert (Hw : world (announce_set c id tgt k (snd kv) (meta_of ep)
                                    (ensure_used id st)) = world st)
                by apply world_ensure_used.
              rewrite Hw. simpl in Hskip.
              destruct (f tgt k (snd kv) _ (world st)) as [[result | error] w] eqn:Hcall;
                cbn [try_catch fst snd].
              ** eapply step_set_returned;
                   [exact Hr | exact Hc | exact Ht | exact Hskip | exact Hf | exact Hcall].
              ** destruct (is_nullish error) eqn:Hn.
                 --- rewrite (catch_block_nullish _ _ _ Hn). cbn [fst snd].
                     eapply step_set_thrown_nullish;
                       [exact Hr | exact Hc | exact Ht | exact Hskip | exact Hf
                        | exact Hcall | exact Hn].
                 --- rewrite (catch_block_caught _ _ _ Hn). cbn [fst snd].
                     eapply step_set_thrown;
                       [exact Hr | exact Hc | exact Ht | exact Hskip | exact Hf
                        | exact Hcall | exact Hn].
           ++ cbn [try_catch fst snd]. rewrite <- Ht.
              eapply step_no_operation; eauto. now rewrite Ht.
      * now eapply step_no_converter; eauto.
Qed.

End Steps.

(** ** What each piece of the body changes *)

Section Frames.

Variable W : Type.
Variable E : Env W.
Implicit Types (st : LoopState W) (id ID : string) (ev : Event).

Lemma includes_converter_In (l : list (option ref)) (c : option ref) :
  includes_converter l c = true <-> In c l.
Proof.
  unfold includes_converter. rewrite existsb_exists. split.
  - intros [x [Hx He]]. destruct c as [c|], x as [x|]; simpl in He;
      try discriminate; [apply Nat.eqb_eq in He; now subst | exact Hx].
  - intros H. exists c. split; [exact H|].
    destruct c; simpl; [apply Nat.eqb_refl | reflexivity].
Qed.

(** *** [usedConverters] *)

Lemma used_at_ensure_used id id' st :
  used_at id' (ensure_used id st) = used_at id' st.
Proof.
  unfold ensure_used. destruct (Obj.has id (usedConverters st)) eqn:Hh;
    [reflexivity|].
  unfold used_at. cbn [usedConverters with_used].
  rewrite ObjFacts.get_set. destruct (String.eqb_spec id' id) as [-> | Hne];
    [|reflexivity].
  unfold Obj.has in Hh. now destruct (Obj.get id (usedConverters st)).
Qed.

Lemma used_at_push_used id c id' st :
  used_at id' (push_used id c st) =
  if String.eqb id' id then used_at id st ++ [Some c] else used_at id' st.
Proof.
  unfold push_used, used_at at 1. cbn [usedConverters with_used].
  rewrite ObjFacts.get_set. now destruct (String.eqb id' id).
Qed.

Lemma used_at_push_used_incl id c id' st (x : option ref) :
  In x (used_at id' st) -> In x (used_at id' (push_used id c st)).
Proof.
  rewrite used_at_push_used. destruct (String.eqb_spec id' id) as [-> | Hne];
    [|easy]. intros H. apply in_or_app. now left.
Qed.

(** *** [addToToPublish] *)

Lemma get_addToToPublish ID payload st id :
  Obj.get id (toPublish (addToToPublish ID payload st)) =
  if String.eqb id ID
  then Some (Obj.merge (match Obj.get ID (toPublish st) with
                        | Some o => o
                        | None => Obj.empty
                        end) payload)
  else Obj.get id (toPublish st).
Proof.
  unfold addToToPublish. cbn [toPublish].
  rewrite ObjFacts.get_set. destruct (String.eqb_spec id ID) as [-> | Hne].
  - destruct (Obj.has ID (toPublish st)) eqn:Hh; [reflexivity|].
    rewrite ObjFacts.get_set_same.
    unfold Obj.has in Hh. now destruct (Obj.get ID (toPublish st)).
  - destruct (Obj.has ID (toPublish st)); [reflexivity|].
    now rewrite ObjFacts.get_set_other.
Qed.

Lemma NoDup_addToToPublish ID payload st :
  NoDup (Obj.keys (toPublish st)) ->
  NoDup (Obj.keys (toPublish (addToToPublish ID payload st))).
Proof.
  intros H. unfold addToToPublish. cbn [toPublish].
  apply ObjFacts.NoDup_set. destruct (Obj.has ID (toPublish st)); [exact H|].
  now apply ObjFacts.NoDup_set.
Qed.

Lemma trace_addToToPublish ID payload st :
  trace (addToToPublish ID payload st) = trace st ++ [accumulated ID payload].
Proof. reflexivity. Qed.

Lemma used_addToToPublish ID payload st :
  usedConverters (addToToPublish ID payload st) = usedConverters st.
Proof. reflexivity. Qed.

Lemma world_addToToPublish ID payload st :
  world (addToToPublish ID payload st) = world st.
Proof. reflexivity. Qed.

End Frames.

(** ** The handling of a result *)

Section Results.

Variable W : Type.
Variable E : Env W.
Variable resolvedEntity : ResolvedEntity.
Variable details : Details.

Lemma Accumulates_weaken (Q Q' : string -> JsObj -> Prop) (st st' : LoopState W) :
  (forall ID payload, Q ID payload -> Q' ID payload) ->
  Accumulates Q st st' -> Accumulates Q' st st'.
Proof.
  intros HQ. induction 1; [constructor | constructor; auto | now constructor].
Qed.

Lemma Accumulates_members (Q : string -> JsObj -> Prop) (ms : Obj.t JsObj)
      (st st' : LoopState W) :
  (forall kv, In kv ms -> Q (fst kv) (snd kv)) ->
  Accumulates Q st st' ->
  Accumulates Q st
    (fold_left (fun st kv => addToToPublish (fst kv) (snd kv) st) ms st').
Proof.
  revert st'. induction ms as [|kv ms IH]; intros st' HQ Hacc; simpl;
    [exact Hacc|].
  apply IH; [intros kv' Hin; apply HQ; now right|].
  constructor; [exact Hacc | apply HQ; now left].
Qed.

Lemma after_convertSet_Accumulates (c : ref) (ep : string) (tgt : Target)
      (k : string) (meta : Meta) (result : option Result) (st : LoopState W) :
  Accumulates (accumulable resolvedEntity result) st
    (after_convertSet resolvedEntity details c ep tgt k meta result st).
Proof.
  unfold after_convertSet.
  set (st1 := match result with
              | Some {| result_state := Some msg |} => _
              | _ => st
              end).
  assert (H1 : Accumulates (accumulable resolvedEntity result) st st1).
  { unfold st1. destruct result as [[[msg|] ms rt]|]; try constructor.
    destruct (is_optimistic _); [|constructor].
    destruct (negb _) eqn:Hne; [|constructor].
    constructor; [constructor|]. left. split; [reflexivity|].
    intros Hmsg. rewrite Hmsg in Hne. discriminate. }
  clearbody st1.
  set (st2 := match result with
              | Some {| result_membersState := Some ms |} => _
              | _ => st1
              end).
  assert (H2 : Accumulates (accumulable resolvedEntity result) st st2).
  { unfold st2. destruct result as [[msg [ms|] rt]|]; try exact H1.
    destruct (is_optimistic _); [|exact H1].
    apply Accumulates_members; [|exact H1].
    intros [id p] Hin. right. now exists {| result_state := msg;
      result_membersState := Some ms; readAfterWriteTime := rt |}, ms. }
  clearbody st2.
  destruct result as [[msg ms [delay|]]|]; try exact H2.
  destruct (_ && _); [now constructor | exact H2].
Qed.

(** What accumulating leaves alone. *)
Lemma Accumulates_used (Q : string -> JsObj -> Prop) (st st' : LoopState W) :
  Accumulates Q st st' -> usedConverters st' = usedConverters st.
Proof. induction 1; simpl; congruence. Qed.

Lemma Accumulates_world (Q : string -> JsObj -> Prop) (st st' : LoopState W) :
  Accumulates Q st st' -> world st' = world st.
Proof. induction 1; simpl; congruence. Qed.

Lemma Accumulates_trace (Q : string -> JsObj -> Prop) (st st' : LoopState W) :
  Accumulates Q st st' ->
  exists evs, trace st' = trace st ++ evs /\
              Forall (fun ev => is_internal ev = true) evs.
Proof.
  induction 1 as [|st' ID payload _ [evs [Ht Hf]] _
                  |st' c tgt k m d _ [evs [Ht Hf]]].
  - exists []. now rewrite app_nil_r.
  - exists (evs ++ [accumulated ID payload]). simpl. rewrite Ht, app_assoc.
    split; [reflexivity|]. apply Forall_app. split; [exact Hf | now constructor].
  - eexists (evs ++ [_]). simpl. rewrite Ht, app_assoc.
    split; [reflexivity|]. apply Forall_app. split; [exact Hf | now constructor].
Qed.

End Results.

(** ** The state after each piece of the body *)

Create Rewrite HintDb frames.

Section Pieces.

Variable W : Type.
Variable E : Env W.
Variable topic : Topic.
Variable resolvedEntity : ResolvedEntity.
Implicit Types (st : LoopState W) (id : string) (ev : Event).

Local Abbreviation catch_block := (catch_block E topic resolvedEntity).
Local Abbreviation catch_events := (catch_events E topic resolvedEntity).
Local Abbreviation announce_set := (announce_set resolvedEntity).
Local Abbreviation announce_get := (announce_get resolvedEntity).

Lemma trace_emit ev st : trace (emit ev st) = trace st ++ [ev].
Proof. reflexivity. Qed.

Lemma trace_with_world (w : W) st : trace (with_world w st) = trace st.
Proof. reflexivity. Qed.

Lemma trace_push_used id (c : ref) st : trace (push_used id c st) = trace st.
Proof. reflexivity. Qed.

Lemma trace_catch_block (k : string) (error : JsError) st :
  trace (snd (catch_block k error st)) = trace st ++ catch_events k error.
Proof.
  unfold_catch.
  destruct (is_nullish error); [reflexivity|].
  destruct (legacy_api E); cbn [trace emit snd]; now rewrite <- !app_assoc.
Qed.

Lemma trace_announce_set (c : ref) id (tgt : Target) (k : string) (v : JsVal)
      (m : Meta) st :
  trace (announce_set c id tgt k v m st) =
  trace st ++ [logger_debug (Publishing_to set k (entity_name resolvedEntity));
               call_convertSet c id tgt k v m].
Proof. unfold_announce. cbn [trace emit]. now rewrite <- app_assoc. Qed.

Lemma trace_announce_get (c : ref) id (tgt : Target) (k : string) (m : Meta) st :
  trace (announce_get c id tgt k m st) =
  trace st ++ [logger_debug (Publishing_get_to get k (entity_name resolvedEntity));
               call_convertGet c id tgt k m].
Proof. unfold_announce. cbn [trace emit]. now rewrite <- app_assoc. Qed.

Lemma toPublish_emit ev st : toPublish (emit ev st) = toPublish st.
Proof. reflexivity. Qed.

Lemma toPublish_with_world (w : W) st : toPublish (with_world w st) = toPublish st.
Proof. reflexivity. Qed.

Lemma toPublish_push_used id (c : ref) st :
  toPublish (push_used id c st) = toPublish st.
Proof. reflexivity. Qed.

Lemma toPublish_catch_block (k : string) (error : JsError) st :
  toPublish (snd (catch_block k error st)) = toPublish st.
Proof. unfold_catch. now destruct (is_nullish error), (legacy_api E). Qed.

Lemma toPublish_announce_set (c : ref) id (tgt : Target) (k : string) (v : JsVal)
      (m : Meta) st :
  toPublish (announce_set c id tgt k v m st) = toPublish st.
Proof. reflexivity. Qed.

Lemma toPublish_announce_get (c : ref) id (tgt : Target) (k : string) (m : Meta) st :
  toPublish (announce_get c id tgt k m st) = toPublish st.
Proof. reflexivity. Qed.

Lemma used_at_emit id ev st : used_at id (emit ev st) = used_at id st.
Proof. reflexivity. Qed.

Lemma used_at_with_world id (w : W) st : used_at id (with_world w st) = used_at id st.
Proof. reflexivity. Qed.

Lemma used_at_catch_block id (k : string) (error : JsError) st :
  used_at id (snd (catch_block k error st)) = used_at id st.
Proof. unfold_catch. now destruct (is_nullish error), (legacy_api E). Qed.

Lemma used_at_announce_set id' (c : ref) id (tgt : Target) (k : string) (v : JsVal)
      (m : Meta) st :
  used_at id' (announce_set c id tgt k v m st) = used_at id' st.
Proof. reflexivity. Qed.

Lemma used_at_announce_get id' (c : ref) id (tgt : Target) (k : string) (m : Meta) st :
  used_at id' (announce_get c id tgt k m st) = used_at id' st.
Proof. reflexivity. Qed.

Lemma used_at_Accumulates (Q : string -> JsObj -> Prop) id st st' :
  Accumulates Q st st' -> used_at id st' = used_at id st.
Proof. intros H. unfold used_at. now rewrite (Accumulates_used _ _ _ _ H). Qed.

Lemma used_at_after_convertSet id (details : Details) (c : ref) (ep : string)
      (tgt : Target) (k : string) (m : Meta) (result : option Result) st :
  used_at id (after_convertSet resolvedEntity details c ep tgt k m result st) =
  used_at id st.
Proof. eapply used_at_Accumulates, after_convertSet_Accumulates. Qed.

Lemma world_after_convertSet (details : Details) (c : ref) (ep : string)
      (tgt : Target) (k : string) (m : Meta) (result : option Result) st :
  world (after_convertSet resolvedEntity details c ep tgt k m result st) =
  world st.
Proof. eapply Accumulates_world, after_convertSet_Accumulates. Qed.


End Pieces.

#[export] Hint Rewrite
  trace_emit trace_with_world trace_push_used trace_catch_block
  trace_announce_set trace_announce_get trace_ensure_used
  toPublish_emit toPublish_with_world toPublish_push_used toPublish_catch_block
  toPublish_announce_set toPublish_announce_get toPublish_ensure_used
  used_at_emit used_at_with_world used_at_catch_block used_at_announce_set
  used_at_announce_get used_at_ensure_used used_at_push_used
  used_at_after_convertSet
  : frames.

(** ** Counting on traces *)

Section Counting.

Implicit Types (tr evs : list Event) (c : ref) (id : string).

Lemma convertSet_calls_app c id tr evs :
  convertSet_calls c id (tr ++ evs) =
  convertSet_calls c id tr + convertSet_calls c id evs.
Proof. unfold convertSet_calls. now rewrite filter_app, length_app. Qed.

Lemma convertSet_calls_none c id evs :
  Forall (fun ev => is_converter_call ev = false) evs ->
  convertSet_calls c id evs = 0.
Proof.
  unfold convertSet_calls. induction 1 as [|ev evs Hev _ IH]; [reflexivity|].
  simpl. destruct ev; try discriminate; exact IH.
Qed.

Lemma internal_no_call evs :
  Forall (fun ev => is_internal ev = true) evs ->
  Forall (fun ev => is_converter_call ev = false) evs.
Proof. apply Forall_impl. now intros []. Qed.

Lemma internal_no_publish evs :
  Forall (fun ev => is_internal ev = true) evs ->
  Forall (fun ev => is_state_publish ev = false) evs.
Proof. apply Forall_impl. now intros []. Qed.

Lemma deltas_of_app id tr evs :
  deltas_of id (tr ++ evs) = deltas_of id tr ++ deltas_of id evs.
Proof. unfold deltas_of. now rewrite flat_map_app. Qed.

Lemma deltas_of_none id evs :
  Forall (fun ev => is_accumulated ev = false) evs -> deltas_of id evs = [].
Proof.
  unfold deltas_of. induction 1 as [|ev evs Hev _ IH]; [reflexivity|].
  simpl. rewrite IH. now destruct ev.
Qed.

Lemma state_publishes_app tr evs :
  state_publishes (tr ++ evs) = state_publishes tr ++ state_publishes evs.
Proof. unfold state_publishes. now rewrite flat_map_app. Qed.

End Counting.

(** ** The loop *)

Section Loop.

Variable W : Type.
Variable E : Env W.
Variable topic : Topic.
Variable resolvedEntity : ResolvedEntity.
Variable details : Details.
Variable json : JsVal.
Variable entityState : JsObj.
Implicit Types (st : LoopState W) (kv : entry) (cpl : Completion).

Local Abbreviation loop_body := (loop_body E topic resolvedEntity details json entityState).
Local Abbreviation for_of := (for_of E topic resolvedEntity details json entityState).
Local Abbreviation Step := (Step E topic resolvedEntity details json entityState).
Local Abbreviation route := (route E topic resolvedEntity details).
Local Abbreviation meta_of := (meta_of details json entityState).
Local Abbreviation catch_events := (catch_events E topic resolvedEntity).
Local Abbreviation find_converter := (find_converter E (converters details)).

(** A body that throws ends the loop; after any other the loop goes on
    with the entries that follow. *)
Lemma for_of_cons kv (rest : list entry) st :
  for_of (kv :: rest) st =
  match fst (loop_body kv st) with
  | Throw error => (Throw error, snd (loop_body kv st))
  | _ => for_of rest (snd (loop_body kv st))
  end.
Proof. step_for_of. now destruct (loop_body kv st) as [[| |e] st']. Qed.

Lemma for_of_cons_thrown kv (rest : list entry) st (error : JsError) :
  fst (loop_body kv st) = Throw error ->
  for_of (kv :: rest) st = (Throw error, snd (loop_body kv st)).
Proof. intros H. now rewrite for_of_cons, H. Qed.

Lemma for_of_cons_goes_on kv (rest : list entry) st :
  (forall error, fst (loop_body kv st) <> Throw error) ->
  for_of (kv :: rest) st = for_of rest (snd (loop_body kv st)).
Proof.
  intros H. rewrite for_of_cons.
  destruct (fst (loop_body kv st)) as [| |e]; [reflexivity | reflexivity|].
  now destruct (H e).
Qed.

Lemma for_of_app (a b : list entry) st :
  for_of (a ++ b) st =
  match fst (for_of a st) with
  | Throw error => (Throw error, snd (for_of a st))
  | _ => for_of b (snd (for_of a st))
  end.
Proof.
  revert st. induction a as [|kv a IH]; intros st; [reflexivity|].
  rewrite <- app_comm_cons, !for_of_cons.
  destruct (fst (loop_body kv st)); [apply IH | apply IH | reflexivity].
Qed.

(** The loop ends normally or with what a body threw. *)
Lemma for_of_completion (entries : list entry) st :
  fst (for_of entries st) = Normal
  \/ exists error, fst (for_of entries st) = Throw error.
Proof.
  revert st. induction entries as [|kv rest IH]; intros st; [now left|].
  rewrite for_of_cons.
  destruct (fst (loop_body kv st)) as [| |e]; [apply IH | apply IH|].
  right. now exists e.
Qed.

Lemma for_of_app_goes_on (a b : list entry) st :
  fst (for_of a st) = Normal ->
  for_of (a ++ b) st = for_of b (snd (for_of a st)).
Proof. intros H. now rewrite for_of_app, H. Qed.

(** What every path keeps, the loop keeps. *)
Lemma for_of_invariant (I : LoopState W -> Prop) :
  (forall kv st cpl st', Step kv st cpl st' -> I st -> I st') ->
  forall (entries : list entry) st, I st -> I (snd (for_of entries st)).
Proof.
  intros HI entries. induction entries as [|kv rest IH]; intros st Hst;
    [exact Hst|].
  assert (Hst' : I (snd (loop_body kv st)))
    by (eapply HI; [apply loop_body_Step | exact Hst]).
  rewrite for_of_cons.
  destruct (fst (loop_body kv st)); [now apply IH | now apply IH | exact Hst'].
Qed.

(** What every path that does not throw keeps holds after a loop that
    ends normally; and what it gives after a path that throws holds after
    the loop however it ends. *)
Lemma for_of_invariant_until_throw (I J : LoopState W -> Prop) :
  (forall st, I st -> J st) ->
  (forall kv st cpl st',
      Step kv st cpl st' -> (forall error, cpl <> Throw error) -> I st -> I st') ->
  (forall kv st error st', Step kv st (Throw error) st' -> I st -> J st') ->
  forall (entries : list entry) st,
    I st ->
    J (snd (for_of entries st))
    /\ (fst (for_of entries st) = Normal -> I (snd (for_of entries st))).
Proof.
  intros HIJ HI HJ entries. induction entries as [|kv rest IH]; intros st Hst;
    [split; [now apply HIJ | now intros _]|].
  pose proof (loop_body_Step W E topic resolvedEntity details json entityState
                kv st) as HS.
  rewrite for_of_cons.
  destruct (fst (loop_body kv st)) as [| |e] eqn:Hc.
  - apply IH. eapply HI; [exact HS | discriminate | exact Hst].
  - apply IH. eapply HI; [exact HS | discriminate | exact Hst].
  - cbn [fst snd]. split; [|discriminate]. eapply HJ; [exact HS | exact Hst].
Qed.

(** *** What was used stays used *)

Lemma Step_used_kept kv st cpl st' (id : string) (x : option ref) :
  Step kv st cpl st' -> In x (used_at id st) -> In x (used_at id st').
Proof.
  intros HS Hin.
  assert (Hpush : forall id0 c l, used_at id st = l ->
            In x (if String.eqb id id0 then used_at id0 st ++ [Some c] else l)).
  { intros id0 c l <-. destruct (String.eqb_spec id id0) as [<- | _]; [|exact Hin].
    apply in_or_app. now left. }
  destruct HS; autorewrite with frames; try exact Hin; now apply Hpush.
Qed.

Lemma for_of_used_kept (entries : list entry) st (id : string) (x : option ref) :
  In x (used_at id st) -> In x (used_at id (snd (for_of entries st))).
Proof.
  apply (for_of_invariant (fun st => In x (used_at id st))).
  intros kv st0 cpl st' HS. now apply Step_used_kept with (kv := kv) (cpl := cpl).
Qed.

(** *** At most one write per converter and identifier *)

Lemma convertSet_calls_catch_events (c : ref) (id k : string) (error : JsError) :
  convertSet_calls c id (catch_events k error) = 0.
Proof. unfold_catch. now destruct (is_nullish error), (legacy_api E). Qed.

Lemma convertSet_calls_announce_set (c' : ref) (id' : string) (c : ref)
      (id : string) (tgt : Target) (k : string) (v : JsVal) (m : Meta) :
  convertSet_calls c' id'
    [logger_debug (Publishing_to set k (entity_name resolvedEntity));
     call_convertSet c id tgt k v m] =
  if Nat.eqb c' c && String.eqb id' id then 1 else 0.
Proof. unfold convertSet_calls. cbn. now destruct (_ && _). Qed.

(** What a path adds to the trace holds at most one write of a converter
    under an identifier, and then the converter was not used under it
    before and, unless the path throws, is after. *)
Lemma Step_calls kv st cpl st' :
  Step kv st cpl st' ->
  exists evs,
    trace st' = trace st ++ evs /\
    forall (c : ref) (id : string),
      convertSet_calls c id evs = 0
      \/ (convertSet_calls c id evs = 1 /\ ~ In (Some c) (used_at id st) /\
          (In (Some c) (used_at id st') \/ cpl = Throw (TypeError_at 282))).
Proof.
  intros HS.
  assert (Hdec : cpl = Throw (TypeError_at 282) \/ cpl <> Throw (TypeError_at 282)).
  { destruct cpl as [| |[t s| | |l]]; try (right; discriminate).
    destruct (Nat.eq_dec l 282) as [-> | Hl]; [now left | right; congruence]. }
  assert (Hset : forall c' id' c id tgt k v m evs (u : list (option ref)),
            includes_converter (used_at id (ensure_used id st)) (Some c) = false ->
            convertSet_calls c' id' evs = 0 ->
            (cpl <> Throw (TypeError_at 282) ->
             u = if String.eqb id' id then used_at id st ++ [Some c]
                 else used_at id' st) ->
            convertSet_calls c' id'
              ([logger_debug (Publishing_to set k (entity_name resolvedEntity));
                call_convertSet c id tgt k v m] ++ evs) = 0
            \/ (convertSet_calls c' id'
                  ([logger_debug (Publishing_to set k (entity_name resolvedEntity));
                    call_convertSet c id tgt k v m] ++ evs) = 1 /\
                ~ In (Some c') (used_at id' st) /\
                (In (Some c') u \/ cpl = Throw (TypeError_at 282)))).
  { intros c' id' c id tgt k v m evs u Hnot Hevs Hu.
    rewrite convertSet_calls_app, convertSet_calls_announce_set, Hevs.
    destruct (Nat.eqb_spec c' c) as [-> | Hc]; [|now left].
    destruct (String.eqb_spec id' id) as [-> | Hid]; [|now left].
    right. split; [reflexivity|]. split.
    - intros Hin. apply includes_converter_In in Hin.
      autorewrite with frames in Hnot. congruence.
    - destruct Hdec as [Hthrow | Hcpl]; [now right|]. left.
      rewrite (Hu Hcpl). try rewrite String.eqb_refl.
      apply in_or_app. right. now left. }
  clear Hdec.
  destruct HS; autorewrite with frames.
  - exists []. split; [now rewrite app_nil_r|]. intros; left; reflexivity.
  - eexists. split; [reflexivity|]. intros; left; reflexivity.
  - exists []. split; [now rewrite app_nil_r|]. intros; left; reflexivity.
  - eexists. split; [reflexivity|]. intros; left; reflexivity.
  - eexists. split; [reflexivity|]. intros; left; reflexivity.
  - eexists. split; [now rewrite <- app_assoc|]. intros c' id'.
    eapply Hset; [eassumption | apply convertSet_calls_catch_events
                  | now autorewrite with frames].
  - eexists. split; [now rewrite <- app_assoc|]. intros c' id'.
    eapply Hset; [eassumption | apply convertSet_calls_catch_events
                  | now intros []].
  - destruct (Accumulates_trace _ _ _ _
                (after_convertSet_Accumulates W resolvedEntity details c ep tgt k
                   (meta_of ep) result
                   (with_world w (announce_set resolvedEntity c id tgt k (snd kv)
                                    (meta_of ep) (ensure_used id st)))))
      as [evs [Ht Hf]].
    rewrite Ht. autorewrite with frames.
    eexists. split; [now rewrite <- app_assoc|]. intros c' id'.
    eapply Hset; [eassumption | now apply convertSet_calls_none, internal_no_call
                  | now autorewrite with frames].
  - eexists. split; [now rewrite <- app_assoc|]. intros c' id'. left.
    rewrite convertSet_calls_app, convertSet_calls_catch_events. reflexivity.
  - eexists. split; [now rewrite <- app_assoc|]. intros c' id'. left.
    rewrite convertSet_calls_app, convertSet_calls_catch_events. reflexivity.
  - eexists. split; [reflexivity|]. intros; left; reflexivity.
Qed.

Lemma used_once_written_once st : used_once st -> written_once st.
Proof. intros H c id. apply H. Qed.

Lemma Step_written_once kv st cpl st' :
  Step kv st cpl st' -> used_once st -> written_once st'.
Proof.
  intros HS Hinv c id. destruct (Hinv c id) as [Hle Hin].
  destruct (Step_calls _ _ _ _ HS) as [evs [-> Hevs]].
  rewrite convertSet_calls_app.
  destruct (Hevs c id) as [-> | (-> & Hnot & _)]; [lia|].
  destruct (Nat.eq_dec (convertSet_calls c id (trace st)) 1) as [H1 | H1]; [|lia].
  now apply Hin in H1.
Qed.

Lemma Step_used_once kv st cpl st' :
  Step kv st cpl st' -> (forall error, cpl <> Throw error) ->
  used_once st -> used_once st'.
Proof.
  intros HS Hcpl Hinv c id. destruct (Hinv c id) as [Hle Hin].
  destruct (Step_calls _ _ _ _ HS) as [evs [-> Hevs]].
  rewrite convertSet_calls_app.
  destruct (Hevs c id) as [-> | (-> & Hnot & [Hnow | Hthrow])].
  - rewrite Nat.add_0_r. split; [exact Hle|]. intros H.
    eapply Step_used_kept; [exact HS | now apply Hin].
  - split; [|intros _; exact Hnow].
    destruct (Nat.eq_dec (convertSet_calls c id (trace st)) 1) as [H1 | H1]; [|lia].
    now apply Hin in H1.
  - now destruct (Hcpl _ Hthrow).
Qed.

(** The bound holds however the loop ends; what was written to is
    recorded when it ends normally. *)
Lemma for_of_used_once (entries : list entry) st :
  used_once st ->
  written_once (snd (for_of entries st))
  /\ (fst (for_of entries st) = Normal -> used_once (snd (for_of entries st))).
Proof.
  apply for_of_invariant_until_throw.
  - apply used_once_written_once.
  - intros kv st0 cpl st'. apply Step_used_once.
  - intros kv st0 error st'. apply Step_written_once.
Qed.

End Loop.

(** ** The handler *)

Section Handler.

Variable W : Type.
Variable E : Env W.

Lemma quiet_no_call (evs : list Event) :
  Forall (fun ev => is_quiet ev = true) evs ->
  Forall (fun ev => is_converter_call ev = false) evs.
Proof. apply Forall_impl. now intros []. Qed.

Lemma quiet_no_publish (evs : list Event) :
  Forall (fun ev => is_quiet ev = true) evs ->
  Forall (fun ev => is_state_publish ev = false) evs.
Proof. apply Forall_impl. now intros []. Qed.

Lemma quiet_not_accumulated (evs : list Event) :
  Forall (fun ev => is_quiet ev = true) evs ->
  Forall (fun ev => is_accumulated ev = false) evs.
Proof. apply Forall_impl. now intros []. Qed.

Lemma home_assistant_quiet (entityState : JsObj) (json : JsVal) :
  Forall (fun ev => is_quiet ev = true) (snd (home_assistant E entityState json)).
Proof.
  unfold home_assistant. destruct (homeassistant E); [|constructor].
  destruct (_ && _); repeat constructor.
Qed.

(** A call of the handler either returns before the loop, with nothing
    but lines for the logger and the MQTT client, or runs the loop over the
    ordered entries; it then publishes what was accumulated and returns
    [true], or ends with what the loop threw and publishes nothing. *)
Lemma onMQTTMessage_cases (topic message : string) (w : W) :
  (exists r tr,
      onMQTTMessage E topic message w = (Ends r, tr, w) /\
      r <> returns_true /\
      Forall (fun ev => is_quiet ev = true) tr)
  \/ exists t r d json0,
      parseTopic E topic = Some t /\
      resolveEntity E (entityKey_of t) = Some r /\
      entity_details E r = inr d /\
      decode E t message = inr json0 /\
      let json := fst (home_assistant E (entityState_of E r) json0) in
      let logged := snd (home_assistant E (entityState_of E r) json0) in
      let loop := for_of E t r d json (entityState_of E r)
                    (ordered_entries E json)
                    {| usedConverters := Obj.empty; toPublish := Obj.empty;
                       trace := logged; world := w |} in
      let st := snd loop in
      onMQTTMessage E topic message w =
      match fst loop with
      | Throw error => (Raises error, trace st, world st)
      | _ => (Ends returns_true, trace st ++ flush (toPublish st), world st)
      end.
Proof.
  unfold onMQTTMessage.
  destruct (parseTopic E topic) as [t|] eqn:Ht;
    [|left; exists returns_false, []; repeat split; [discriminate | constructor]].
  destruct (resolveEntity E (entityKey_of t)) as [r|] eqn:Hr.
  2:{ left. eexists returns_undefined, _. repeat split; [discriminate|].
      destruct (legacy_api E); repeat constructor. }
  destruct (entity_details E r) as [logged | d] eqn:Hd.
  { left. exists returns_undefined, logged. repeat split; [discriminate|].
    unfold entity_details in Hd.
    destruct r as [n s dev ep [def|] | n s g]; try discriminate.
    injection Hd as <-. repeat constructor. }
  destruct (decode E t message) as [[ret logged] | json0] eqn:Hj.
  { left. exists ret, logged. unfold decode in Hj.
    destruct (has_attribute t) as [a|].
    - cbn in Hj. discriminate.
    - destruct (JSON_parse E message) as [v|].
      + destruct (truthy v); [discriminate|]. injection Hj as <- <-.
        repeat split; [discriminate | repeat constructor].
      + destruct (string_in _ _); [discriminate|]. injection Hj as <- <-.
        repeat split; [discriminate | repeat constructor]. }
  right. exists t, r, d, json0. repeat split; auto. cbv zeta.
  destruct (home_assistant E (entityState_of E r) json0) as [json logged].
  cbn [fst snd].
  now destruct (for_of _ _ _ _ _ _ _ _) as [[| |error] st].
Qed.

End Handler.

(** ** Single use of a converter, and exceptions *)

Section SingleUse.

Variable W : Type.
Variable E : Env W.
Variable topic : Topic.
Variable resolvedEntity : ResolvedEntity.
Variable details : Details.
Variable json : JsVal.
Variable entityState : JsObj.
Implicit Types (st : LoopState W) (kv : entry) (cpl : Completion).

Local Abbreviation loop_body := (loop_body E topic resolvedEntity details json entityState).
Local Abbreviation for_of := (for_of E topic resolvedEntity details json entityState).
Local Abbreviation route := (route E topic resolvedEntity details).
Local Abbreviation meta_of := (meta_of details json entityState).
Local Abbreviation catch_events := (catch_events E topic resolvedEntity).
Local Abbreviation catch_block := (catch_block E topic resolvedEntity).
Local Abbreviation announce_set := (announce_set resolvedEntity).
Local Abbreviation announce_get := (announce_get resolvedEntity).
Local Abbreviation find_converter := (find_converter E (converters details)).

Lemma ensure_used_same (id : string) (x : option ref) st :
  In x (used_at id st) -> ensure_used id st = st.
Proof.
  unfold ensure_used, used_at, Obj.has.
  now destruct (Obj.get id (usedConverters st)).
Qed.

(** A converter already used under the identifier: the entry is passed
    over, and nothing at all is done. *)
Lemma loop_body_skips_used kv st (ep id : string) (tgt : Target) (k : string)
      (c : ref) :
  type topic = set ->
  route (fst kv) = routed ep id tgt k ->
  find_converter k = Some c ->
  In (Some c) (used_at id st) ->
  loop_body kv st = (Continue, st).
Proof.
  intros Ht Hr Hc Hin. unfold_loop_body.
  rewrite Hr, Hc, Ht, (ensure_used_same _ _ _ Hin).
  apply includes_converter_In in Hin. now rewrite Hin.
Qed.

(** A write that throws: the body goes through [catch]. *)
Lemma loop_body_set_catch kv st (ep id : string) (tgt : Target) (k : string)
      (c : ref) f (error : JsError) (w : W) :
  type topic = set ->
  route (fst kv) = routed ep id tgt k ->
  find_converter k = Some c ->
  ~ In (Some c) (used_at id st) ->
  convertSet (converter_at E c) = Some f ->
  f tgt k (snd kv) (meta_of ep) (world st) = (Thrown error, w) ->
  loop_body kv st =
  match catch_block k error
          (with_world w
             (announce_set c id tgt k (snd kv) (meta_of ep) (ensure_used id st)))
  with
  | (Normal, st') => (Normal, push_used id c st')
  | other => other
  end.
Proof.
  intros Ht Hr Hc Hnot Hf Hcall. unfold_loop_body.
  rewrite Hr, Hc, Ht. cbn [is_set andb].
  destruct (includes_converter _ _) eqn:Hinc.
  { apply includes_converter_In in Hinc. now rewrite used_at_ensure_used in Hinc. }
  unfold try_block. rewrite Ht, Hf. cbv zeta.
  replace (world (announce_set c id tgt k (snd kv) (meta_of ep) (ensure_used id st)))
    with (world st) by (symmetry; apply world_ensure_used).
  now rewrite Hcall.
Qed.

(** What is thrown is an object, or any value but [null] and
    [undefined]: the body ends normally. *)
Lemma loop_body_set_thrown kv st (ep id : string) (tgt : Target) (k : string)
      (c : ref) f (error : JsError) (w : W) :
  type topic = set ->
  route (fst kv) = routed ep id tgt k ->
  find_converter k = Some c ->
  ~ In (Some c) (used_at id st) ->
  convertSet (converter_at E c) = Some f ->
  f tgt k (snd kv) (meta_of ep) (world st) = (Thrown error, w) ->
  is_nullish error = false ->
  loop_body kv st =
  (Normal,
   push_used id c
     (snd (catch_block k error
             (with_world w
                (announce_set c id tgt k (snd kv) (meta_of ep)
                   (ensure_used id st)))))).
Proof.
  intros Ht Hr Hc Hnot Hf Hcall Hn.
  rewrite (loop_body_set_catch _ _ _ _ _ _ _ _ _ _ Ht Hr Hc Hnot Hf Hcall).
  now rewrite (catch_block_caught _ _ _ _ _ _ _ Hn).
Qed.

(** What is thrown is [null] or [undefined]: line 282 throws, and the
    body ends there. *)
Lemma loop_body_set_thrown_nullish kv st (ep id : string) (tgt : Target)
      (k : string) (c : ref) f (error : JsError) (w : W) :
  type topic = set ->
  route (fst kv) = routed ep id tgt k ->
  find_converter k = Some c ->
  ~ In (Some c) (used_at id st) ->
  convertSet (converter_at E c) = Some f ->
  f tgt k (snd kv) (meta_of ep) (world st) = (Thrown error, w) ->
  is_nullish error = true ->
  loop_body kv st =
  (Throw (TypeError_at 282),
   snd (catch_block k error
          (with_world w
             (announce_set c id tgt k (snd kv) (meta_of ep)
                (ensure_used id st))))).
Proof.
  intros Ht Hr Hc Hnot Hf Hcall Hn.
  rewrite (loop_body_set_catch _ _ _ _ _ _ _ _ _ _ Ht Hr Hc Hnot Hf Hcall).
  now rewrite (catch_block_nullish _ _ _ _ _ _ _ Hn).
Qed.

(** A read that throws. *)
Lemma loop_body_get_catch kv st (ep id : string) (tgt : Target) (k : string)
      (c : ref) f (error : JsError) (w : W) :
  type topic = get ->
  route (fst kv) = routed ep id tgt k ->
  find_converter k = Some c ->
  convertGet (converter_at E c) = Some f ->
  f tgt k (meta_of ep) (world st) = (Thrown error, w) ->
  loop_body kv st =
  match catch_block k error
          (with_world w (announce_get c id tgt k (meta_of ep) (ensure_used id st)))
  with
  | (Normal, st') => (Normal, push_used id c st')
  | other => other
  end.
Proof.
  intros Ht Hr Hc Hf Hcall. unfold_loop_body.
  rewrite Hr, Hc, Ht. cbn [is_set andb].
  unfold try_block. rewrite Ht, Hf.
  replace (world (announce_get c id tgt k (meta_of ep) (ensure_used id st)))
    with (world st) by (symmetry; apply world_ensure_used).
  destruct (convertSet (converter_at E c)); cbv zeta;
    replace (world (announce_get c id tgt k (meta_of ep) (ensure_used id st)))
      with (world st) by (symmetry; apply world_ensure_used);
    now rewrite Hcall.
Qed.

Lemma loop_body_get_thrown kv st (ep id : string) (tgt : Target) (k : string)
      (c : ref) f (error : JsError) (w : W) :
  type topic = get ->
  route (fst kv) = routed ep id tgt k ->
  find_converter k = Some c ->
  convertGet (converter_at E c) = Some f ->
  f tgt k (meta_of ep) (world st) = (Thrown error, w) ->
  is_nullish error = false ->
  loop_body kv st =
  (Normal,
   push_used id c
     (snd (catch_block k error
             (with_world w
                (announce_get c id tgt k (meta_of ep) (ensure_used id st)))))).
Proof.
  intros Ht Hr Hc Hf Hcall Hn.
  rewrite (loop_body_get_catch _ _ _ _ _ _ _ _ _ _ Ht Hr Hc Hf Hcall).
  now rewrite (catch_block_caught _ _ _ _ _ _ _ Hn).
Qed.

Lemma loop_body_get_thrown_nullish kv st (ep id : string) (tgt : Target)
      (k : string) (c : ref) f (error : JsError) (w : W) :
  type topic = get ->
  route (fst kv) = routed ep id tgt k ->
  find_converter k = Some c ->
  convertGet (converter_at E c) = Some f ->
  f tgt k (meta_of ep) (world st) = (Thrown error, w) ->
  is_nullish error = true ->
  loop_body kv st =
  (Throw (TypeError_at 282),
   snd (catch_block k error
          (with_world w
             (announce_get c id tgt k (meta_of ep) (ensure_used id st))))).
Proof.
  intros Ht Hr Hc Hf Hcall Hn.
  rewrite (loop_body_get_catch _ _ _ _ _ _ _ _ _ _ Ht Hr Hc Hf Hcall).
  now rewrite (catch_block_nullish _ _ _ _ _ _ _ Hn).
Qed.

(** A body that writes to a converter records it, unless line 282
    throws. *)
Lemma loop_body_call_marks_used kv st (c : ref) (id : string) :
  convertSet_calls c id (trace (snd (loop_body kv st)))
  = S (convertSet_calls c id (trace st)) ->
  In (Some c) (used_at id (snd (loop_body kv st)))
  \/ fst (loop_body kv st) = Throw (TypeError_at 282).
Proof.
  destruct (Step_calls _ _ _ _ _ _ _ _ _ _ _
              (loop_body_Step W E topic resolvedEntity details json entityState kv st))
    as [evs [Ht Hevs]].
  rewrite Ht, convertSet_calls_app. intros Hc.
  destruct (Hevs c id) as [H0 | (_ & _ & Hin)]; [lia | exact Hin].
Qed.

End SingleUse.

Lemma flush_no_call (tp : Obj.t JsObj) :
  Forall (fun ev => is_converter_call ev = false) (flush tp).
Proof. unfold flush. apply Forall_map, Forall_forall. reflexivity. Qed.

Lemma flush_not_accumulated (tp : Obj.t JsObj) :
  Forall (fun ev => is_accumulated ev = false) (flush tp).
Proof. unfold flush. apply Forall_map, Forall_forall. reflexivity. Qed.

Lemma used_once_start (W : Type) (logged : list Event) (w : W) :
  Forall (fun ev => is_quiet ev = true) logged ->
  used_once {| usedConverters := Obj.empty; toPublish := Obj.empty;
                 trace := logged; world := w |}.
Proof.
  intros Hq c id. cbn [trace].
  rewrite convertSet_calls_none by now apply quiet_no_call. split; [lia | discriminate].
Qed.

(** What leaves the loop is the [TypeError] of line 181 or that of line
    282. *)
Lemma Step_thrown (W : Type) (E : Env W) topic r d json es (kv : entry)
      (st st' : LoopState W) (error : JsError) :
  Step E topic r d json es kv st (Throw error) st' ->
  error = TypeError_at 181 \/ error = TypeError_at 282.
Proof.
  intros HS. inversion HS as [e Hr| | | | | | | | | |]; subst; auto.
  left. unfold route, endpoint_of_key in Hr.
  destruct r as [n s dev ep [def|]|n s g]; try discriminate.
  destruct (Str.includes (fst kv) "_"); [|discriminate].
  destruct (find _ _) as [m|]; [|discriminate].
  destruct (String.eqb m ""); [discriminate|].
  destruct (endpoint def); [|now injection Hr as <-].
  now destruct (getEndpoint E _ _).
Qed.

Lemma for_of_thrown (W : Type) (E : Env W) topic r d json es
      (entries : list entry) (st : LoopState W) (error : JsError) :
  fst (for_of E topic r d json es entries st) = Throw error ->
  error = TypeError_at 181 \/ error = TypeError_at 282.
Proof.
  revert st. induction entries as [|kv rest IH]; intros st; [discriminate|].
  rewrite for_of_cons.
  pose proof (loop_body_Step W E topic r d json es kv st) as HS.
  destruct (fst (loop_body E topic r d json es kv st)) as [| |e];
    [apply IH | apply IH|].
  cbn [fst]. intros [= <-]. eapply Step_thrown, HS.
Qed.

(** C1. In the trace of a call of the handler a converter is written to at
    most once under an identifier.  A body that writes to a converter
    records it as used under the identifier, unless line 282 throws and
    ends the call; what is recorded stays recorded for the rest of the
    loop, and for a [set] an entry that selects a converter recorded under
    its identifier is passed over: the body ends with [continue] and
    leaves the state, trace included, as it was. *)
Theorem converter_written_once_per_identifier (W : Type) (E : Env W) :
  (forall (topic message : string) (w : W) (c : ref) (id : string),
      convertSet_calls c id (trace_of (onMQTTMessage E topic message w)) <= 1)
  /\ (forall topic r d json es (kv : entry) (st : LoopState W) (c : ref) (id : string),
         convertSet_calls c id (trace (snd (loop_body E topic r d json es kv st)))
         = S (convertSet_calls c id (trace st)) ->
         In (Some c) (used_at id (snd (loop_body E topic r d json es kv st)))
         \/ fst (loop_body E topic r d json es kv st) = Throw (TypeError_at 282))
  /\ (forall topic r d json es (entries : list entry) (st : LoopState W)
             (id : string) (x : option ref),
         In x (used_at id st) ->
         In x (used_at id (snd (for_of E topic r d json es entries st))))
  /\ (forall topic r d json es (kv : entry) (st : LoopState W)
             (ep id : string) (tgt : Target) (k : string) (c : ref),
         type topic = set ->
         route E topic r d (fst kv) = routed ep id tgt k ->
         find_converter E (converters d) k = Some c ->
         In (Some c) (used_at id st) ->
         loop_body E topic r d json es kv st = (Continue, st)).
Proof.
  repeat split.
  - intros topic message w c id.
    destruct (onMQTTMessage_cases W E topic message w)
      as [(r & tr & -> & _ & Hq) | (t & r & d & json0 & _ & _ & _ & _ & ->)];
      unfold trace_of; cbn [fst snd].
    + rewrite convertSet_calls_none by now apply quiet_no_call. lia.
    + cbv zeta.
      set (loop := for_of E t r d _ (entityState_of E r) _ _).
      assert (Hw : convertSet_calls c id (trace (snd loop)) <= 1).
      { apply (fun H => proj1 (for_of_used_once _ _ _ _ _ _ _ _ _ H) c id).
        apply used_once_start, home_assistant_quiet. }
      destruct (fst loop); cbn [fst snd]; try exact Hw;
        rewrite convertSet_calls_app, (convertSet_calls_none _ _ (flush _))
          by apply flush_no_call; lia.
  - intros. now apply loop_body_call_marks_used.
  - intros. now apply for_of_used_kept.
  - intros. eapply loop_body_skips_used; eauto.
Qed.

(** C10. A [set] whose converter throws in [convertSet] still records the
    converter as used under the identifier when what is thrown is not
    [null] or [undefined]; after that, whatever entries come in between,
    an entry that selects the same converter under the same identifier is
    passed over without a line for the logger, a call or a publication:
    the state is left as it was.  When what is thrown is [null] or
    [undefined], line 282 throws: the converter is not recorded and the
    loop ends there, whatever entries follow. *)
Theorem thrown_write_still_marks_converter_used
        (W : Type) (E : Env W) topic r d json es (kv : entry) (st : LoopState W)
        (ep id : string) (tgt : Target) (k : string) (c : ref) f
        (error : JsError) (w : W) :
  type topic = set ->
  route E topic r d (fst kv) = routed ep id tgt k ->
  find_converter E (converters d) k = Some c ->
  ~ In (Some c) (used_at id st) ->
  convertSet (converter_at E c) = Some f ->
  f tgt k (snd kv) (meta_of d json es ep) (world st) = (Thrown error, w) ->
  let st1 := snd (loop_body E topic r d json es kv st) in
  (is_nullish error = false ->
   fst (loop_body E topic r d json es kv st) = Normal
   /\ In (Some c) (used_at id st1)
   /\ forall (between : list entry) (kv2 : entry) (ep2 : string) (tgt2 : Target)
             (k2 : string),
       route E topic r d (fst kv2) = routed ep2 id tgt2 k2 ->
       find_converter E (converters d) k2 = Some c ->
       loop_body E topic r d json es kv2
         (snd (for_of E topic r d json es between st1))
       = (Continue, snd (for_of E topic r d json es between st1)))
  /\ (is_nullish error = true ->
      fst (loop_body E topic r d json es kv st) = Throw (TypeError_at 282)
      /\ ~ In (Some c) (used_at id st1)
      /\ forall rest : list entry,
          for_of E topic r d json es (kv :: rest) st
          = (Throw (TypeError_at 282), st1)).
Proof.
  intros Ht Hr Hc Hnot Hf Hcall st1. split; intros Hn.
  - assert (Hb := loop_body_set_thrown W E topic r d json es kv st ep id tgt k c f
                    error w Ht Hr Hc Hnot Hf Hcall Hn).
    assert (Hin : In (Some c) (used_at id st1)).
    { unfold st1. rewrite Hb.
      cbn [snd]. rewrite used_at_push_used, String.eqb_refl.
      apply in_or_app. right. now left. }
    split; [now rewrite Hb|]. split; [exact Hin|].
    intros between kv2 ep2 tgt2 k2 Hr2 Hc2.
    eapply loop_body_skips_used; eauto. now apply for_of_used_kept.
  - assert (Hb := loop_body_set_thrown_nullish W E topic r d json es kv st ep id
                    tgt k c f error w Ht Hr Hc Hnot Hf Hcall Hn).
    split; [now rewrite Hb|]. split.
    + unfold st1. rewrite Hb. cbn [snd]. now autorewrite with frames.
    + intros rest. rewrite for_of_cons. unfold st1. now rewrite Hb.
Qed.

(** ** What is accumulated and what is published *)

Section Buffer.

Variable W : Type.
Variable E : Env W.
Implicit Types (st : LoopState W) (kv : entry) (cpl : Completion).

Lemma buffer_is_merge_frame st st' (evs : list Event) :
  toPublish st' = toPublish st -> trace st' = trace st ++ evs ->
  Forall (fun ev => is_accumulated ev = false) evs ->
  buffer_is_merge st -> buffer_is_merge st'.
Proof.
  intros Hp Ht Hevs [Hd Hg]. unfold buffer_is_merge.
  rewrite Hp, Ht. split; [exact Hd|]. intros id.
  now rewrite deltas_of_app, (deltas_of_none _ evs Hevs), app_nil_r.
Qed.

Lemma buffer_is_merge_Accumulates (Q : string -> JsObj -> Prop) st st' :
  Accumulates Q st st' -> buffer_is_merge st -> buffer_is_merge st'.
Proof.
  induction 1 as [|st' ID payload _ IH _|st' c tgt k m d _ IH]; intros Hst.
  - exact Hst.
  - destruct (IH Hst) as [Hd Hg]. split; [now apply NoDup_addToToPublish|].
    intros id. rewrite get_addToToPublish, trace_addToToPublish, deltas_of_app.
    replace (deltas_of id [accumulated ID payload])
      with (if String.eqb id ID then [payload] else [])
      by (cbn; rewrite app_nil_r; now rewrite String.eqb_sym).
    destruct (String.eqb_spec id ID) as [-> | Hne].
    + rewrite Hg. destruct (deltas_of ID (trace st')) as [|d0 ds]; [reflexivity|].
      cbn [app]. f_equal. change (d0 :: ds ++ [payload]) with ((d0 :: ds) ++ [payload]).
      now rewrite fold_left_app.
    + now rewrite app_nil_r.
  - apply (buffer_is_merge_frame st' _ [setTimeout_convertGet c tgt k m d]);
      [reflexivity | reflexivity | now repeat constructor | exact (IH Hst)].
Qed.

Lemma buffer_not_empty_Accumulates (Q : string -> JsObj -> Prop) st st' :
  (forall ID payload, Q ID payload -> payload <> []) ->
  Accumulates Q st st' -> buffer_not_empty st -> buffer_not_empty st'.
Proof.
  intros HQ. induction 1 as [|st' ID payload _ IH HQp|st' c tgt k m d _ IH];
    intros Hst; [exact Hst | | exact (IH Hst)].
  intros id p. rewrite get_addToToPublish.
  destruct (String.eqb id ID); [|now apply IH].
  intros Hp. injection Hp as <-. apply ObjFacts.merge_not_empty_r.
  now apply (HQ ID).
Qed.

Lemma no_publish_Accumulates (Q : string -> JsObj -> Prop) st st' :
  Accumulates Q st st' -> no_publish st -> no_publish st'.
Proof.
  intros Hacc Hst. destruct (Accumulates_trace _ _ _ _ Hacc) as [evs [Ht Hf]].
  unfold no_publish. rewrite Ht. apply Forall_app. split; [exact Hst|].
  now apply internal_no_publish.
Qed.

Section Message.

Variable topic : Topic.
Variable resolvedEntity : ResolvedEntity.
Variable details : Details.
Variable json : JsVal.
Variable entityState : JsObj.

Local Abbreviation Step := (Step E topic resolvedEntity details json entityState).
Local Abbreviation for_of := (for_of E topic resolvedEntity details json entityState).
Local Abbreviation catch_events := (catch_events E topic resolvedEntity).

Lemma catch_events_quiet (k : string) (error : JsError) :
  Forall (fun ev => is_quiet ev = true) (catch_events k error).
Proof.
  unfold_catch. destruct (is_nullish error), (legacy_api E); repeat constructor.
Qed.

(** Every path is: lines for the logger and calls, then possibly the
    handling of a result, and changes to [usedConverters]. *)
Lemma Step_buffer kv st cpl st' :
  Step kv st cpl st' ->
  exists (st0 st1 : LoopState W) (evs : list Event) (result : option Result),
    toPublish st0 = toPublish st /\ trace st0 = trace st ++ evs /\
    Forall (fun ev => is_accumulated ev = false) evs /\
    Forall (fun ev => is_state_publish ev = false) evs /\
    Accumulates (accumulable resolvedEntity result) st0 st1 /\
    toPublish st' = toPublish st1 /\ trace st' = trace st1 /\
    (forall r ms id p, result = Some r -> result_membersState r = Some ms ->
                       In (id, p) ms -> member_states_not_empty E -> p <> []).
Proof.
  assert (Hnone : forall r ms id p, @None Result = Some r ->
            result_membersState r = Some ms -> In (id, p) ms ->
            member_states_not_empty E -> p <> []) by discriminate.
  assert (Hsame : forall (st2 : LoopState W) (evs : list Event),
            toPublish st2 = toPublish st -> trace st2 = trace st ++ evs ->
            Forall (fun ev => is_accumulated ev = false) evs ->
            Forall (fun ev => is_state_publish ev = false) evs ->
            exists (st0 st1 : LoopState W) (evs : list Event)
                   (result : option Result),
              toPublish st0 = toPublish st /\ trace st0 = trace st ++ evs /\
              Forall (fun ev => is_accumulated ev = false) evs /\
              Forall (fun ev => is_state_publish ev = false) evs /\
              Accumulates (accumulable resolvedEntity result) st0 st1 /\
              toPublish st2 = toPublish st1 /\ trace st2 = trace st1 /\
              (forall r ms id p, result = Some r -> result_membersState r = Some ms ->
                                 In (id, p) ms -> member_states_not_empty E -> p <> [])).
  { intros st2 evs Hp Ht Ha Hs. exists st2, st2, evs, None.
    repeat split; auto. constructor. }
  assert (Hcatch : forall (st2 : LoopState W) (evs : list Event) (k : string)
                          (error : JsError),
            toPublish st2 = toPublish st ->
            trace st2 = trace st ++ evs ++ catch_events k error ->
            Forall (fun ev => is_accumulated ev = false) evs ->
            Forall (fun ev => is_state_publish ev = false) evs ->
            exists (st0 st1 : LoopState W) (evs : list Event)
                   (result : option Result),
              toPublish st0 = toPublish st /\ trace st0 = trace st ++ evs /\
              Forall (fun ev => is_accumulated ev = false) evs /\
              Forall (fun ev => is_state_publish ev = false) evs /\
              Accumulates (accumulable resolvedEntity result) st0 st1 /\
              toPublish st2 = toPublish st1 /\ trace st2 = trace st1 /\
              (forall r ms id p, result = Some r -> result_membersState r = Some ms ->
                                 In (id, p) ms -> member_states_not_empty E -> p <> [])).
  { intros st2 evs k error Hp Ht Ha Hs.
    apply (Hsame st2 (evs ++ catch_events k error) Hp Ht);
      (apply Forall_app; split; [assumption|]).
    - apply quiet_not_accumulated, catch_events_quiet.
    - apply quiet_no_publish, catch_events_quiet. }
  destruct 1.
  - eapply (Hsame _ []);
      [reflexivity | now rewrite app_nil_r | constructor | constructor].
  - eapply (Hsame _ [_]); [reflexivity | reflexivity | |]; now repeat constructor.
  - eapply (Hsame _ []); autorewrite with frames;
      [reflexivity | now rewrite app_nil_r | constructor | constructor].
  - eapply (Hsame _ [_]); autorewrite with frames;
      [reflexivity | reflexivity | |]; now repeat constructor.
  - eapply (Hsame _ [_]); autorewrite with frames;
      [reflexivity | reflexivity | |]; now repeat constructor.
  - eapply (Hcatch _ [_; _]); autorewrite with frames;
      [reflexivity | now rewrite <- app_assoc | |]; now repeat constructor.
  - eapply (Hcatch _ [_; _]); autorewrite with frames;
      [reflexivity | now rewrite <- app_assoc | |]; now repeat constructor.
  - eexists (with_world w
               (announce_set resolvedEntity c id tgt k (snd kv)
                  (meta_of details json entityState ep) (ensure_used id st))),
      _, [_; _], result.
    split; [|split; [|split; [|split; [|split;
      [apply after_convertSet_Accumulates|split; [|split]]]]]].
    + autorewrite with frames. reflexivity.
    + autorewrite with frames. reflexivity.
    + now repeat constructor.
    + now repeat constructor.
    + reflexivity.
    + reflexivity.
    + intros r ms id0 p -> Hms Hin Hconv. eapply Hconv; eauto.
  - eapply (Hcatch _ [_; _]); autorewrite with frames;
      [reflexivity | now rewrite <- app_assoc | |]; now repeat constructor.
  - eapply (Hcatch _ [_; _]); autorewrite with frames;
      [reflexivity | now rewrite <- app_assoc | |]; now repeat constructor.
  - eapply (Hsame _ [_; _]); autorewrite with frames;
      [reflexivity | reflexivity | |]; now repeat constructor.
Qed.

Lemma Step_buffer_is_merge kv st cpl st' :
  Step kv st cpl st' -> buffer_is_merge st -> buffer_is_merge st'.
Proof.
  intros HS Hst.
  destruct (Step_buffer _ _ _ _ HS)
    as (st0 & st1 & evs & result & Hp0 & Ht0 & Hacc0 & _ & Hacc & Hp & Ht & _).
  eapply buffer_is_merge_frame with (st := st1) (evs := []);
    [exact Hp | now rewrite app_nil_r | constructor|].
  eapply buffer_is_merge_Accumulates; [exact Hacc|].
  eapply buffer_is_merge_frame; eauto.
Qed.

Lemma Step_no_publish kv st cpl st' :
  Step kv st cpl st' -> no_publish st -> no_publish st'.
Proof.
  intros HS Hst.
  destruct (Step_buffer _ _ _ _ HS)
    as (st0 & st1 & evs & result & Hp0 & Ht0 & _ & Hpub & Hacc & Hp & Ht & _).
  unfold no_publish. rewrite Ht.
  eapply no_publish_Accumulates; [exact Hacc|].
  unfold no_publish. rewrite Ht0. apply Forall_app. now split.
Qed.

Lemma Step_buffer_not_empty kv st cpl st' :
  member_states_not_empty E ->
  Step kv st cpl st' -> buffer_not_empty st -> buffer_not_empty st'.
Proof.
  intros Hconv HS Hst.
  destruct (Step_buffer _ _ _ _ HS)
    as (st0 & st1 & evs & result & Hp0 & Ht0 & _ & _ & Hacc & Hp & Ht & Hms).
  unfold buffer_not_empty. rewrite Hp.
  eapply buffer_not_empty_Accumulates; [|exact Hacc|].
  - intros ID payload [[_ Hne] | (r & ms & Hr & Hm & Hin)]; [exact Hne|].
    eapply Hms; eauto.
  - unfold buffer_not_empty. now rewrite Hp0.
Qed.

End Message.

End Buffer.

Lemma In_get {A : Type} (o : Obj.t A) (id : string) (p : A) :
  NoDup (Obj.keys o) -> In (id, p) o -> Obj.get id o = Some p.
Proof.
  induction o as [|[k v] o IH]; simpl; [easy|].
  intros Hd [Heq | Hin]; inversion Hd as [|? ? Hk Hd']; subst.
  - injection Heq as -> ->. now rewrite String.eqb_refl.
  - destruct (String.eqb_spec id k) as [-> | Hne]; [|now apply IH].
    exfalso. apply Hk. unfold Obj.keys. now apply (in_map fst) in Hin.
Qed.

(** C3. The trace of a call of the handler is a body without any
    publication of state, followed by the publications, no identifier
    twice, each with the merge of what was accumulated for the identifier
    in the body.  When the call returns, there is one publication for each
    identifier something was accumulated for in the body and for no
    other, in the order in which it was accumulated; when the call ends
    with an exception, nothing is published, whatever was accumulated.
    None of the published states is empty as long as no converter returns
    an empty state for a member. *)
Theorem publish_buffer_flushed_at_end
        (W : Type) (E : Env W) (topic message : string) (w : W) :
  exists (body : list Event) (published : list (string * JsObj)),
    trace_of (onMQTTMessage E topic message w)
    = body ++ map (fun kv => publishEntityState (fst kv) (snd kv)) published
    /\ Forall (fun ev => is_state_publish ev = false) body
    /\ NoDup (map fst published)
    /\ ((exists r, ending_of (onMQTTMessage E topic message w) = Ends r) ->
        forall id : string,
          In id (map fst published) <-> deltas_of id body <> [])
    /\ ((exists error,
            ending_of (onMQTTMessage E topic message w) = Raises error) ->
        published = [])
    /\ (forall (id : string) (payload : JsObj),
           In (id, payload) published ->
           payload = fold_left Obj.merge (deltas_of id body) Obj.empty)
    /\ (member_states_not_empty E ->
        forall (id : string) (payload : JsObj),
          In (id, payload) published -> payload <> []).
Proof.
  destruct (onMQTTMessage_cases W E topic message w)
    as [(r & tr & -> & _ & Hq) | (t & r & d & json0 & _ & _ & _ & _ & ->)];
    unfold trace_of, ending_of; cbn [fst snd].
  - exists tr, []. cbn [map]. rewrite app_nil_r.
    split; [reflexivity|]. split; [now apply quiet_no_publish|].
    split; [constructor|]. split; [|easy].
    intros _ id. split; [easy|].
    intros H. apply H. now apply deltas_of_none, quiet_not_accumulated.
  - set (json := fst (home_assistant E (entityState_of E r) json0)).
    set (logged := snd (home_assistant E (entityState_of E r) json0)).
    set (st0 := {| usedConverters := Obj.empty; toPublish := Obj.empty;
                   trace := logged; world := w |}).
    set (loop := for_of E t r d json (entityState_of E r)
                   (ordered_entries E json) st0).
    set (st := snd loop).
    assert (Hq : Forall (fun ev => is_quiet ev = true) logged)
      by apply home_assistant_quiet.
    assert (Hm : buffer_is_merge st).
    { apply (for_of_invariant W E t r d json (entityState_of E r)
               (@buffer_is_merge W)).
      - intros kv s cpl s'. apply Step_buffer_is_merge.
      - split; [constructor|]. intros id. cbn [toPublish trace st0].
        now rewrite deltas_of_none by now apply quiet_not_accumulated. }
    assert (Hp : no_publish st).
    { apply (for_of_invariant W E t r d json (entityState_of E r) (@no_publish W)).
      - intros kv s cpl s'. apply Step_no_publish.
      - now apply quiet_no_publish. }
    assert (Hne : member_states_not_empty E -> buffer_not_empty st).
    { intros Hconv.
      apply (for_of_invariant W E t r d json (entityState_of E r)
               (@buffer_not_empty W)).
      * intros kv s cpl s'. now apply Step_buffer_not_empty.
      * intros id p. discriminate. }
    destruct Hm as [Hd Hg].
    exists (trace st).
    destruct (fst loop) as [| |error] eqn:Hloop; cbn [fst snd].
    3:{ exists []. cbn [map]. rewrite app_nil_r.
        split; [reflexivity|]. split; [exact Hp|]. split; [constructor|].
        split; [intros [r0 Hr0]; discriminate|]. easy. }
    all: exists (toPublish st).
    all: split; [reflexivity|]; split; [exact Hp|]; split; [exact Hd|].
    all: split;
      [intros _ id; split;
       [ intros Hin; apply ObjFacts.get_In_keys in Hin; rewrite Hg in Hin;
         now destruct (deltas_of id (trace st))
       | intros Hnone; apply ObjFacts.get_In_keys; rewrite Hg;
         now destruct (deltas_of id (trace st)) ]|].
    all: split; [intros [e He]; discriminate|].
    all: split;
      [ intros id payload Hin; apply (In_get _ _ _ Hd) in Hin;
        rewrite Hg in Hin; destruct (deltas_of id (trace st));
        [discriminate|]; now injection Hin
      | intros Hconv id payload Hin; apply (In_get _ _ _ Hd) in Hin;
        now apply (Hne Hconv id) ].
Qed.


(** ** Resolution and decoding *)

(** C8. When the entity of a parsed topic does not resolve, or resolves to
    a device without a definition, the handler returns before the loop: it
    returns undefined, no converter is called, no state is published and
    the world of the converters is as it was.  Something is published to
    the MQTT client only when the entity did not resolve and the legacy
    API is on, and it is then the [entity_not_found] record on
    [bridge/log]. *)
Theorem unresolved_entity_stops_the_message
        (W : Type) (E : Env W) (topic message : string) (w : W) (t : Topic) :
  parseTopic E topic = Some t ->
  (resolveEntity E (entityKey_of t) = None
   \/ exists n s dev ep,
       resolveEntity E (entityKey_of t) = Some (device_entity n s dev ep None)) ->
  let out := onMQTTMessage E topic message w in
  ending_of out = Ends returns_undefined
  /\ world_of out = w
  /\ Forall (fun ev => is_converter_call ev = false) (trace_of out)
  /\ Forall (fun ev => is_state_publish ev = false) (trace_of out)
  /\ (forall (tp : string) (payload : BridgeLog),
         In (mqtt_publish tp payload) (trace_of out) <->
         legacy_api E = true /\ resolveEntity E (entityKey_of t) = None /\
         tp = "bridge/log" /\ payload = entity_not_found (entityKey_of t)).
Proof.
  intros Ht Hr out. unfold out, onMQTTMessage. rewrite Ht.
  destruct Hr as [Hr | (n & s & dev & ep & Hr)]; rewrite Hr;
    unfold ending_of, world_of, trace_of; cbn [fst snd entity_details].
  - split; [reflexivity|]. split; [reflexivity|].
    split; [destruct (legacy_api E); now repeat constructor|].
    split; [destruct (legacy_api E); now repeat constructor|].
    intros tp payload. split.
    + intros Hin. destruct (legacy_api E); cbn in Hin.
      * destruct Hin as [Hin | [Hin | []]]; [|discriminate].
        injection Hin as <- <-. now repeat split.
      * destruct Hin as [Hin | []]. discriminate.
    + intros (Hl & _ & -> & ->). rewrite Hl. now left.
  - split; [reflexivity|]. split; [reflexivity|].
    split; [now repeat constructor|]. split; [now repeat constructor|].
    intros tp payload. split.
    + intros [Hin | [Hin | []]]; discriminate.
    + intros (_ & Hnone & _). discriminate.
Qed.

(** C5. For a topic without an attribute and a payload that [JSON.parse]
    rejects: when the payload in lower case is one of the state values, the
    decoded map is [{state: payload}]; otherwise the handler returns before
    the loop with a value that is not [true], calls no converter, publishes
    no state and leaves the world of the converters as it was, and for a
    resolved and supported entity it returns [false] with the one line
    [Invalid JSON] for the logger. *)
Theorem unparseable_payload_is_a_state_or_invalid
        (W : Type) (E : Env W) (topic message : string) (w : W) (t : Topic) :
  parseTopic E topic = Some t ->
  attribute t = None ->
  JSON_parse E message = None ->
  (string_in (Str.toLowerCase message) stateValues = true ->
   decode E t message = inr (JObj [("state", JStr message)]))
  /\ (string_in (Str.toLowerCase message) stateValues = false ->
      let out := onMQTTMessage E topic message w in
      (exists r, ending_of out = Ends r /\ r <> returns_true)
      /\ world_of out = w
      /\ Forall (fun ev => is_converter_call ev = false) (trace_of out)
      /\ Forall (fun ev => is_state_publish ev = false) (trace_of out)
      /\ (forall r d,
             resolveEntity E (entityKey_of t) = Some r ->
             entity_details E r = inr d ->
             out = (Ends returns_false,
                    [logger_error (Invalid_JSON_skipping message)], w))).
Proof.
  intros Ht Ha Hj.
  assert (Hd : decode E t message =
               if string_in (Str.toLowerCase message) stateValues
               then inr (JObj [("state", JStr message)])
               else inl (returns_false,
                         [logger_error (Invalid_JSON_skipping message)])).
  { unfold decode, has_attribute. rewrite Ha, Hj.
    now destruct (string_in _ _). }
  split; intros Hw; rewrite Hw in Hd; [exact Hd|].
  intros out.
  assert (Hcases : (exists r tr, out = (Ends r, tr, w) /\ r <> returns_true /\
                                 Forall (fun ev => is_quiet ev = true) tr)).
  { destruct (onMQTTMessage_cases W E topic message w)
      as [H | (t' & r & d & json0 & Ht' & _ & _ & Hd' & _)]; [exact H|].
    rewrite Ht in Ht'. injection Ht' as <-. congruence. }
  destruct Hcases as (r & tr & Hout & Hr & Hq). rewrite Hout.
  unfold ending_of, world_of, trace_of. cbn [fst snd]. repeat split.
  - now exists r.
  - now apply quiet_no_call.
  - now apply quiet_no_publish.
  - intros r0 d Hres Hdet. rewrite <- Hout. unfold out, onMQTTMessage.
    now rewrite Ht, Hres, Hdet, Hd.
Qed.

(** ** The converters of a group *)

Lemma In_Set_add (c x : ref) (s : list ref) :
  In x (Set_add c s) <-> x = c \/ In x s.
Proof.
  induction s as [|c' s IH]; simpl; [intuition|].
  destruct (Nat.eqb_spec c c') as [-> | Hne]; simpl; [intuition|].
  rewrite IH. intuition.
Qed.

Lemma NoDup_Set_add (c : ref) (s : list ref) : NoDup s -> NoDup (Set_add c s).
Proof.
  induction s as [|c' s IH]; simpl; intros Hd.
  - constructor; [easy | constructor].
  - destruct (Nat.eqb_spec c c') as [-> | Hne]; [exact Hd|].
    inversion Hd as [|? ? Hn Hd']; subst. constructor; [|now apply IH].
    rewrite In_Set_add. intuition.
Qed.

Lemma Set_of_from (l s : list ref) :
  (forall x, In x (fold_left (fun s c => Set_add c s) l s) <-> In x l \/ In x s)
  /\ (NoDup s -> NoDup (fold_left (fun s c => Set_add c s) l s)).
Proof.
  revert s. induction l as [|c l IH]; intros s; simpl; [intuition|].
  destruct (IH (Set_add c s)) as [Hin Hnd]. split.
  - intros x. rewrite Hin, In_Set_add. intuition.
  - intros Hd. now apply Hnd, NoDup_Set_add.
Qed.

Lemma In_Set_of (l : list ref) (x : ref) : In x (Set_of l) <-> In x l.
Proof. unfold Set_of. rewrite (proj1 (Set_of_from l [])). simpl. intuition. Qed.

Lemma NoDup_Set_of (l : list ref) : NoDup (Set_of l).
Proof. apply (proj2 (Set_of_from l [])). constructor. Qed.

(** The converters of the definitions of the members are those the
    members offer, one member after the other. *)
Lemma member_definitions_converters (W : Type) (E : Env W) (g : ref) :
  flat_map toZigbee (member_definitions E g)
  = flat_map (fun member =>
                match findByDevice E (getDevice E member) with
                | Some definition => toZigbee definition
                | None => []
                end) (members E g).
Proof.
  unfold member_definitions.
  induction (members E g) as [|member l IH]; [reflexivity|].
  cbn [flat_map]. rewrite flat_map_app, IH. f_equal.
  destruct (findByDevice E (getDevice E member)); [|reflexivity].
  cbn [flat_map]. apply app_nil_r.
Qed.

(** C7. The converters of a group are the converters that its members
    offer: those of the definition that [findByDevice] gives for the
    device of a member of the group.  Each of them is there once, in the
    order of the members and of the lists of their definitions.  When no
    member offers a converter, the converters of the group are the
    default converters.  These are the converters the handler works with
    for a group; and when no member offers one and the default converter
    [light_onoff_brightness] handles [state], that is the converter
    selected for [state]. *)
Theorem group_converters_union_or_default (W : Type) (E : Env W) (g : ref) :
  let offered (c : ref) : Prop :=
    exists (member : ref) (definition : Definition_),
      In member (members E g)
      /\ findByDevice E (getDevice E member) = Some definition
      /\ In c (toZigbee definition) in
  let union :=
    flat_map (fun member =>
                match findByDevice E (getDevice E member) with
                | Some definition => toZigbee definition
                | None => []
                end) (members E g) in
  ((exists c : ref, offered c) ->
   (forall c : ref, In c (group_converters E g) <-> offered c)
   /\ NoDup (group_converters E g)
   /\ group_converters E g = Set_of union)
  /\ ((forall c : ref, ~ offered c) ->
      group_converters E g = defaultGroupConverters E)
  /\ (forall (n : string) (s : EntitySettings),
         exists d, entity_details E (group_entity n s g) = inr d /\
                   converters d = group_converters E g /\ target d = Group g)
  /\ ((forall c : ref, ~ offered c) ->
      string_in "state"
        (key (converter_at E (toZigbeeConverters E "light_onoff_brightness")))
      = true ->
      find_converter E (group_converters E g) "state"
      = Some (toZigbeeConverters E "light_onoff_brightness")
      /\ In (toZigbeeConverters E "light_onoff_brightness")
            (defaultGroupConverters E)).
Proof.
  intros offered union.
  assert (Hoffered : forall c : ref, In c union <-> offered c).
  { intros c. unfold union, offered. rewrite in_flat_map. split.
    - intros (member & Hin & Hc).
      destruct (findByDevice E (getDevice E member)) as [definition|] eqn:Hf;
        [|easy].
      now exists member, definition.
    - intros (member & definition & Hin & Hf & Hc). exists member.
      now rewrite Hf. }
  assert (Hgroup : group_converters E g
                   = match Set_of union with
                     | [] => defaultGroupConverters E
                     | converters => converters
                     end).
  { unfold group_converters, union.
    rewrite member_definitions_converters. cbv zeta.
    now destruct (Set_of _). }
  assert (Hdefault : (forall c : ref, ~ offered c) ->
                     group_converters E g = defaultGroupConverters E).
  { intros Hnone. rewrite Hgroup.
    destruct (Set_of union) as [|c s] eqn:Hs; [reflexivity|].
    exfalso. apply (Hnone c), Hoffered, In_Set_of. rewrite Hs. now left. }
  split; [|split; [exact Hdefault|split]].
  - intros [c0 Hc0].
    assert (Hset : group_converters E g = Set_of union).
    { rewrite Hgroup. destruct (Set_of union) as [|c s] eqn:Hs; [|reflexivity].
      apply Hoffered, In_Set_of in Hc0. now rewrite Hs in Hc0. }
    rewrite Hset. split; [|split; [apply NoDup_Set_of | reflexivity]].
    intros c. now rewrite In_Set_of.
  - intros n s. eexists. repeat split.
  - intros Hnone Hstate. rewrite (Hdefault Hnone).
    split; [|unfold defaultGroupConverters; now left].
    unfold find_converter, defaultGroupConverters.
    cbn [map find]. now rewrite Hstate.
Qed.

Local Open Scope list_scope.
Local Open Scope string_scope.

(** ** Endpoint names in keys *)

Module SuffixFacts.
Import Str StrFacts.



Lemma no_line_terminator_append (a b : string) :
  no_line_terminator (a ++ b) = (no_line_terminator a && no_line_terminator b)%bool.
Proof.
  induction a as [|c a IH]; simpl; [reflexivity|].
  now rewrite IH, andb_assoc.
Qed.


Lemma append_inj_l (a b s : string) : a ++ s = b ++ s -> a = b.
Proof.
  revert b. induction a as [|c a IH]; intros b H.
  - destruct b as [|d b]; [reflexivity|]. exfalso.
    apply (f_equal String.length) in H. simpl in H. rewrite length_append in H. lia.
  - destruct b as [|d b].
    + exfalso. apply (f_equal String.length) in H. simpl in H.
      rewrite length_append in H. lia.
    + simpl in H. injection H as -> H. f_equal. now apply IH.
Qed.

Lemma all_digits_append (a b : string) :
  all_digits (a ++ b) = (all_digits a && all_digits b)%bool.
Proof.
  induction a as [|c a IH]; simpl; [reflexivity|]. now rewrite IH, andb_assoc.
Qed.

(** A key with an underscore in it is no array index. *)
Lemma array_index_underscore (a b : string) : array_index (a ++ "_" ++ b) = None.
Proof.
  unfold array_index.
  assert (H : all_digits (a ++ "_" ++ b) = false).
  { rewrite all_digits_append. simpl. apply andb_false_r. }
  rewrite H. now destruct (a ++ "_" ++ b).
Qed.

Lemma take_all_but_suffix (bare n : string) :
  take (String.length (bare ++ "_" ++ n) - String.length n - 1) (bare ++ "_" ++ n)
  = bare.
Proof.
  replace (String.length (bare ++ "_" ++ n) - String.length n - 1)
    with (String.length bare)
    by (rewrite !length_append; simpl String.length; lia).
  apply take_append.
Qed.

End SuffixFacts.

Local Open Scope string_scope.
Local Open Scope list_scope.

(** ** Putting the endpoint name back on a state *)

Section Resuffix.

Variable n : string.

Local Abbreviation suf k := (k ++ "_" ++ n)%string.
Local Abbreviation step := (attach_endpoint_name n).

Lemma suf_inj (a b : string) : suf a = suf b -> a = b.
Proof. apply SuffixFacts.append_inj_l. Qed.

Lemma keys_app {A : Type} (o p : Obj.t A) :
  Obj.keys (o ++ p) = Obj.keys o ++ Obj.keys p.
Proof. unfold Obj.keys. apply map_app. Qed.

Lemma resuffix_fold (R D : JsObj) :
  NoDup (Obj.keys R) ->
  (forall k, In k (Obj.keys R) -> ~ In k (Obj.keys D)) ->
  (forall k, In k (Obj.keys R) -> ~ In (suf k) (Obj.keys R)) ->
  (forall k, In k (Obj.keys R) -> ~ In (suf k) (Obj.keys D)) ->
  fold_left step (Obj.keys R) (R ++ D) = D ++ suffixed n R.
Proof.
  revert D. induction R as [|[k v] R IH]; intros D Hd H2 H3 H4.
  - simpl. now rewrite app_nil_r.
  - inversion Hd as [|? ? Hk Hd']; subst.
    cbn [Obj.keys map fst fold_left].
    assert (Hstep : step (((k, v) :: R) ++ D) k = R ++ (D ++ [(suf k, v)])).
    { unfold attach_endpoint_name. cbn [app Obj.get]. rewrite String.eqb_refl.
      rewrite ObjFacts.set_append.
      - cbn [app Obj.delete]. rewrite String.eqb_refl.
        rewrite ObjFacts.delete_absent; [symmetry; apply app_assoc|].
        rewrite !keys_app. cbn [Obj.keys map fst]. intros Hin.
        apply in_app_or in Hin as [Hin | [Hin | []]].
        + apply in_app_or in Hin as [Hin | Hin]; [apply Hk; exact Hin|].
          apply (H2 k); [now left | exact Hin].
        + apply (H3 k); [now left|]. left. symmetry. exact Hin.
      - change ((k, v) :: R ++ D) with (((k, v) :: R) ++ D).
        rewrite keys_app. intros Hin. apply in_app_or in Hin as [Hin | Hin].
        + now apply (H3 k); [left|].
        + now apply (H4 k); [left|].
      - apply SuffixFacts.array_index_underscore. }
    change (fold_left step (Obj.keys R) (step (((k, v) :: R) ++ D) k)
            = D ++ suffixed n ((k, v) :: R)).
    rewrite Hstep, IH.
    + cbn [suffixed map fst snd]. now rewrite <- app_assoc.
    + exact Hd'.
    + intros k' Hk'. rewrite keys_app. cbn [Obj.keys map fst]. intros Hin.
      apply in_app_or in Hin as [Hin | [Hin | []]].
      * apply (H2 k'); [now right | exact Hin].
      * apply (H3 k); [now left|]. right. now rewrite Hin.
    + intros k' Hk' Hin. apply (H3 k'); [now right|]. now right.
    + intros k' Hk'. rewrite keys_app. cbn [Obj.keys map fst]. intros Hin.
      apply in_app_or in Hin as [Hin | [Hin | []]].
      * apply (H4 k'); [now right | exact Hin].
      * apply suf_inj in Hin. subst k'. now apply Hk.
Qed.

(** When no key of the state is another key of it with the endpoint name
    attached, the loop of lines 236 to 239 attaches the name to every key
    and keeps values and order. *)
Lemma add_endpoint_name_suffixed (msg : JsObj) :
  n <> "" -> NoDup (Obj.keys msg) ->
  (forall k, In k (Obj.keys msg) -> ~ In (k ++ "_" ++ n)%string (Obj.keys msg)) ->
  add_endpoint_name n msg = suffixed n msg.
Proof.
  intros Hn Hd Hc. unfold add_endpoint_name.
  apply String.eqb_neq in Hn. rewrite Hn.
  rewrite <- (app_nil_r msg) at 2.
  change (fold_left step (Obj.keys msg) (msg ++ []) = suffixed n msg).
  rewrite resuffix_fold; auto.
Qed.

End Resuffix.

(** ** Cutting the endpoint name off the keys of the message *)

Section StripEndpointName.

Variable n : string.

Local Abbreviation step := (cut_endpoint_name n).
Local Abbreviation bare_forms_apart := (bare_forms_apart n).

Lemma strip_frame (L m : JsObj) (x : string) :
  (Str.endsWith x n = false \/ ~ In x (Obj.keys L)) ->
  (forall k, In k (Obj.keys L) -> Str.endsWith k n = true -> bare_key n k <> x) ->
  Obj.get x (fold_left step L m) = Obj.get x m.
Proof.
  revert m. induction L as [|[k0 v0] L IH]; intros m Hx Hb; [reflexivity|].
  cbn [fold_left]. rewrite IH.
  - unfold cut_endpoint_name. cbn [fst snd]. destruct (Str.endsWith k0 n) eqn:He; [|reflexivity].
    fold (bare_key n k0).
    rewrite ObjFacts.get_set, ObjFacts.get_delete.
    destruct (String.eqb_spec x (bare_key n k0)) as [-> | _].
    + exfalso. apply (Hb k0); [now left | exact He | reflexivity].
    + destruct (String.eqb_spec x k0) as [-> | _]; [|reflexivity].
      exfalso. destruct Hx as [Hx | Hx]; [congruence|]. apply Hx. now left.
  - destruct Hx as [Hx | Hx]; [now left|]. right. intros Hin. apply Hx. now right.
  - intros k Hk. apply Hb. now right.
Qed.

Lemma bare_forms_apart_tail (kv : string * JsVal) (L : JsObj) :
  bare_forms_apart (kv :: L) -> bare_forms_apart L.
Proof.
  intros [Hc Hi]. split.
  - intros k Hk. apply Hc. now right.
  - intros k1 k2 H1 H2. apply Hi; now right.
Qed.

Lemma strip_fold (L m : JsObj) (k : string) (v : JsVal) :
  NoDup (Obj.keys L) -> bare_forms_apart L ->
  In (k, v) L -> Str.endsWith k n = true ->
  Obj.get (bare_key n k) (fold_left step L m) = Some v
  /\ Obj.get k (fold_left step L m) = None.
Proof.
  revert m. induction L as [|[k0 v0] L IH]; intros m Hd Ha Hin He; [easy|].
  inversion Hd as [|? ? Hk0 Hd']; subst.
  destruct Hin as [Heq | Hin].
  - injection Heq as -> ->. destruct Ha as [Hc Hi]. cbn [fold_left].
    assert (Hbare : Str.endsWith (bare_key n k) n = false)
      by (apply Hc; [now left | exact He]).
    assert (Hne : k <> bare_key n k) by (intros Hk; congruence).
    rewrite !strip_frame.
    + unfold cut_endpoint_name. cbn [fst snd]. rewrite He. fold (bare_key n k).
      rewrite ObjFacts.get_set_same, ObjFacts.get_set_other by exact Hne.
      rewrite ObjFacts.get_delete, String.eqb_refl. now split.
    + now right.
    + intros k' Hk' He' Hb. apply Hne. symmetry. rewrite <- Hb.
      assert (Hb' : Str.endsWith (bare_key n k') n = false)
        by (apply Hc; [now right | exact He']).
      congruence.
    + now left.
    + intros k' Hk' He' Hb. apply Hk0.
      rewrite <- (Hi k' k); [exact Hk' | now right | now left | exact He' | exact He
                             | exact Hb].
  - cbn [fold_left]. apply IH; auto. now apply bare_forms_apart_tail in Ha.
Qed.

(** In the message of [meta], a key of the decoded message that ends with
    the endpoint name is gone, and its value stands under the bare key. *)
Lemma strip_endpoint_name_bare (msg : JsObj) (k : string) (v : JsVal) :
  n <> "" -> NoDup (Obj.keys msg) -> bare_forms_apart msg ->
  In (k, v) msg -> Str.endsWith k n = true ->
  Obj.get (bare_key n k) (strip_endpoint_name n msg) = Some v
  /\ Obj.get k (strip_endpoint_name n msg) = None.
Proof.
  intros Hn Hd Ha Hin He. unfold strip_endpoint_name.
  apply String.eqb_neq in Hn. rewrite Hn.
  now apply (strip_fold msg msg k v).
Qed.

End StripEndpointName.

Local Open Scope list_scope.
Local Open Scope string_scope.

(** ** A key with an endpoint name *)

Section Returned.

Variable W : Type.
Variable E : Env W.
Variable topic : Topic.
Variable resolvedEntity : ResolvedEntity.
Variable details : Details.
Variable json : JsVal.
Variable entityState : JsObj.
Implicit Types (st : LoopState W) (kv : entry).

Local Abbreviation loop_body := (loop_body E topic resolvedEntity details json entityState).
Local Abbreviation route := (route E topic resolvedEntity details).
Local Abbreviation meta_of := (meta_of details json entityState).
Local Abbreviation after_convertSet := (after_convertSet resolvedEntity details).
Local Abbreviation announce_set := (announce_set resolvedEntity).
Local Abbreviation announce_get := (announce_get resolvedEntity).
Local Abbreviation find_converter := (find_converter E (converters details)).


(** A read that returns. *)
Lemma loop_body_get_returned kv st (ep id : string) (tgt : Target) (k : string)
      (c : ref) f (u : unit) (w : W) :
  type topic = get ->
  route (fst kv) = routed ep id tgt k ->
  find_converter k = Some c ->
  convertGet (converter_at E c) = Some f ->
  f tgt k (meta_of ep) (world st) = (Returned u, w) ->
  loop_body kv st =
  (Normal,
   push_used id c
     (with_world w (announce_get c id tgt k (meta_of ep) (ensure_used id st)))).
Proof.
  intros Ht Hr Hc Hf Hcall. unfold_loop_body.
  rewrite Hr, Hc, Ht. cbn [is_set andb].
  unfold try_block. rewrite Ht, Hf.
  destruct (convertSet (converter_at E c)); cbv zeta;
    replace (world (announce_get c id tgt k (meta_of ep) (ensure_used id st)))
      with (world st) by (symmetry; apply world_ensure_used);
    now rewrite Hcall.
Qed.

End Returned.

Lemma NoDup_spread (o : JsObj) : NoDup (Obj.keys (Obj.spread o)).
Proof. apply ObjFacts.NoDup_merge. constructor. Qed.



(** ** The theorems at work on the example *)

(** C4, the claim as it stands: for [{"state":"ON","brightness":200}] V8
    puts [brightness] before [state], and the stable order of the
    specification keeps [state] first. *)
Lemma ordered_entries_not_stable :
  ordered_entries (Example.E false) Example.json_state_brightness
  = [("brightness", JNum 200); ("state", JStr "ON")]
  /\ Attribute_Orderer_spec Example.json_state_brightness
     = [("state", JStr "ON"); ("brightness", JNum 200)]
  /\ ordered_entries (Example.E false) Example.json_state_brightness
     <> Attribute_Orderer_spec Example.json_state_brightness.
Proof. repeat split. discriminate. Qed.

Lemma ordered_entries_V8_witness :
  (List.length (Object_entries Example.json_state_brightness) < 64)%nat
  /\ Permutation (Object_entries Example.json_state_brightness)
       (ordered_entries (Example.E false) Example.json_state_brightness).
Proof.
  assert (Hlen : (List.length (Object_entries Example.json_state_brightness) < 64)%nat)
    by (vm_compute; lia).
  split; [exact Hlen|].
  exact (proj1 (ordered_entries_V8 nat (Example.E false)
                  Example.json_state_brightness
                  (fun _ _ => eq_refl) Hlen)).
Defined.

(** C5: the payload [ON] on [zigbee2mqtt/lamp1/set]. *)
Lemma unparseable_payload_witness :
  decode (Example.E false) Example.set_topic "ON"
  = inr (JObj [("state", JStr "ON")]).
Proof.
  exact (proj1 (unparseable_payload_is_a_state_or_invalid nat (Example.E false)
                  "zigbee2mqtt/lamp1/set" "ON" 0 Example.set_topic
                  eq_refl eq_refl eq_refl) eq_refl).
Defined.



(** C8: nobody is called [nobody]. *)
Lemma unresolved_entity_witness :
  ending_of (onMQTTMessage (Example.E true) "zigbee2mqtt/nobody/set" "ON" 0)
  = Ends returns_undefined.
Proof.
  exact (proj1 (unresolved_entity_stops_the_message nat (Example.E true)
                  "zigbee2mqtt/nobody/set" "ON" 0
                  {| ID := "nobody"; endpointName := ""; type := set;
                     attribute := None |}
                  eq_refl (or_introl eq_refl))).
Defined.

(** C10: [color], then [color_temp], on a lamp that does not answer. *)
Lemma thrown_write_witness :
  In (Some 1)
    (used_at "11"
       (snd (loop_body (Example.E false) Example.set_topic Example.lamp
               Example.lamp_details
               (JObj [("color", JStr "red"); ("color_temp", JNum 300)]) []
               ("color", JStr "red") (Example.start 0)))).
Proof.
  refine (proj1 (proj2 (proj1 (thrown_write_still_marks_converter_used nat
                                 (Example.E false)
                                 Example.set_topic Example.lamp Example.lamp_details
                                 (JObj [("color", JStr "red");
                                        ("color_temp", JNum 300)]) []
                                 ("color", JStr "red") (Example.start 0)
                                 "" "11" (Endpoint 11) "color" 1
                                 (fun _ _ _ _ w => (Thrown Example.timeout, S w))
                                 Example.timeout 1
                                 eq_refl eq_refl eq_refl _ eq_refl eq_refl)
                          eq_refl))).
  intros [].
Defined.

(** C10, the claim as it stands: the converter for [color] rejects with
    [undefined]; line 282 throws, the body ends there and the converter is
    not recorded. *)
Lemma undefined_rejection_is_not_recorded :
  loop_body (Example.E_rejecting false) Example.set_topic Example.lamp
    Example.lamp_details
    (JObj [("color", JStr "red"); ("state", JStr "OFF")]) []
    ("color", JStr "red") (Example.start 0)
  = (Throw (TypeError_at 282),
     {| usedConverters := [("11", [])];
        toPublish := [];
        trace :=
          [logger_debug (Publishing_to set "color" "lamp1");
           call_convertSet 1 "11" (Endpoint 11) "color" (JStr "red")
             {| endpoint_name := "";
                options := Example.lamp_settings;
                message := [("color", JStr "red"); ("state", JStr "OFF")];
                meta_device := Some 10;
                state := [];
                membersState := None;
                mapped := mapped_device Example.lamp_definition |};
           logger_error (Publish_failed set "color" "lamp1" error_undefined)];
        world := 1 |}).
Proof. reflexivity. Qed.

(** C3, the claim as it stands: the converter for [effect] returns an empty
    state for the member [0x0b], and that is published.  And on the lamp
    whose definition has no [endpoint], [brightness] is written and its
    state accumulated, then line 181 throws for [state_left]: the call
    ends with the exception and the state is never published. *)
Lemma empty_member_state_is_published :
  onMQTTMessage (Example.E_more false false) "zigbee2mqtt/lamp2/set"
    Example.payload_brightness_state_left 0
  = (Raises (TypeError_at 181),
     [logger_debug (Publishing_to set "brightness" "lamp2");
      call_convertSet 0 "41" (Endpoint 41) "brightness" (JNum 200)
        {| endpoint_name := "";
           options := Example.readback_settings;
           message := [("brightness", JNum 200); ("state_left", JStr "ON")];
           meta_device := Some 40;
           state := [];
           membersState := None;
           mapped := mapped_device Example.lamp2_definition |};
      accumulated "0x0c" [("brightness", JNum 200)]],
     1)
  /\ trace_of (onMQTTMessage (Example.E false) "zigbee2mqtt/group1/set"
              Example.payload_effect 0)
  = [logger_debug (Publishing_to set "effect" "group1");
     call_convertSet 2 "1" (Group 30) "effect" (JStr "blink")
       {| endpoint_name := "";
          options := Example.group_settings;
          message := [("effect", JStr "blink")];
          meta_device := None;
          state := [];
          membersState := Some [];
          mapped := mapped_group [] |};
     accumulated "0x0b" [];
     publishEntityState "0x0b" []].
Proof. split; reflexivity. Qed.

(** C1: [brightness] and [state] on the lamp are one write: once
    [brightness] is written, [state] is passed over. *)
Lemma converter_written_once_witness :
  convertSet_calls 0 "11"
    (trace_of (onMQTTMessage (Example.E false) "zigbee2mqtt/lamp1/set"
                 Example.payload_state_brightness 0)) <= 1
  /\ loop_body (Example.E false) Example.set_topic Example.lamp
       Example.lamp_details Example.json_state_brightness []
       ("state", JStr "ON")
       (snd (loop_body (Example.E false) Example.set_topic Example.lamp
               Example.lamp_details Example.json_state_brightness []
               ("brightness", JNum 200) (Example.start 0)))
     = (Continue,
        snd (loop_body (Example.E false) Example.set_topic Example.lamp
               Example.lamp_details Example.json_state_brightness []
               ("brightness", JNum 200) (Example.start 0))).
Proof.
  split.
  - exact (proj1 (converter_written_once_per_identifier nat (Example.E false))
             "zigbee2mqtt/lamp1/set" Example.payload_state_brightness 0 0 "11").
  - refine (proj2 (proj2 (proj2 (converter_written_once_per_identifier nat
                                   (Example.E false))))
              Example.set_topic Example.lamp Example.lamp_details
              Example.json_state_brightness [] ("state", JStr "ON") _
              "" "11" (Endpoint 11) "state" 0
              eq_refl eq_refl eq_refl _).
    left. reflexivity.
Defined.



Lemma lamps_member_states_not_empty :
  member_states_not_empty (Example.E_lamps false).
Proof.
  intros c f tgt k v m w r w' ms id p Hf Hcall Hms _.
  destruct c as [|[|c]]; cbn in Hf; try discriminate;
    injection Hf as <-; cbn in Hcall; try discriminate.
  injection Hcall as <- _. discriminate.
Qed.

(** C3: on the lamps, what is published at the end is not empty. *)
Lemma publish_buffer_witness :
  exists (body : list Event) (published : list (string * JsObj)),
    trace_of (onMQTTMessage (Example.E_lamps false) "zigbee2mqtt/lamp1/set"
                Example.payload_state_brightness 0)
    = (body
       ++ map (fun kv => publishEntityState (fst kv) (snd kv)) published)%list
    /\ Forall (fun ev => is_state_publish ev = false) body
    /\ (forall (id : string) (payload : JsObj),
           In (id, payload) published -> payload <> []).
Proof.
  destruct (publish_buffer_flushed_at_end nat (Example.E_lamps false)
              "zigbee2mqtt/lamp1/set" Example.payload_state_brightness 0)
    as (body & published & Htrace & Hbody & _ & _ & _ & _ & Hfull).
  exists body, published.
  exact (conj Htrace (conj Hbody (Hfull lamps_member_states_not_empty))).
Defined.

(** C7: a group of the two lamps works with the converters of both, the
    one they share once; the group without members works with the
    default converters, and [state] selects the first of them. *)
Lemma group_converters_default_witness :
  group_converters Example.E_group 30 = [0; 1; 4]
  /\ find_converter (Example.E false) (group_converters (Example.E false) 30)
       "state"
     = Some 0.
Proof.
  split.
  - refine (proj2 (proj2 (proj1 (group_converters_union_or_default nat
                                   Example.E_group 30) _))).
    exists 0, 11, Example.lamp_definition.
    split; [now left | split; [reflexivity | now left]].
  - refine (proj1 (proj2 (proj2 (proj2
              (group_converters_union_or_default nat (Example.E false) 30)))
              _ eq_refl)).
    intros c (member & definition & [] & _).
Defined.



Local Open Scope string_scope.
Local Open Scope list_scope.

(** * Further properties of the handler *)

(** ** What a run adds to the trace *)

Section TraceOfLoop.

Variable W : Type.
Variable E : Env W.
Implicit Types (st : LoopState W) (kv : entry) (cpl : Completion).

Lemma trace_members (ms : Obj.t JsObj) st :
  trace (fold_left (fun st p => addToToPublish (fst p) (snd p) st) ms st)
  = trace st ++ map (fun p => accumulated (fst p) (snd p)) ms.
Proof.
  revert st. induction ms as [|p ms IH]; intros st; simpl;
    [now rewrite app_nil_r|].
  rewrite IH, trace_addToToPublish, <- app_assoc. reflexivity.
Qed.

Lemma toPublish_not_optimistic (r : ResolvedEntity) (d : Details) (c : ref)
      (ep : string) (tgt : Target) (k : string) (m : Meta)
      (result : option Result) st :
  is_optimistic (details_options d) = false ->
  toPublish (after_convertSet r d c ep tgt k m result st) = toPublish st.
Proof.
  intros Ho. unfold after_convertSet. rewrite Ho.
  destruct result as [[[msg|] [ms|] [delay|]]|]; try reflexivity;
    now destruct (is_device r && retrieve_state (entity_settings r)).
Qed.

Section Message.

Variable topic : Topic.
Variable resolvedEntity : ResolvedEntity.
Variable details : Details.
Variable json : JsVal.
Variable entityState : JsObj.

Local Abbreviation Step := (Step E topic resolvedEntity details json entityState).
Local Abbreviation for_of := (for_of E topic resolvedEntity details json entityState).
Local Abbreviation catch_events := (catch_events E topic resolvedEntity).
Local Abbreviation loop_event :=
  (loop_event (legacy_api E) (type topic) resolvedEntity details).

Lemma timers_follow_writes_app (a b : list Event) :
  timers_follow_writes a -> timers_follow_writes b ->
  timers_follow_writes (a ++ b).
Proof.
  intros Ha Hb c tgt k m delay Hin. apply in_app_or in Hin as [Hin | Hin].
  - destruct (Ha _ _ _ _ _ Hin) as (id & v & H). exists id, v.
    apply in_or_app. now left.
  - destruct (Hb _ _ _ _ _ Hin) as (id & v & H). exists id, v.
    apply in_or_app. now right.
Qed.

Lemma quiet_no_timer (evs : list Event) :
  Forall (fun ev => is_quiet ev = true) evs -> timers_follow_writes evs.
Proof.
  intros H c tgt k m delay Hin. rewrite Forall_forall in H.
  apply H in Hin. discriminate.
Qed.

Lemma catch_events_loop (k : string) (error : JsError) :
  Forall (fun ev => loop_event ev = true) (catch_events k error).
Proof.
  unfold_catch.
  destruct (is_nullish error), (legacy_api E) eqn:Hl; repeat constructor.
Qed.

(** What the handling of a result adds, after the call [call]. *)
Lemma trace_after_convertSet (c : ref) (ep : string) (tgt : Target)
      (k : string) (m : Meta) (result : option Result) st :
  type topic = set ->
  exists evs : list Event,
    trace (after_convertSet resolvedEntity details c ep tgt k m result st)
    = trace st ++ evs
    /\ Forall (fun ev => loop_event ev = true) evs
    /\ forall (c' : ref) (tgt' : Target) (k' : string) (m' : Meta) (delay : Z),
        In (setTimeout_convertGet c' tgt' k' m' delay) evs ->
        c' = c /\ tgt' = tgt /\ k' = k /\ m' = m.
Proof.
  intros Ht. unfold after_convertSet.
  set (st1 := match result with
              | Some {| result_state := Some msg |} => _
              | _ => st
              end).
  assert (H1 : exists evs, trace st1 = trace st ++ evs
                           /\ Forall (fun ev => loop_event ev = true) evs
                           /\ Forall (fun ev => is_timer ev = false) evs).
  { unfold st1. destruct result as [[[msg|] ms rt]|];
      try (exists []; now rewrite app_nil_r).
    destruct (is_optimistic (details_options details)) eqn:Ho;
      [|exists []; now rewrite app_nil_r].
    destruct (negb _); [|exists []; now rewrite app_nil_r].
    eexists [_]. rewrite trace_addToToPublish. split; [reflexivity|].
    split; repeat constructor. cbn. now rewrite Ht, Ho. }
  clearbody st1. destruct H1 as (evs1 & Ht1 & Hl1 & Hn1).
  set (st2 := match result with
              | Some {| result_membersState := Some ms |} => _
              | _ => st1
              end).
  assert (H2 : exists evs, trace st2 = trace st1 ++ evs
                           /\ Forall (fun ev => loop_event ev = true) evs
                           /\ Forall (fun ev => is_timer ev = false) evs).
  { unfold st2. destruct result as [[msg [ms|] rt]|];
      try (exists []; now rewrite app_nil_r).
    destruct (is_optimistic (details_options details)) eqn:Ho;
      [|exists []; now rewrite app_nil_r].
    eexists. rewrite trace_members. split; [reflexivity|].
    split; apply Forall_forall; intros ev Hin; apply in_map_iff in Hin;
      destruct Hin as (p & <- & _); cbn; [now rewrite Ht, Ho | reflexivity]. }
  clearbody st2. destruct H2 as (evs2 & Ht2 & Hl2 & Hn2).
  assert (Hnone : forall evs3, Forall (fun ev => is_timer ev = false) evs3 ->
            forall c' tgt' k' m' delay,
              In (setTimeout_convertGet c' tgt' k' m' delay) evs3 ->
              c' = c /\ tgt' = tgt /\ k' = k /\ m' = m).
  { intros evs3 H c' tgt' k' m' delay Hin. rewrite Forall_forall in H.
    apply H in Hin. discriminate. }
  assert (Hno : Forall (fun ev => is_timer ev = false) (evs1 ++ evs2))
    by (apply Forall_app; now split).
  assert (Hl : Forall (fun ev => loop_event ev = true) (evs1 ++ evs2))
    by (apply Forall_app; now split).
  destruct result as [[msg ms [delay|]]|].
  2,3: exists (evs1 ++ evs2); rewrite Ht2, Ht1, <- app_assoc;
       (split; [reflexivity | split; [exact Hl | now apply Hnone]]).
  destruct (is_device resolvedEntity
            && retrieve_state (entity_settings resolvedEntity)) eqn:Hdev.
  2: exists (evs1 ++ evs2); rewrite Ht2, Ht1, <- app_assoc;
     (split; [reflexivity | split; [exact Hl | now apply Hnone]]).
  exists ((evs1 ++ evs2) ++ [setTimeout_convertGet c tgt k m delay]).
  rewrite trace_emit, Ht2, Ht1, <- !app_assoc. split; [reflexivity|].
  rewrite !app_assoc. split.
  - apply Forall_app. split; [exact Hl|]. repeat constructor. cbn.
    rewrite Ht. exact Hdev.
  - intros c' tgt' k' m' delay' Hin. apply in_app_or in Hin as [Hin | Hin].
    + now apply (Hnone _ Hno) in Hin.
    + destruct Hin as [Heq | []]. now injection Heq as <- <- <- <- _.
Qed.

(** Every path through the body adds events of the loop. *)
Lemma Step_loop_events kv st cpl st' :
  Step kv st cpl st' ->
  exists evs : list Event,
    trace st' = trace st ++ evs
    /\ Forall (fun ev => loop_event ev = true) evs
    /\ timers_follow_writes evs.
Proof.
  destruct 1.
  - exists []. rewrite app_nil_r.
    repeat split; [constructor | now apply quiet_no_timer].
  - exists [logger_error
              (Device_has_no_endpoint (entity_name resolvedEntity) n)].
    repeat split; [repeat constructor | now apply quiet_no_timer; repeat constructor].
  - exists []. autorewrite with frames. rewrite app_nil_r.
    repeat split; [constructor | now apply quiet_no_timer].
  - eexists [_]. autorewrite with frames.
    repeat split; [repeat constructor | now apply quiet_no_timer; repeat constructor].
  - eexists [_]. autorewrite with frames.
    repeat split; [repeat constructor | now apply quiet_no_timer; repeat constructor].
  - eexists ([_; _] ++ catch_events k error). autorewrite with frames.
    rewrite <- app_assoc. split; [reflexivity|]. split.
    + apply Forall_app. split; [|apply catch_events_loop].
      repeat constructor. cbn. now rewrite H1.
    + intros c' tgt' k' m' delay Hin. exfalso.
      apply in_app_or in Hin as [Hin | Hin].
      * destruct Hin as [Hin | [Hin | []]]; discriminate.
      * pose proof (catch_events_quiet W E topic resolvedEntity k error) as Hq.
        rewrite Forall_forall in Hq. apply Hq in Hin. discriminate.
  - eexists ([_; _] ++ catch_events k error). autorewrite with frames.
    rewrite <- app_assoc. split; [reflexivity|]. split.
    + apply Forall_app. split; [|apply catch_events_loop].
      repeat constructor. cbn. now rewrite H1.
    + intros c' tgt' k' m' delay Hin. exfalso.
      apply in_app_or in Hin as [Hin | Hin].
      * destruct Hin as [Hin | [Hin | []]]; discriminate.
      * pose proof (catch_events_quiet W E topic resolvedEntity k error) as Hq.
        rewrite Forall_forall in Hq. apply Hq in Hin. discriminate.
  - destruct (trace_after_convertSet c ep tgt k (meta_of details json entityState ep)
                result
                (with_world w
                   (announce_set resolvedEntity c id tgt k (snd kv)
                      (meta_of details json entityState ep) (ensure_used id st)))
                H1)
      as (evs & Ht & Hl & Htimer).
    exists ([logger_debug (Publishing_to set k (entity_name resolvedEntity));
             call_convertSet c id tgt k (snd kv)
               (meta_of details json entityState ep)] ++ evs).
    rewrite trace_push_used, Ht. autorewrite with frames.
    rewrite <- app_assoc. split; [reflexivity|]. split.
    + apply Forall_app. split; [|exact Hl]. repeat constructor. cbn.
      now rewrite H1.
    + intros c' tgt' k' m' delay Hin. apply in_app_or in Hin as [Hin | Hin].
      * destruct Hin as [Hin | [Hin | []]]; discriminate.
      * destruct (Htimer _ _ _ _ _ Hin) as (-> & -> & -> & ->).
        exists id, (snd kv). right. now left.
  - eexists ([_; _] ++ catch_events k error). autorewrite with frames.
    rewrite <- app_assoc. split; [reflexivity|]. split.
    + apply Forall_app. split; [|apply catch_events_loop].
      repeat constructor. cbn. now rewrite H1.
    + intros c' tgt' k' m' delay Hin. exfalso.
      apply in_app_or in Hin as [Hin | Hin].
      * destruct Hin as [Hin | [Hin | []]]; discriminate.
      * pose proof (catch_events_quiet W E topic resolvedEntity k error) as Hq.
        rewrite Forall_forall in Hq. apply Hq in Hin. discriminate.
  - eexists ([_; _] ++ catch_events k error). autorewrite with frames.
    rewrite <- app_assoc. split; [reflexivity|]. split.
    + apply Forall_app. split; [|apply catch_events_loop].
      repeat constructor. cbn. now rewrite H1.
    + intros c' tgt' k' m' delay Hin. exfalso.
      apply in_app_or in Hin as [Hin | Hin].
      * destruct Hin as [Hin | [Hin | []]]; discriminate.
      * pose proof (catch_events_quiet W E topic resolvedEntity k error) as Hq.
        rewrite Forall_forall in Hq. apply Hq in Hin. discriminate.
  - eexists [_; _]. autorewrite with frames. split; [reflexivity|]. split.
    + repeat constructor. cbn. now rewrite H1.
    + intros c' tgt' k' m' delay [Hin | [Hin | []]]; discriminate.
Qed.

Lemma for_of_loop_events (entries : list entry) st :
  exists evs : list Event,
    trace (snd (for_of entries st)) = trace st ++ evs
    /\ Forall (fun ev => loop_event ev = true) evs
    /\ timers_follow_writes evs.
Proof.
  revert st. induction entries as [|kv rest IH]; intros st.
  - exists []. cbn. rewrite app_nil_r.
    repeat split; [constructor | now apply quiet_no_timer].
  - rewrite for_of_cons.
    destruct (Step_loop_events kv st _ _
                (loop_body_Step W E topic resolvedEntity details json
                   entityState kv st)) as (evs1 & Ht1 & Hl1 & Hw1).
    destruct (IH (snd (loop_body E topic resolvedEntity details json
                         entityState kv st))) as (evs2 & Ht2 & Hl2 & Hw2).
    destruct (fst (loop_body E topic resolvedEntity details json entityState
                     kv st)); cbn [snd];
      try (exists evs1; now repeat split).
    all: exists (evs1 ++ evs2); rewrite Ht2, Ht1, <- app_assoc.
    all: repeat split; [now apply Forall_app | now apply timers_follow_writes_app].
Qed.

(** A call is the call for the entry: the converter found for the key the
    entry is routed under, with the value of the entry. *)
Lemma Step_calls_of_entry kv st cpl st' :
  Step kv st cpl st' ->
  exists evs : list Event,
    trace st' = trace st ++ evs
    /\ Forall (fun ev =>
                 is_converter_call ev = true ->
                 exists (ep id : string) (tgt : Target) (k : string) (c : ref),
                   route E topic resolvedEntity details (fst kv)
                   = routed ep id tgt k
                   /\ find_converter E (converters details) k = Some c
                   /\ (ev = call_convertSet c id tgt k (snd kv)
                              (meta_of details json entityState ep)
                       \/ ev = call_convertGet c id tgt k
                                 (meta_of details json entityState ep))) evs.
Proof.
  assert (Hquiet : forall evs : list Event,
            Forall (fun ev => is_converter_call ev = false) evs ->
            Forall (fun ev =>
                 is_converter_call ev = true ->
                 exists (ep id : string) (tgt : Target) (k : string) (c : ref),
                   route E topic resolvedEntity details (fst kv)
                   = routed ep id tgt k
                   /\ find_converter E (converters details) k = Some c
                   /\ (ev = call_convertSet c id tgt k (snd kv)
                              (meta_of details json entityState ep)
                       \/ ev = call_convertGet c id tgt k
                                 (meta_of details json entityState ep))) evs).
  { intros evs. apply Forall_impl. intros ev Hev Hcall. congruence. }
  destruct 1.
  - exists []. rewrite app_nil_r. split; [reflexivity | constructor].
  - eexists [_]. split; [reflexivity|]. apply Hquiet. now repeat constructor.
  - exists []. autorewrite with frames. rewrite app_nil_r. split; [reflexivity|].
    constructor.
  - eexists [_]. autorewrite with frames. split; [reflexivity|].
    apply Hquiet. now repeat constructor.
  - eexists [_]. autorewrite with frames. split; [reflexivity|].
    apply Hquiet. now repeat constructor.
  - eexists ([_; _] ++ catch_events k error). autorewrite with frames.
    rewrite <- app_assoc. split; [reflexivity|].
    apply Forall_app. split.
    + constructor; [discriminate|]. constructor; [|constructor].
      intros _. exists ep, id, tgt, k, c. repeat split; auto.
    + apply Hquiet, quiet_no_call, catch_events_quiet.
  - eexists ([_; _] ++ catch_events k error). autorewrite with frames.
    rewrite <- app_assoc. split; [reflexivity|].
    apply Forall_app. split.
    + constructor; [discriminate|]. constructor; [|constructor].
      intros _. exists ep, id, tgt, k, c. repeat split; auto.
    + apply Hquiet, quiet_no_call, catch_events_quiet.
  - destruct (Accumulates_trace W _ _ _
                (after_convertSet_Accumulates W resolvedEntity details c ep tgt k
                   (meta_of details json entityState ep) result
                   (with_world w
                      (announce_set resolvedEntity c id tgt k (snd kv)
                         (meta_of details json entityState ep)
                         (ensure_used id st)))))
      as (evs & Ht & Hint).
    exists ([logger_debug (Publishing_to set k (entity_name resolvedEntity));
             call_convertSet c id tgt k (snd kv)
               (meta_of details json entityState ep)] ++ evs).
    rewrite trace_push_used, Ht. autorewrite with frames.
    rewrite <- app_assoc. split; [reflexivity|].
    apply Forall_app. split.
    + constructor; [discriminate|]. constructor; [|constructor].
      intros _. exists ep, id, tgt, k, c. repeat split; auto.
    + now apply Hquiet, internal_no_call.
  - eexists ([_; _] ++ catch_events k error). autorewrite with frames.
    rewrite <- app_assoc. split; [reflexivity|].
    apply Forall_app. split.
    + constructor; [discriminate|]. constructor; [|constructor].
      intros _. exists ep, id, tgt, k, c. repeat split; auto.
    + apply Hquiet, quiet_no_call, catch_events_quiet.
  - eexists ([_; _] ++ catch_events k error). autorewrite with frames.
    rewrite <- app_assoc. split; [reflexivity|].
    apply Forall_app. split.
    + constructor; [discriminate|]. constructor; [|constructor].
      intros _. exists ep, id, tgt, k, c. repeat split; auto.
    + apply Hquiet, quiet_no_call, catch_events_quiet.
  - eexists [_; _]. autorewrite with frames. split; [reflexivity|].
    constructor; [discriminate|]. constructor; [|constructor].
    intros _. exists ep, id, tgt, k, c. repeat split; auto.
Qed.

Lemma for_of_calls_of_entries (entries : list entry) st :
  exists evs : list Event,
    trace (snd (for_of entries st)) = trace st ++ evs
    /\ Forall (fun ev =>
                 is_converter_call ev = true ->
                 exists (kv : entry) (ep id : string) (tgt : Target)
                        (k : string) (c : ref),
                   In kv entries
                   /\ route E topic resolvedEntity details (fst kv)
                      = routed ep id tgt k
                   /\ find_converter E (converters details) k = Some c
                   /\ (ev = call_convertSet c id tgt k (snd kv)
                              (meta_of details json entityState ep)
                       \/ ev = call_convertGet c id tgt k
                                 (meta_of details json entityState ep))) evs.
Proof.
  revert st. induction entries as [|kv rest IH]; intros st.
  - exists []. cbn. rewrite app_nil_r. split; [reflexivity | constructor].
  - rewrite for_of_cons.
    destruct (Step_calls_of_entry kv st _ _
                (loop_body_Step W E topic resolvedEntity details json
                   entityState kv st)) as (evs1 & Ht1 & Hc1).
    destruct (IH (snd (loop_body E topic resolvedEntity details json
                         entityState kv st))) as (evs2 & Ht2 & Hc2).
    assert (Hc1' : Forall (fun ev =>
                 is_converter_call ev = true ->
                 exists (kv0 : entry) (ep id : string) (tgt : Target)
                        (k : string) (c : ref),
                   In kv0 (kv :: rest)
                   /\ route E topic resolvedEntity details (fst kv0)
                      = routed ep id tgt k
                   /\ find_converter E (converters details) k = Some c
                   /\ (ev = call_convertSet c id tgt k (snd kv0)
                              (meta_of details json entityState ep)
                       \/ ev = call_convertGet c id tgt k
                                 (meta_of details json entityState ep))) evs1).
    { revert Hc1. apply Forall_impl. intros ev Hev Hcall.
      destruct (Hev Hcall) as (ep & id & tgt & k & c & H).
      exists kv, ep, id, tgt, k, c. split; [now left | exact H]. }
    destruct (fst (loop_body E topic resolvedEntity details json entityState
                     kv st)); cbn [snd];
      try (exists evs1; now split).
    all: exists (evs1 ++ evs2); rewrite Ht2, Ht1, <- app_assoc.
    all: split; [reflexivity|]; apply Forall_app; split; [exact Hc1'|].
    all: revert Hc2; apply Forall_impl; intros ev Hev Hcall;
      destruct (Hev Hcall) as (kv' & ep & id & tgt & k & c & Hin & H);
      exists kv', ep, id, tgt, k, c; (split; [now right | exact H]).
Qed.

End Message.

Lemma all_get_None {A : Type} (o : Obj.t A) :
  (forall id, Obj.get id o = None) -> o = [].
Proof.
  destruct o as [|[k v] o]; [reflexivity|]. intros H. specialize (H k).
  simpl in H. now rewrite String.eqb_refl in H.
Qed.

Lemma details_of_entity (r : ResolvedEntity) (d : Details) :
  entity_details E r = inr d ->
  details_options d = entity_settings r
  /\ target d = match r with
                | device_entity _ _ _ endpoint_ _ => Endpoint endpoint_
                | group_entity _ _ g => Group g
                end.
Proof.
  destruct r as [n s dev ep [def|] | n s g]; simpl; intros H;
    try discriminate; injection H as <-; now split.
Qed.

(** A call of the handler returns before the loop with lines for the
    logger and the MQTT client only, or it runs the loop: after what the
    Home Assistant adjustment logged come events of the loop, and then the
    publications, of which there are none when nothing was accumulated and
    when the loop ended with an exception. *)
Lemma onMQTTMessage_run (topic message : string) (w : W) :
  (exists r tr,
      onMQTTMessage E topic message w = (Ends r, tr, w) /\
      r <> returns_true /\
      Forall (fun ev => is_quiet ev = true) tr)
  \/ exists t r d json0 (evs : list Event) (tp : Obj.t JsObj) (w' : W)
            (ending : Ending),
      parseTopic E topic = Some t /\
      resolveEntity E (entityKey_of t) = Some r /\
      entity_details E r = inr d /\
      decode E t message = inr json0 /\
      onMQTTMessage E topic message w =
      (ending,
       (snd (home_assistant E (entityState_of E r) json0) ++ evs) ++ flush tp,
       w') /\
      (ending = Ends returns_true
       \/ (ending = Raises (TypeError_at 181)
           \/ ending = Raises (TypeError_at 282)) /\ tp = []) /\
      Forall (fun ev => loop_event (legacy_api E) (type t) r d ev = true) evs /\
      timers_follow_writes evs /\
      (Forall (fun ev => is_accumulated ev = false) evs -> tp = []) /\
      Forall (fun ev =>
                is_converter_call ev = true ->
                exists (kv : entry) (ep id : string) (tgt : Target)
                       (k : string) (c : ref),
                  In kv (ordered_entries E
                           (fst (home_assistant E (entityState_of E r) json0)))
                  /\ route E t r d (fst kv) = routed ep id tgt k
                  /\ find_converter E (converters d) k = Some c
                  /\ (ev = call_convertSet c id tgt k (snd kv)
                             (meta_of d
                                (fst (home_assistant E (entityState_of E r) json0))
                                (entityState_of E r) ep)
                      \/ ev = call_convertGet c id tgt k
                                (meta_of d
                                   (fst (home_assistant E (entityState_of E r)
                                           json0))
                                   (entityState_of E r) ep))) evs /\
      (forall (c : ref) (id : string), convertSet_calls c id evs <= 1).
Proof.
  destruct (onMQTTMessage_cases W E topic message w)
    as [H | (t & r & d & json0 & Ht & Hr & Hd & Hj & Hrun)]; [now left|].
  right. cbv zeta in Hrun.
  set (json := fst (home_assistant E (entityState_of E r) json0)) in *.
  set (logged := snd (home_assistant E (entityState_of E r) json0)) in *.
  set (st0 := {| usedConverters := Obj.empty; toPublish := Obj.empty;
                 trace := logged; world := w |}) in *.
  set (loop := for_of E t r d json (entityState_of E r)
                 (ordered_entries E json) st0) in *.
  set (st := snd loop) in *.
  destruct (for_of_loop_events t r d json (entityState_of E r)
              (ordered_entries E json) st0) as (evs & Htr & Hl & Hw).
  destruct (for_of_calls_of_entries t r d json (entityState_of E r)
              (ordered_entries E json) st0) as (evs' & Htr' & Hc).
  fold loop in Htr, Htr'. fold st in Htr, Htr'. cbn [trace st0] in Htr, Htr'.
  assert (evs' = evs) as -> by (rewrite Htr in Htr'; now apply app_inv_head in Htr').
  assert (Hq : Forall (fun ev => is_quiet ev = true) logged)
    by apply home_assistant_quiet.
  assert (Hempty : Forall (fun ev => is_accumulated ev = false) evs ->
                   toPublish st = []).
  { intros Hna.
    assert (Hm : buffer_is_merge st).
    { apply (for_of_invariant W E t r d json (entityState_of E r)
               (@buffer_is_merge W)).
      - intros kv s cpl s'. apply Step_buffer_is_merge.
      - split; [constructor|]. intros id. cbn [toPublish trace st0].
        now rewrite deltas_of_none by now apply quiet_not_accumulated. }
    apply all_get_None. intros id. destruct Hm as [_ Hg]. rewrite Hg, Htr.
    rewrite deltas_of_app, (deltas_of_none _ logged), (deltas_of_none _ evs);
      [reflexivity | exact Hna | now apply quiet_not_accumulated]. }
  assert (Hbound : forall (c : ref) (id : string), convertSet_calls c id evs <= 1).
  { intros c id.
    assert (Hu : written_once st).
    { apply for_of_used_once. now apply used_once_start. }
    specialize (Hu c id). rewrite Htr, convertSet_calls_app in Hu. lia. }
  destruct (fst loop) as [| |error] eqn:Hloop.
  3:{ exists t, r, d, json0, evs, [], (world st), (Raises error).
      split; [exact Ht|]. split; [exact Hr|]. split; [exact Hd|].
      split; [exact Hj|].
      split; [rewrite Hrun, Htr; cbn [flush map]; now rewrite app_nil_r|].
      split; [right; split; [|reflexivity];
              destruct (for_of_thrown W E _ _ _ _ _ _ _ _ Hloop) as [-> | ->];
              [now left | now right]|].
      split; [exact Hl|]. split; [exact Hw|]. split; [easy|].
      split; [exact Hc | exact Hbound]. }
  all: exists t, r, d, json0, evs, (toPublish st), (world st), (Ends returns_true).
  all: split; [exact Ht|]; split; [exact Hr|]; split; [exact Hd|].
  all: split; [exact Hj|]; split; [now rewrite Hrun, Htr|].
  all: split; [now left|].
  all: split; [exact Hl|]; split; [exact Hw|]; split; [exact Hempty|].
  all: split; [exact Hc | exact Hbound].
Qed.

End TraceOfLoop.

(** ** What a message never does *)

Lemma flush_nil : flush [] = [].
Proof. reflexivity. Qed.

(** X1. A [get] reads and does nothing else: in the trace of a message
    on a [get] topic there is no call of [convertSet], nothing is
    accumulated, no timer is set and no state is published. *)
Theorem get_never_writes
        (W : Type) (E : Env W) (topic message : string) (w : W) (t : Topic) :
  parseTopic E topic = Some t ->
  type t = get ->
  Forall (fun ev => is_convertSet ev = false /\ is_accumulated ev = false
                    /\ is_timer ev = false /\ is_state_publish ev = false)
         (trace_of (onMQTTMessage E topic message w)).
Proof.
  intros Ht Hget.
  destruct (onMQTTMessage_run W E topic message w)
    as [(r & tr & -> & _ & Hq)
       | (t' & r & d & json0 & evs & tp & w' & ending & Ht' & _ & _ & _ & ->
          & _ & Hl & _ & Htp & _)];
    unfold trace_of; cbn [fst snd].
  - revert Hq. apply Forall_impl. now intros [].
  - rewrite Ht in Ht'. injection Ht' as <-. rewrite Hget in Hl.
    assert (Hev : Forall (fun ev => is_convertSet ev = false
                                    /\ is_accumulated ev = false
                                    /\ is_timer ev = false
                                    /\ is_state_publish ev = false) evs).
    { revert Hl. apply Forall_impl. intros [] H; cbn in H; try discriminate;
        now repeat split. }
    rewrite Htp, flush_nil, app_nil_r.
    + apply Forall_app. split; [|exact Hev].
      generalize (home_assistant_quiet W E (entityState_of E r) json0).
      apply Forall_impl. now intros [].
    + revert Hev. apply Forall_impl. now intros ev (_ & H & _).
Qed.

(** X2. An entity whose settings say [optimistic: false] gets no
    optimistic state: whatever the converters return, nothing is
    accumulated and no state is published. *)
Theorem not_optimistic_publishes_nothing
        (W : Type) (E : Env W) (topic message : string) (w : W) (t : Topic)
        (r : ResolvedEntity) :
  parseTopic E topic = Some t ->
  resolveEntity E (entityKey_of t) = Some r ->
  optimistic (entity_settings r) = Some false ->
  Forall (fun ev => is_accumulated ev = false /\ is_state_publish ev = false)
         (trace_of (onMQTTMessage E topic message w)).
Proof.
  intros Ht Hr Hopt.
  destruct (onMQTTMessage_run W E topic message w)
    as [(r' & tr & -> & _ & Hq)
       | (t' & r' & d & json0 & evs & tp & w' & ending & Ht' & Hr' & Hd & _
          & -> & _ & Hl & _ & Htp & _)];
    unfold trace_of; cbn [fst snd].
  - revert Hq. apply Forall_impl. now intros [].
  - rewrite Ht in Ht'. injection Ht' as <-.
    rewrite Hr in Hr'. injection Hr' as <-.
    destruct (details_of_entity W E r d Hd) as [Ho _].
    assert (Hev : Forall (fun ev => is_accumulated ev = false
                                    /\ is_state_publish ev = false) evs).
    { revert Hl. apply Forall_impl. intros [] H; cbn in H; try discriminate;
        try now split.
      unfold is_optimistic in H. rewrite Ho, Hopt, andb_false_r in H.
      discriminate. }
    rewrite Htp, flush_nil, app_nil_r.
    + apply Forall_app. split; [|exact Hev].
      generalize (home_assistant_quiet W E (entityState_of E r) json0).
      apply Forall_impl. now intros [].
    + revert Hev. apply Forall_impl. now intros ev (H & _).
Qed.

(** X3. A read after a write is scheduled only by a [set] on a device
    whose settings ask for [retrieve_state], and it is a read with the
    converter, the target, the key and the [meta] of a write made in the
    same message. *)
Theorem timer_only_after_write_to_device
        (W : Type) (E : Env W) (topic message : string) (w : W)
        (c : ref) (tgt : Target) (k : string) (m : Meta) (delay : Z) :
  In (setTimeout_convertGet c tgt k m delay)
     (trace_of (onMQTTMessage E topic message w)) ->
  exists (t : Topic) (r : ResolvedEntity),
    parseTopic E topic = Some t /\ type t = set
    /\ resolveEntity E (entityKey_of t) = Some r
    /\ is_device r = true
    /\ retrieve_state (entity_settings r) = true
    /\ exists (id : string) (v : JsVal),
        In (call_convertSet c id tgt k v m)
           (trace_of (onMQTTMessage E topic message w)).
Proof.
  destruct (onMQTTMessage_run W E topic message w)
    as [(r & tr & -> & _ & Hq)
       | (t & r & d & json0 & evs & tp & w' & ending & Ht & Hr & _ & _ & ->
          & _ & Hl & Hw & _)];
    unfold trace_of; cbn [fst snd]; intros Hin.
  - rewrite Forall_forall in Hq. apply Hq in Hin. discriminate.
  - apply in_app_or in Hin as [Hin | Hin].
    2:{ unfold flush in Hin. apply in_map_iff in Hin as (kv & Heq & _).
        discriminate. }
    apply in_app_or in Hin as [Hin | Hin].
    { pose proof (home_assistant_quiet W E (entityState_of E r) json0) as Hq.
      rewrite Forall_forall in Hq. apply Hq in Hin. discriminate. }
    exists t, r. rewrite Forall_forall in Hl. pose proof (Hl _ Hin) as Hev.
    cbn in Hev. apply andb_true_iff in Hev as [Hev Hret].
    apply andb_true_iff in Hev as [Hset Hdev].
    repeat split; auto; [now destruct (type t)|].
    destruct (Hw _ _ _ _ _ Hin) as (id & v & Hcall). exists id, v.
    apply in_or_app. left. apply in_or_app. now right.
Qed.

(** X4. Every call of a converter is the call for an entry of the decoded
    message, in the order of line 157: the converter is the first one of
    the entity whose key list holds the key the entry is routed under,
    the value is the value of the entry, and [meta] is the one of lines
    205 to 225 for the endpoint name in effect. *)
Theorem calls_are_for_entries
        (W : Type) (E : Env W) (topic message : string) (w : W) (t : Topic)
        (r : ResolvedEntity) (d : Details) (json0 : JsVal) :
  parseTopic E topic = Some t ->
  resolveEntity E (entityKey_of t) = Some r ->
  entity_details E r = inr d ->
  decode E t message = inr json0 ->
  let json := fst (home_assistant E (entityState_of E r) json0) in
  Forall (fun ev =>
            is_converter_call ev = true ->
            exists (kv : entry) (ep id : string) (tgt : Target) (k : string)
                   (c : ref),
              In kv (ordered_entries E json)
              /\ route E t r d (fst kv) = routed ep id tgt k
              /\ find_converter E (converters d) k = Some c
              /\ (ev = call_convertSet c id tgt k (snd kv)
                         (meta_of d json (entityState_of E r) ep)
                  \/ ev = call_convertGet c id tgt k
                            (meta_of d json (entityState_of E r) ep)))
         (trace_of (onMQTTMessage E topic message w)).
Proof.
  intros Ht Hr Hd Hj json.
  destruct (onMQTTMessage_run W E topic message w)
    as [(r' & tr & -> & _ & Hq)
       | (t' & r' & d' & json0' & evs & tp & w' & ending & Ht' & Hr' & Hd'
          & Hj' & -> & _ & _ & _ & _ & Hc & _)];
    unfold trace_of; cbn [fst snd].
  - apply quiet_no_call in Hq. revert Hq. apply Forall_impl. congruence.
  - rewrite Ht in Ht'. injection Ht' as <-.
    rewrite Hr in Hr'. injection Hr' as <-.
    rewrite Hd in Hd'. injection Hd' as <-.
    rewrite Hj in Hj'. injection Hj' as <-.
    apply Forall_app. split; [apply Forall_app; split|].
    + generalize (quiet_no_call _
                    (home_assistant_quiet W E (entityState_of E r) json0)).
      apply Forall_impl. congruence.
    + exact Hc.
    + generalize (flush_no_call tp). apply Forall_impl. congruence.
Qed.

(** ** Groups *)

Lemma writes_of_app (c : ref) (a b : list Event) :
  writes_of c (a ++ b) = writes_of c a + writes_of c b.
Proof. unfold writes_of. now rewrite filter_app, length_app. Qed.

Lemma writes_of_none (c : ref) (evs : list Event) :
  Forall (fun ev => is_converter_call ev = false) evs -> writes_of c evs = 0.
Proof.
  unfold writes_of. induction 1 as [|ev evs Hev _ IH]; [reflexivity|].
  simpl. destruct ev; try discriminate; exact IH.
Qed.

Lemma writes_of_one_identifier (c : ref) (gid : string) (evs : list Event) :
  Forall (fun ev => match ev with
                    | call_convertSet _ id _ _ _ _ => id = gid
                    | _ => True
                    end) evs ->
  writes_of c evs = convertSet_calls c gid evs.
Proof.
  unfold writes_of, convertSet_calls.
  induction 1 as [|ev evs Hev _ IH]; [reflexivity|].
  simpl. destruct ev; try exact IH. subst. cbn [is_convertSet_call].
  rewrite String.eqb_refl, andb_true_r.
  destruct (Nat.eqb c converter); simpl; now rewrite IH.
Qed.

(** X5. A message for a group goes to the group: every call of a
    converter is made on the group itself under the identifier of the
    group, with the endpoint name of the topic in [meta], whatever the
    keys of the message end with; no read after a write is scheduled; and
    over the whole message a converter is written to at most once. *)
Theorem group_message_is_for_the_group
        (W : Type) (E : Env W) (topic message : string) (w : W) (t : Topic)
        (n : string) (s : EntitySettings) (g : ref) :
  parseTopic E topic = Some t ->
  resolveEntity E (entityKey_of t) = Some (group_entity n s g) ->
  Forall (fun ev =>
            match ev with
            | call_convertSet _ id tgt _ _ m | call_convertGet _ id tgt _ m =>
                id = Str.of_N (groupID E g) /\ tgt = Group g
                /\ endpoint_name m = endpointName t
            | setTimeout_convertGet _ _ _ _ _ => False
            | _ => True
            end)
         (trace_of (onMQTTMessage E topic message w))
  /\ forall c : ref, writes_of c (trace_of (onMQTTMessage E topic message w)) <= 1.
Proof.
  intros Ht Hr.
  destruct (onMQTTMessage_run W E topic message w)
    as [(r' & tr & -> & _ & Hq)
       | (t' & r' & d & json0 & evs & tp & w' & ending & Ht' & Hr' & Hd & _
          & -> & _ & Hl & _ & _ & Hc & Hone)];
    unfold trace_of; cbn [fst snd].
  - split.
    + revert Hq. apply Forall_impl. now intros [].
    + intros c. rewrite writes_of_none by now apply quiet_no_call. lia.
  - rewrite Ht in Ht'. injection Ht' as <-.
    rewrite Hr in Hr'. injection Hr' as <-.
    assert (Hroute : forall key,
               route E t (group_entity n s g) d key
               = routed (endpointName t) (Str.of_N (groupID E g)) (Group g) key).
    { intros key. unfold route, endpoint_of_key.
      destruct (details_of_entity W E _ d Hd) as [_ ->]. reflexivity. }
    assert (Hev : Forall (fun ev =>
              match ev with
              | call_convertSet _ id tgt _ _ m | call_convertGet _ id tgt _ m =>
                  id = Str.of_N (groupID E g) /\ tgt = Group g
                  /\ endpoint_name m = endpointName t
              | setTimeout_convertGet _ _ _ _ _ => False
              | _ => True
              end) evs).
    { rewrite Forall_forall in *. intros ev Hin.
      pose proof (Hl _ Hin) as Hloop. pose proof (Hc _ Hin) as Hcall.
      destruct ev; try exact I.
      - destruct (Hcall eq_refl) as (kv & ep & id & tgt & k & c & _ & Hrt & _ & Hev).
        rewrite Hroute in Hrt. injection Hrt as <- <- <- <-.
        destruct Hev as [Hev | Hev]; [|discriminate].
        injection Hev as _ -> -> _ _ ->. now repeat split.
      - destruct (Hcall eq_refl) as (kv & ep & id & tgt & k & c & _ & Hrt & _ & Hev).
        rewrite Hroute in Hrt. injection Hrt as <- <- <- <-.
        destruct Hev as [Hev | Hev]; [discriminate|].
        injection Hev as _ -> -> _ ->. now repeat split.
      - cbn in Hloop. rewrite andb_false_r in Hloop. discriminate. }
    split.
    + apply Forall_app. split; [apply Forall_app; split|].
      * generalize (home_assistant_quiet W E (entityState_of E (group_entity n s g))
                      json0).
        apply Forall_impl. now intros [].
      * exact Hev.
      * unfold flush. apply Forall_map, Forall_forall. now intros.
    + intros c. rewrite !writes_of_app.
      rewrite (writes_of_none c (snd _))
        by apply quiet_no_call, home_assistant_quiet.
      rewrite (writes_of_none c (flush tp)) by apply flush_no_call.
      rewrite (writes_of_one_identifier c (Str.of_N (groupID E g)) evs).
      * specialize (Hone c (Str.of_N (groupID E g))). lia.
      * revert Hev. apply Forall_impl. intros []; tauto.
Qed.

(** ** Reads *)

(** X6. A [get] is not single-use: an entry whose converter has a
    [convertGet] is read whether or not the converter was used before in
    the message, and nothing is kept for publication.  The body ends
    normally and the converter is recorded again, unless the read throws
    [null] or [undefined]: then line 282 throws, and nothing is
    recorded. *)
Theorem read_is_not_single_use
        (W : Type) (E : Env W) topic r d json es (kv : entry) (st : LoopState W)
        (ep id : string) (tgt : Target) (k : string) (c : ref) f :
  type topic = get ->
  route E topic r d (fst kv) = routed ep id tgt k ->
  find_converter E (converters d) k = Some c ->
  convertGet (converter_at E c) = Some f ->
  let st' := snd (loop_body E topic r d json es kv st) in
  let caught :=
    forall (error : JsError) (w : W),
      f tgt k (meta_of d json es ep) (world st) = (Thrown error, w) ->
      is_nullish error = false in
  (caught -> fst (loop_body E topic r d json es kv st) = Normal)
  /\ (exists evs : list Event,
         trace st' =
         trace st
         ++ [logger_debug (Publishing_get_to get k (entity_name r));
             call_convertGet c id tgt k (meta_of d json es ep)] ++ evs
         /\ Forall (fun ev => is_quiet ev = true) evs)
  /\ (caught -> used_at id st' = used_at id st ++ [Some c])
  /\ toPublish st' = toPublish st
  /\ (~ caught ->
      fst (loop_body E topic r d json es kv st) = Throw (TypeError_at 282)
      /\ used_at id st' = used_at id st).
Proof.
  intros Ht Hr Hc Hf st' caught. unfold st', caught.
  destruct (f tgt k (meta_of d json es ep) (world st)) as [[u | error] w] eqn:Hcall.
  - rewrite (loop_body_get_returned W E topic r d json es kv st ep id tgt k c f
               u w Ht Hr Hc Hf Hcall).
    cbn [fst snd]. split; [reflexivity|]. split; [|split; [|split]].
    + exists []. autorewrite with frames. split; [reflexivity | constructor].
    + intros _. rewrite used_at_push_used, String.eqb_refl.
      now autorewrite with frames.
    + now autorewrite with frames.
    + intros Hnot. exfalso. apply Hnot. discriminate.
  - destruct (is_nullish error) eqn:Hn.
    + rewrite (loop_body_get_thrown_nullish W E topic r d json es kv st ep id tgt
                 k c f error w Ht Hr Hc Hf Hcall Hn).
      cbn [fst snd].
      split; [intros H; specialize (H error w eq_refl); congruence|].
      split; [|split; [|split]].
      * exists (catch_events E topic r k error). autorewrite with frames.
        rewrite <- app_assoc. split; [reflexivity | apply catch_events_quiet].
      * intros H. specialize (H error w eq_refl). congruence.
      * now autorewrite with frames.
      * intros _. split; [reflexivity | now autorewrite with frames].
    + rewrite (loop_body_get_thrown W E topic r d json es kv st ep id tgt k c f
                 error w Ht Hr Hc Hf Hcall Hn).
      cbn [fst snd]. split; [reflexivity|]. split; [|split; [|split]].
      * exists (catch_events E topic r k error). autorewrite with frames.
        rewrite <- app_assoc. split; [reflexivity | apply catch_events_quiet].
      * intros _. rewrite used_at_push_used, String.eqb_refl.
        now autorewrite with frames.
      * now autorewrite with frames.
      * intros Hnot. exfalso. apply Hnot. intros e w0 [= <- <-]. exact Hn.
Qed.

Local Open Scope list_scope.
Local Open Scope string_scope.

(** ** Topics that are and that are not for an entity *)

Section Topics.
Import StrFacts.
Variable names : list string.

Lemma startsWith_cons (a b : ascii) (s p : string) :
  Str.startsWith (String b s) (String a p) = (Ascii.eqb a b && Str.startsWith s p)%bool.
Proof. reflexivity. Qed.

Lemma includes_length (s p : string) :
  Str.includes s p = true -> String.length p <= String.length s.
Proof.
  intros H. apply includes_iff in H as (a & b & ->).
  rewrite !length_append. lia.
Qed.

Lemma In_alternatives (n : string) :
  In n (alternatives names) -> n = "" \/ In n names.
Proof.
  unfold alternatives. destruct names; [intros [<- | []]; now left | now right].
Qed.

(** What the pattern after its first group matches starts with a slash. *)
Lemma match_rest_slash (s : string) :
  match_rest names s <> None -> exists s', s = String "/" s'.
Proof.
  destruct (match_rest names s) as [[[m2 t] m4]|] eqn:Hm; [|easy]. intros _.
  destruct (match_rest_sound names _ _ _ _ Hm) as (ep & tail & Hep & -> & _).
  destruct Hep as [[-> _] | (n & _ & -> & _)].
  - destruct t; eexists; reflexivity.
  - eexists. reflexivity.
Qed.

(** The first group is the shortest: when the rest of the pattern matches
    after [b], the search stops within [b]. *)
Lemma match_from_within (b s : string) :
  b <> "" -> match_rest names s <> None ->
  match_from names (b ++ s) = None
  \/ exists g1 x r, b = g1 ++ x /\ match_from names (b ++ s) = Some (g1, r).
Proof.
  intros Hb Hs. induction b as [|c b IH]; [easy|]. simpl.
  destruct (Str.is_line_terminator c); [now left|].
  destruct (match_rest names (b ++ s)) as [r|] eqn:Hr.
  - right. exists (String c ""), b, r. now split.
  - destruct b as [|d b]; [simpl in Hr; congruence|].
    destruct (IH ltac:(easy)) as [-> | (g1 & x & r & Hg & ->)]; [now left|].
    right. exists (String c g1), x, r. split; [|reflexivity].
    simpl. now rewrite <- Hg.
Qed.

(** And it is all of [u] when the rest of the pattern matches after [u]
    and after no shorter start of it. *)
Lemma match_from_first (u s : string) r :
  u <> "" -> no_line_terminator u = true ->
  match_rest names s = Some r ->
  (forall a c, u = a ++ c -> a <> "" -> c <> "" ->
               match_rest names (c ++ s) = None) ->
  match_from names (u ++ s) = Some (u, r).
Proof.
  intros Hu Hn Hs Hsplit. induction u as [|x u IH]; [easy|]. simpl in *.
  apply andb_true_iff in Hn as [Hx Hn]. apply negb_true_iff in Hx. rewrite Hx.
  destruct u as [|y u].
  - simpl. now rewrite Hs.
  - rewrite (Hsplit (String x "") (String y u)) by easy.
    rewrite IH; [reflexivity | easy | exact Hn |].
    intros a c Hac Ha Hc. apply (Hsplit (String x a) c); [|easy|easy].
    simpl. now rewrite Hac.
Qed.

(** A string without a slash before a slash starts with [p] only when
    the string itself does. *)
Lemma startsWith_before_slash (p id x : string) :
  Str.includes p "/" = false ->
  Str.startsWith (id ++ String "/" x) p = true -> Str.startsWith id p = true.
Proof.
  revert id. induction p as [|a p IH]; intros id Hp H; [reflexivity|].
  rewrite includes_unfold in Hp. apply orb_false_iff in Hp as [Ha Hp].
  rewrite startsWith_cons, andb_true_r in Ha.
  destruct id as [|b id].
  - change (Str.startsWith (String "/" x) (String a p) = true) in H.
    rewrite startsWith_cons, Ascii.eqb_sym, Ha in H. discriminate.
  - change (Str.startsWith (String b (id ++ String "/" x)) (String a p) = true)
      in H.
    rewrite startsWith_cons in *. apply andb_true_iff in H as [-> H].
    now apply IH.
Qed.

Lemma no_slash_head (c : ascii) (s : string) :
  Str.includes (String c s) "/" = false ->
  c <> "/"%char /\ Str.includes s "/" = false.
Proof.
  rewrite includes_unfold. intros H. apply orb_false_iff in H as [Hc Hs].
  rewrite startsWith_cons, andb_true_r in Hc. split; [|exact Hs].
  intros ->. discriminate.
Qed.

(** Two strings without a slash that are followed by a slash in the same
    string are the same. *)
Lemma first_slash (a b x y : string) :
  Str.includes a "/" = false -> Str.includes b "/" = false ->
  a ++ String "/" x = b ++ String "/" y -> a = b /\ x = y.
Proof.
  revert b. induction a as [|c a IH]; intros b Ha Hb H.
  - destruct b as [|d b]; simpl in H.
    + now injection H.
    + apply no_slash_head in Hb as [Hd _]. now injection H as <-.
  - apply no_slash_head in Ha as [Hc Ha].
    destruct b as [|d b]; simpl in H.
    + now injection H as ->.
    + apply no_slash_head in Hb as [_ Hb]. injection H as <- H.
      destruct (IH b Ha Hb H) as [-> ->]. now split.
Qed.

(** Where the slash of [base/id] is. *)
Lemma one_slash (a c base id : string) :
  Str.includes base "/" = false -> Str.includes id "/" = false ->
  a ++ String "/" c = base ++ String "/" id -> a = base /\ c = id.
Proof.
  revert base. induction a as [|x a IH]; intros base Hb Hi H.
  - destruct base as [|y base]; simpl in H.
    + now injection H.
    + apply no_slash_head in Hb as [Hy _]. now injection H as <-.
  - destruct base as [|y base]; simpl in H.
    + injection H as -> H. exfalso.
      assert (Hin : Str.includes id "/" = true)
        by (apply includes_iff; now exists a, c).
      congruence.
    + apply no_slash_head in Hb as [_ Hb]. injection H as <- H.
      destruct (IH base Hb Hi H) as [-> ->]. now split.
Qed.

Lemma type_no_slash (t : TopicType) :
  exists T, segment t = String "/" T /\ Str.includes T "/" = false
            /\ (T = "get" \/ T = "set").
Proof. destruct t; eexists; repeat split; auto. Qed.

Lemma plain_alternatives (n : string) :
  forallb plain_name names = true -> In n (alternatives names) ->
  Str.includes n "/" = false /\ Str.startsWith n "get" = false
  /\ Str.startsWith n "set" = false.
Proof.
  intros Hall Hin. apply In_alternatives in Hin as [-> | Hin]; [easy|].
  rewrite forallb_forall in Hall. apply Hall in Hin. unfold plain_name in Hin.
  apply andb_true_iff in Hin as [Hin H3]. apply andb_true_iff in Hin as [H1 H2].
  now rewrite !negb_true_iff in *.
Qed.

Lemma match_rest_after_identifier (t : TopicType) (tail : string) :
  forallb plain_name names = true ->
  match_rest names (segment t ++ tail) = Some (None, t, match_attribute tail).
Proof.
  intros Hall. unfold match_rest.
  destruct (match_endpoint (alternatives names) (segment t ++ tail))
    as [[n [t' rest]]|] eqn:Hm.
  - exfalso. apply match_endpoint_sound in Hm as [Hin Heq].
    destruct (plain_alternatives n Hall Hin) as (_ & Hg & Hs).
    destruct (type_no_slash t) as (T & Hseg & HT & HTs).
    destruct (type_no_slash t') as (T' & Hseg' & _).
    rewrite Hseg, Hseg' in Heq. simpl in Heq. injection Heq as Heq.
    assert (Hst : Str.startsWith (n ++ String "/" (T' ++ rest)) T = true).
    { rewrite <- Heq. apply startsWith_append. }
    apply startsWith_before_slash in Hst; [|exact HT].
    destruct HTs as [-> | ->]; congruence.
  - now rewrite match_type_complete.
Qed.

Lemma match_rest_at_identifier (id : string) (t : TopicType) (tail : string) :
  forallb plain_name names = true ->
  id <> "" -> Str.includes id "/" = false ->
  Str.startsWith id "get" = false -> Str.startsWith id "set" = false ->
  ~ In id names ->
  match_rest names (String "/" id ++ segment t ++ tail) = None.
Proof.
  intros Hall Hid Hslash Hget Hset Hnot.
  destruct (match_rest names _) as [[[m2 t'] m4]|] eqn:Hm; [|reflexivity].
  exfalso.
  destruct (match_rest_sound names _ _ _ _ Hm) as (ep & tail' & Hep & Heq & _).
  destruct (type_no_slash t) as (T & HT & _).
  destruct (type_no_slash t') as (T' & HT' & HT'n & HT's).
  rewrite HT, HT' in Heq.
  destruct Hep as [[-> _] | (n & Hin & -> & _)]; simpl in Heq;
    injection Heq as Heq.
  - assert (Hst : Str.startsWith (id ++ String "/" (T ++ tail)) T' = true)
      by (rewrite Heq; apply startsWith_append).
    apply startsWith_before_slash in Hst; [|exact HT'n].
    destruct HT's as [-> | ->]; congruence.
  - destruct (plain_alternatives n Hall Hin) as (Hn & _).
    destruct (first_slash _ _ _ _ Hslash Hn Heq) as [<- _].
    apply In_alternatives in Hin as [-> | Hin]; auto.
Qed.

Lemma match_rest_at_name (id x : string) :
  forallb plain_name names = true ->
  id <> "" -> Str.includes id "/" = false ->
  Str.startsWith id "get" = false -> Str.startsWith id "set" = false ->
  ~ In id names ->
  match_rest names (String "/" id ++ String "/" x) = None.
Proof.
  intros Hall Hid Hslash Hget Hset Hnot.
  destruct (match_rest names _) as [[[m2 t'] m4]|] eqn:Hm; [|reflexivity].
  exfalso.
  destruct (match_rest_sound names _ _ _ _ Hm) as (ep & tail' & Hep & Heq & _).
  destruct (type_no_slash t') as (T' & HT' & HT'n & HT's).
  rewrite HT' in Heq.
  destruct Hep as [[-> _] | (n & Hin & -> & _)]; simpl in Heq;
    injection Heq as Heq.
  - assert (Hst : Str.startsWith (id ++ String "/" x) T' = true)
      by (rewrite Heq; apply startsWith_append).
    apply startsWith_before_slash in Hst; [|exact HT'n].
    destruct HT's as [-> | ->]; congruence.
  - destruct (plain_alternatives n Hall Hin) as (Hn & _).
    destruct (first_slash _ _ _ _ Hslash Hn Heq) as [<- _].
    apply In_alternatives in Hin as [-> | Hin]; auto.
Qed.

Lemma In_names_alternatives (n : string) :
  In n names -> In n (alternatives names).
Proof. unfold alternatives. now destruct names. Qed.

Lemma append_cancel (p a b : string) : p ++ a = p ++ b -> a = b.
Proof.
  induction p as [|c p IH]; simpl; intros H; [exact H|].
  injection H as H. now apply IH.
Qed.

Lemma segment_inj (t t' : TopicType) (a b : string) :
  segment t ++ a = segment t' ++ b -> t = t' /\ a = b.
Proof. destruct t, t'; simpl; intros H; now injection H. Qed.

Lemma match_rest_at_endpoint (ep : string) (t : TopicType) (tail : string) :
  forallb plain_name names = true -> In ep names ->
  match_rest names (String "/" ep ++ segment t ++ tail)
  = Some (Some ep, t, match_attribute tail).
Proof.
  intros Hall Hin. unfold match_rest.
  pose proof (match_endpoint_complete (alternatives names) ep t tail
                (In_names_alternatives ep Hin)) as Hc.
  destruct (match_endpoint (alternatives names) _) as [[n [t' rest]]|] eqn:Hm;
    [|easy].
  apply match_endpoint_sound in Hm as [Hn Heq].
  destruct (plain_alternatives n Hall Hn) as (Hns & _).
  destruct (plain_alternatives ep Hall (In_names_alternatives ep Hin))
    as (Heps & _).
  destruct (type_no_slash t) as (T & HT & _).
  destruct (type_no_slash t') as (T' & HT' & _).
  assert (Heq' : ep ++ String "/" (T ++ tail) = n ++ String "/" (T' ++ rest)).
  { rewrite HT, HT' in Heq. simpl in Heq. now injection Heq. }
  destruct (first_slash _ _ _ _ Heps Hns Heq') as [<- _].
  simpl in Heq. injection Heq as Heq. apply append_cancel in Heq.
  apply segment_inj in Heq as [<- <-]. reflexivity.
Qed.

End Topics.

(** X7. An entity whose name starts with [get] or [set] cannot be
    addressed: the first group of the pattern stops before the name, the
    base topic is not cut out of it, and the message is dropped without a
    line for the logger. *)
Theorem name_starting_with_type_is_ignored
        (W : Type) (E : Env W) (id rest message : string) (w : W) :
  base_topic E <> "" ->
  Str.startsWith id "get" = true \/ Str.startsWith id "set" = true ->
  parseTopic E (base_topic E ++ "/" ++ id ++ rest) = None
  /\ onMQTTMessage E (base_topic E ++ "/" ++ id ++ rest) message w
     = (Ends returns_false, [], w).
Proof.
  intros Hbase Hid.
  assert (Hp : parseTopic E (base_topic E ++ "/" ++ id ++ rest) = None).
  { assert (Hs : exists t x, "/" ++ id ++ rest = segment t ++ x).
    { destruct Hid as [H | H]; apply StrFacts.startsWith_split in H;
        rewrite H, StrFacts.append_assoc; simpl;
        [exists get | exists set]; eexists; reflexivity. }
    destruct Hs as (t & x & ->).
    assert (Hr : match_rest (endpointNames E) (segment t ++ x) <> None).
    { apply (match_rest_complete (endpointNames E) "" None t x). now left. }
    unfold parseTopic, topicRegex_match.
    destruct (match_from_within (endpointNames E) _ _ Hbase Hr)
      as [-> | (g1 & y & r & Hg & ->)]; [reflexivity|].
    destruct r as [[m2 m3] m4].
    assert (Hi : Str.includes g1 (base_topic E ++ "/") = false).
    { destruct (Str.includes g1 _) eqn:Hi; [|reflexivity].
      apply includes_length in Hi. rewrite Hg in Hi.
      rewrite !StrFacts.length_append in Hi. simpl in Hi. lia. }
    rewrite (StrFacts.remove_first_absent _ _ Hi), String.eqb_refl.
    reflexivity. }
  split; [exact Hp|]. unfold onMQTTMessage. now rewrite Hp.
Qed.

(** X8. A topic made of the base topic, a name, [get] or [set] and
    anything after it is parsed back into its parts: the name, no
    endpoint, the type, and as attribute what follows a slash after the
    type up to the end of the line.  The base topic and the name hold no
    slash and no line terminator, the name is not empty, does not start
    with [get] or [set], is not the name of an endpoint and does not hold
    [bridge]. *)
Theorem parseTopic_of_composed
        (W : Type) (E : Env W) (id tail : string) (t : TopicType) :
  Str.includes (base_topic E) "/" = false ->
  no_line_terminator (base_topic E) = true ->
  forallb plain_name (endpointNames E) = true ->
  id <> "" ->
  Str.includes id "/" = false ->
  no_line_terminator id = true ->
  Str.startsWith id "get" = false ->
  Str.startsWith id "set" = false ->
  ~ In id (endpointNames E) ->
  Str.includes id "bridge" = false ->
  parseTopic E (base_topic E ++ "/" ++ id ++ segment t ++ tail)
  = Some {| ID := id; endpointName := ""; type := t;
            attribute := match_attribute tail |}.
Proof.
  intros Hbs Hbn Hall Hid Hslash Hidn Hget Hset Hnot Hbridge.
  set (base := base_topic E) in *.
  set (u := base ++ "/" ++ id).
  assert (Hu : base ++ "/" ++ id ++ segment t ++ tail = u ++ segment t ++ tail).
  { unfold u. now rewrite !StrFacts.append_assoc. }
  assert (Hm : match_from (endpointNames E) (u ++ segment t ++ tail)
               = Some (u, (None, t, match_attribute tail))).
  { apply match_from_first.
    - unfold u. destruct base; discriminate.
    - unfold u. rewrite !SuffixFacts.no_line_terminator_append, Hbn, Hidn.
      reflexivity.
    - now apply match_rest_after_identifier.
    - intros a c Hac Ha Hc.
      destruct (match_rest (endpointNames E) (c ++ segment t ++ tail)) eqn:Hr;
        [|reflexivity].
      exfalso.
      destruct (match_rest_slash (endpointNames E) (c ++ segment t ++ tail))
        as [s' Hs']; [congruence|].
      destruct c as [|x c]; [easy|]. simpl in Hs'. injection Hs' as -> _.
      unfold u in Hac. simpl in Hac.
      destruct (one_slash a c base id Hbs Hslash (eq_sym Hac)) as [-> ->].
      rewrite (match_rest_at_identifier (endpointNames E) id t tail) in Hr;
        auto; discriminate. }
  unfold parseTopic, topicRegex_match. fold base. rewrite Hu, Hm.
  assert (Hr : Str.remove_first (base ++ "/") u = id).
  { unfold u. rewrite <- StrFacts.append_assoc, StrFacts.remove_first_unfold.
    rewrite StrFacts.startsWith_append. apply StrFacts.drop_append. }
  rewrite Hr, Hbridge.
  assert (He : String.eqb id u = false).
  { apply String.eqb_neq. intros H. apply (f_equal String.length) in H.
    unfold u in H. rewrite !StrFacts.length_append in H. simpl in H. lia. }
  now rewrite He.
Qed.

(** X21. With the name of an endpoint between the name of the entity and
    the type, the topic is parsed into the name, that endpoint name, the
    type and the attribute, and the entity the handler resolves is
    [name/endpoint].  (The same conditions on the base topic, the name and
    the names of the endpoints as without an endpoint.) *)
Theorem parseTopic_of_composed_with_endpoint
        (W : Type) (E : Env W) (id ep tail : string) (t : TopicType) :
  Str.includes (base_topic E) "/" = false ->
  no_line_terminator (base_topic E) = true ->
  forallb plain_name (endpointNames E) = true ->
  id <> "" ->
  Str.includes id "/" = false ->
  no_line_terminator id = true ->
  Str.startsWith id "get" = false ->
  Str.startsWith id "set" = false ->
  ~ In id (endpointNames E) ->
  Str.includes id "bridge" = false ->
  In ep (endpointNames E) ->
  ep <> "" ->
  parseTopic E (base_topic E ++ "/" ++ id ++ "/" ++ ep ++ segment t ++ tail)
  = Some {| ID := id; endpointName := ep; type := t;
            attribute := match_attribute tail |}
  /\ entityKey_of {| ID := id; endpointName := ep; type := t;
                     attribute := match_attribute tail |}
     = id ++ "/" ++ ep.
Proof.
  intros Hbs Hbn Hall Hid Hslash Hidn Hget Hset Hnot Hbridge Hep Hepn.
  split.
  2:{ unfold entityKey_of. cbn [ID endpointName].
      apply String.eqb_neq in Hepn. now rewrite Hepn. }
  set (base := base_topic E) in *.
  set (u := base ++ "/" ++ id).
  set (s := String "/" ep ++ segment t ++ tail).
  assert (Hu : base ++ "/" ++ id ++ "/" ++ ep ++ segment t ++ tail = u ++ s).
  { unfold u, s. now rewrite !StrFacts.append_assoc. }
  assert (Hm : match_from (endpointNames E) (u ++ s)
               = Some (u, (Some ep, t, match_attribute tail))).
  { apply match_from_first.
    - unfold u. destruct base; discriminate.
    - unfold u. rewrite !SuffixFacts.no_line_terminator_append, Hbn, Hidn.
      reflexivity.
    - now apply match_rest_at_endpoint.
    - intros a c Hac Ha Hc.
      destruct (match_rest (endpointNames E) (c ++ s)) eqn:Hr; [|reflexivity].
      exfalso.
      destruct (match_rest_slash (endpointNames E) (c ++ s)) as [s' Hs'];
        [congruence|].
      destruct c as [|x c]; [easy|]. simpl in Hs'. injection Hs' as -> _.
      unfold u in Hac. simpl in Hac.
      destruct (one_slash a c base id Hbs Hslash (eq_sym Hac)) as [-> ->].
      pose proof (match_rest_at_name (endpointNames E) id
                    (ep ++ segment t ++ tail) Hall Hid Hslash Hget Hset Hnot)
        as Hnone.
      unfold s in Hr. cbn [append] in Hr, Hnone. congruence. }
  unfold parseTopic, topicRegex_match. fold base. rewrite Hu, Hm.
  assert (Hr : Str.remove_first (base ++ "/") u = id).
  { unfold u. rewrite <- StrFacts.append_assoc, StrFacts.remove_first_unfold.
    rewrite StrFacts.startsWith_append. apply StrFacts.drop_append. }
  rewrite Hr, Hbridge.
  assert (He : String.eqb id u = false).
  { apply String.eqb_neq. intros H. apply (f_equal String.length) in H.
    unfold u in H. rewrite !StrFacts.length_append in H. simpl in H. lia. }
  now rewrite He.
Qed.

Local Open Scope string_scope.
Local Open Scope list_scope.

(** ** The payload *)

Section Payload.

Variable W : Type.
Variable E : Env W.

Lemma match_attribute_not_empty (s : string) : match_attribute s <> Some "".
Proof.
  unfold match_attribute. destruct s as [|c s]; [discriminate|].
  destruct c as [[] [] [] [] [] [] [] []]; try discriminate.
  destruct (dots s); discriminate.
Qed.

(** The attribute of a parsed topic is never the empty string. *)
Lemma parseTopic_attribute (topic : string) (t : Topic) :
  parseTopic E topic = Some t -> has_attribute t = attribute t.
Proof.
  unfold parseTopic.
  destruct (topicRegex_match (endpointNames E) topic)
    as [[m1 [[m2 m3] m4]]|] eqn:Hm; [|discriminate].
  destruct (_ || _); [discriminate|]. intros H. injection H as <-.
  unfold has_attribute. cbn [attribute].
  destruct (match_from_sound _ _ _ _ _ _ Hm) as (ep & tail & _ & _ & _ & _ & ->).
  pose proof (match_attribute_not_empty tail) as Hne.
  destruct (match_attribute tail) as [a|]; [|reflexivity].
  destruct (String.eqb_spec a ""); [congruence | reflexivity].
Qed.



End Payload.




(** X11. A payload that is JSON for a truthy value without properties (a
    number, [true], [{}], [[]]) is accepted and does nothing: the handler
    returns [true], gives nothing to the logger, calls no converter and
    publishes nothing.  (What the sort makes of no entries is no
    entries.) *)
Theorem payload_without_entries_does_nothing
        (W : Type) (E : Env W) (topic message : string) (w : W) (t : Topic)
        (r : ResolvedEntity) (d : Details) (v : JsVal) :
  parseTopic E topic = Some t ->
  attribute t = None ->
  resolveEntity E (entityKey_of t) = Some r ->
  entity_details E r = inr d ->
  JSON_parse E message = Some v ->
  truthy v = true ->
  Object_entries v = [] ->
  (forall comparefn, Array_sort E comparefn [] = []) ->
  onMQTTMessage E topic message w = (Ends returns_true, [], w).
Proof.
  intros Ht Ha Hr Hd Hp Hv He Hsort.
  assert (Hj : decode E t message = inr v).
  { unfold decode. rewrite (parseTopic_attribute W E topic t Ht), Ha, Hp.
    now rewrite Hv. }
  unfold onMQTTMessage. rewrite Ht, Hr, Hd, Hj.
  assert (Hh : home_assistant E (entityState_of E r) v = (v, [])).
  { unfold home_assistant, hasOwnProperty. rewrite He. cbn [Obj.has Obj.get].
    destruct (homeassistant E); [|reflexivity].
    now rewrite andb_false_r. }
  rewrite Hh. unfold ordered_entries. rewrite He, Hsort. reflexivity.
Qed.

(** ** The Home Assistant adjustment *)



(** ** The converter of a key *)

Lemma find_Set_add (p : ref -> bool) (c : ref) (s : list ref) :
  find p (Set_add c s) =
  match find p s with
  | Some x => Some x
  | None => if p c then Some c else None
  end.
Proof.
  induction s as [|c' s IH]; simpl; [reflexivity|].
  destruct (Nat.eqb_spec c c') as [-> | Hne]; simpl.
  - destruct (p c') eqn:Hp; [reflexivity|].
    destruct (find p s) eqn:Hf; reflexivity.
  - destruct (p c'); [reflexivity | exact IH].
Qed.

Lemma find_Set_of_from (p : ref -> bool) (l s : list ref) :
  find p (fold_left (fun s c => Set_add c s) l s) =
  match find p s with
  | Some x => Some x
  | None => find p l
  end.
Proof.
  revert s. induction l as [|c l IH]; intros s; simpl.
  - now destruct (find p s).
  - rewrite IH, find_Set_add. destruct (find p s); [reflexivity|].
    now destruct (p c).
Qed.

(** X13. Removing the duplicates from the converters of the members of a
    group does not change which converter a key selects: it is the first
    one whose key list holds the key, in the order of the members and of
    the lists of their definitions; and with no converter at all among the
    members it is the first such one of the default converters. *)
Theorem group_converter_is_first_of_members
        (W : Type) (E : Env W) (g : ref) (k : string) :
  find_converter E (group_converters E g) k =
  match flat_map toZigbee (member_definitions E g) with
  | [] => find_converter E (defaultGroupConverters E) k
  | union => find_converter E union k
  end.
Proof.
  unfold group_converters, find_converter.
  set (union := flat_map toZigbee (member_definitions E g)).
  set (p := fun c => string_in k (key (converter_at E c))).
  destruct union as [|c u] eqn:Hu; [reflexivity|].
  destruct (Set_of (c :: u)) as [|c' s] eqn:Hs.
  - exfalso. assert (Hin : In c (Set_of (c :: u))) by (apply In_Set_of; now left).
    now rewrite Hs in Hin.
  - rewrite <- Hs. unfold Set_of. now rewrite find_Set_of_from.
Qed.

(** ** What is accumulated *)

Lemma get_merge {A : Type} (o p : Obj.t A) (k : string) :
  Obj.get k (Obj.merge o p) =
  match Obj.get k (rev p) with
  | Some v => Some v
  | None => Obj.get k o
  end.
Proof.
  unfold Obj.merge. revert o. induction p as [|[k1 v1] p IH]; intros o;
    [reflexivity|].
  cbn [fold_left rev fst snd]. rewrite IH, ObjFacts.get_app, ObjFacts.get_set.
  destruct (Obj.get k (rev p)); [reflexivity|]. cbn [Obj.get].
  now destruct (String.eqb k k1).
Qed.

(** X14. [addToToPublish] keeps for an identifier the properties
    accumulated so far and sets those of the new state over them: a key of
    the new state has its value there (the last one, should the state hold
    the key twice), any other key keeps the value it had; and what is kept
    for the other identifiers is not touched. *)
Theorem addToToPublish_last_wins
        (W : Type) (st : LoopState W) (ID : string) (payload : JsObj) :
  let old := match Obj.get ID (toPublish st) with
             | Some o => o
             | None => Obj.empty
             end in
  exists kept : JsObj,
    Obj.get ID (toPublish (addToToPublish ID payload st)) = Some kept
    /\ (forall k : string,
           Obj.get k kept = match Obj.get k (rev payload) with
                            | Some v => Some v
                            | None => Obj.get k old
                            end)
    /\ (forall ID' : string,
           ID' <> ID ->
           Obj.get ID' (toPublish (addToToPublish ID payload st))
           = Obj.get ID' (toPublish st)).
Proof.
  intros old. exists (Obj.merge old payload). split; [|split].
  - now rewrite get_addToToPublish, String.eqb_refl.
  - intros k. apply get_merge.
  - intros ID' Hne. rewrite get_addToToPublish.
    apply String.eqb_neq in Hne. now rewrite Hne.
Qed.

(** ** The states of the members of a group *)

Lemma get_membersState (W : Type) (E : Env W) (l : list ref)
      (ms : Obj.t (option JsObj)) (a : string) :
  Obj.get a (fold_left (fun ms member =>
                          let addr := ieeeAddr E (getDevice E member) in
                          Obj.set addr (state_get E addr) ms) l ms)
  = if existsb (fun member => String.eqb a (ieeeAddr E (getDevice E member))) l
    then Some (state_get E a)
    else Obj.get a ms.
Proof.
  revert ms. induction l as [|member l IH]; intros ms; [reflexivity|].
  cbn [fold_left existsb]. rewrite IH.
  destruct (existsb _ l); [now rewrite orb_true_r|].
  rewrite orb_false_r, ObjFacts.get_set.
  destruct (String.eqb_spec a (ieeeAddr E (getDevice E member))) as [-> | _];
    reflexivity.
Qed.

(** X22. For a group, [meta.membersState] holds under the address of
    each member what the state store has for that address, [undefined]
    included, and holds nothing under any other key. *)
Theorem membersState_is_the_state_of_the_members
        (W : Type) (E : Env W) (n : string) (s : EntitySettings) (g : ref)
        (json : JsVal) (es : JsObj) (ep : string) :
  exists d : Details,
    entity_details E (group_entity n s g) = inr d
    /\ exists ms : Obj.t (option JsObj),
        membersState (meta_of d json es ep) = Some ms
        /\ forall a : string,
            Obj.get a ms
            = if existsb (fun member =>
                            String.eqb a (ieeeAddr E (getDevice E member)))
                         (members E g)
              then Some (state_get E a)
              else None.
Proof.
  eexists. split; [reflexivity|]. cbn [meta_of membersState details_membersState].
  eexists. split; [reflexivity|]. intros a. unfold group_membersState.
  now rewrite get_membersState.
Qed.

(** ** The message of [meta] *)

Lemma bare_key_any (n b : string) (c : ascii) :
  bare_key n (b ++ String c n)%string = b.
Proof.
  unfold bare_key.
  replace (String.length (b ++ String c n)%string - String.length n - 1)
    with (String.length b)
    by (rewrite StrFacts.length_append; simpl; lia).
  apply StrFacts.take_append.
Qed.

(** X15. Lines 217 to 225 look for the endpoint name at the end of a key
    of the message and not for the underscore before it: a key that ends
    with the name loses the name and the character before it, whatever
    that character is, and its value stands under what is left; a key that
    does not end with the name and is not what is left of another one is
    as it was.  (The keys that end with the name leave different strings,
    none of which ends with the name again.) *)
Theorem meta_message_cuts_name_and_one_more
        (d : Details) (json : JsVal) (es : JsObj) (n : string) :
  n <> "" ->
  let msg0 := Obj.spread (Object_entries json) in
  let meta := meta_of d json es n in
  bare_forms_apart n msg0 ->
  (forall (k : string) (v : JsVal),
      In (k, v) msg0 -> Str.endsWith k n = true ->
      Obj.get (Str.take (String.length k - String.length n - 1) k)
        (message meta) = Some v
      /\ Obj.get k (message meta) = None)
  /\ (forall (b : string) (c : ascii) (v : JsVal),
         In ((b ++ String c n)%string, v) msg0 ->
         Obj.get b (message meta) = Some v)
  /\ (forall x : string,
         Str.endsWith x n = false ->
         (forall k, In k (Obj.keys msg0) -> Str.endsWith k n = true ->
                    bare_key n k <> x) ->
         Obj.get x (message meta) = Obj.get x msg0).
Proof.
  intros Hn msg0 meta Ha.
  assert (Hd : NoDup (Obj.keys msg0)) by apply NoDup_spread.
  assert (H1 : forall (k : string) (v : JsVal),
             In (k, v) msg0 -> Str.endsWith k n = true ->
             Obj.get (bare_key n k) (message meta) = Some v
             /\ Obj.get k (message meta) = None).
  { intros k v Hin He. unfold meta, meta_of. cbn [message].
    now apply strip_endpoint_name_bare. }
  split; [exact H1|]. split.
  - intros b c v Hin.
    assert (He : Str.endsWith (b ++ String c n)%string n = true).
    { apply StrFacts.endsWith_iff. exists (b ++ String c "")%string.
      now rewrite StrFacts.append_assoc. }
    destruct (H1 _ _ Hin He) as [Hg _]. now rewrite bare_key_any in Hg.
  - intros x Hx Hb. unfold meta, meta_of, strip_endpoint_name. cbn [message].
    apply String.eqb_neq in Hn. rewrite Hn. fold msg0.
    apply strip_frame; [now left | exact Hb].
Qed.

(** ** An endpoint named in the topic *)

Lemma find_none_all {A : Type} (p : A -> bool) (l : list A) :
  (forall x, In x l -> p x = false) -> find p l = None.
Proof.
  induction l as [|x l IH]; intros H; [reflexivity|]. simpl.
  rewrite (H x) by now left. apply IH. intros y Hy. apply H. now right.
Qed.

(** X16. With an endpoint named in the topic and a key that ends with no
    declared name, the key is not cut and the target stays the one the
    entity resolved to, under its own identifier; the endpoint name of the
    topic is the one of [meta].  A state that a write returns, and that
    has no key together with the same key followed by [_name], is
    accumulated for the entity with [_name] attached to every key, less
    the filtered keys, when the entity is optimistic and keys are left;
    what else the write returns is handled after that. *)
Theorem topic_endpoint_suffixes_the_state
        (W : Type) (E : Env W) (topic : Topic) (r : ResolvedEntity)
        (d : Details) (json : JsVal) (es : JsObj) (key n : string) :
  endpointName topic = n ->
  n <> "" ->
  (forall n', In n' (endpointNames E) ->
              Str.endsWith key ("_" ++ n')%string = false) ->
  let meta := meta_of d json es n in
  route E topic r d key
  = routed n (endpointOrGroupID_of E (target d)) (target d) key
  /\ endpoint_name meta = n
  /\ (forall (msg : JsObj) (st : LoopState W) (c : ref)
             (ms : option (Obj.t JsObj)) (delay : option Z),
         NoDup (Obj.keys msg) ->
         (forall k, In k (Obj.keys msg) ->
                    ~ In (k ++ "_" ++ n)%string (Obj.keys msg)) ->
         is_optimistic (details_options d) = true ->
         filter_optimistic (details_options d) (suffixed n msg) <> [] ->
         add_endpoint_name n msg = suffixed n msg
         /\ after_convertSet r d c n (target d) key meta
              (Some {| result_state := Some msg;
                       result_membersState := ms;
                       readAfterWriteTime := delay |}) st
            = after_convertSet r d c n (target d) key meta
                (Some {| result_state := None;
                         result_membersState := ms;
                         readAfterWriteTime := delay |})
                (addToToPublish (settings_ID (entity_settings r))
                   (filter_optimistic (details_options d) (suffixed n msg))
                   st)).
Proof.
  intros Hep Hn Hnone meta. split; [|split; [reflexivity|]].
  - unfold route, endpoint_of_key. rewrite Hep.
    destruct r as [name s dev ep [def|] | name s g]; try reflexivity.
    destruct (Str.includes key "_"); [|reflexivity].
    now rewrite (find_none_all _ _ Hnone).
  - intros msg st c ms delay Hd Hc Hopt Hne.
    split; [now apply add_endpoint_name_suffixed|].
    unfold after_convertSet.
    rewrite Hopt, (add_endpoint_name_suffixed n msg Hn Hd Hc).
    destruct (filter_optimistic (details_options d) (suffixed n msg));
      [easy | reflexivity].
Qed.

(** ** Keys kept out of the optimistic state *)

Section Filtered.

Variable W : Type.
Variable E : Env W.

Lemma has_merge {A : Type} (o p : Obj.t A) (k : string) :
  Obj.has k o = false -> Obj.has k p = false -> Obj.has k (Obj.merge o p) = false.
Proof.
  unfold Obj.has. rewrite get_merge. intros Ho Hp.
  assert (Hr : Obj.get k (rev p) = None).
  { apply ObjFacts.get_None. intros Hin. unfold Obj.keys in Hin.
    rewrite map_rev in Hin. apply in_rev in Hin.
    apply ObjFacts.get_None in Hin; [exact Hin|].
    now destruct (Obj.get k p). }
  rewrite Hr. exact Ho.
Qed.

Lemma filter_optimistic_removes (options : EntitySettings) (l : list string)
      (msg : JsObj) (a : string) :
  filtered_optimistic options = Some l -> In a l ->
  Obj.has a (filter_optimistic options msg) = false.
Proof.
  intros Hl Hin. unfold filter_optimistic. rewrite Hl. clear Hl.
  revert msg. induction l as [|b l IH]; intros msg; [easy|]. cbn [fold_left].
  destruct (in_dec string_dec a l) as [Hal | Hal]; [now apply IH|].
  destruct Hin as [-> | Hin]; [|contradiction].
  assert (Hkeep : forall (l : list string) (m : JsObj),
             Obj.has a m = false ->
             Obj.has a (fold_left (fun m a => Obj.delete a m) l m) = false).
  { clear. intros l. induction l as [|b l IH]; intros m Hm; [exact Hm|].
    cbn [fold_left]. apply IH. unfold Obj.has in *.
    rewrite ObjFacts.get_delete. now destruct (String.eqb a b). }
  apply Hkeep. unfold Obj.has. now rewrite ObjFacts.get_delete, String.eqb_refl.
Qed.

Lemma kept_without_after_convertSet (r : ResolvedEntity) (d : Details)
      (l : list string) (c : ref) (ep : string) (tgt : Target) (k : string)
      (m : Meta) (result : option Result) (st : LoopState W) :
  filtered_optimistic (details_options d) = Some l ->
  match result with
  | Some res => result_membersState res = None
  | None => True
  end ->
  kept_without (settings_ID (entity_settings r)) l st ->
  kept_without (settings_ID (entity_settings r)) l
    (after_convertSet r d c ep tgt k m result st).
Proof.
  intros Hl Hms Hst.
  assert (Hemit : forall ev (st0 : LoopState W),
             kept_without (settings_ID (entity_settings r)) l st0 ->
             kept_without (settings_ID (entity_settings r)) l (emit ev st0))
    by (intros ev st0 H; exact H).
  unfold after_convertSet.
  destruct result as [[msg ms delay]|]; [|exact Hst].
  cbn [result_membersState] in Hms. subst ms.
  set (st1 := match msg with Some _ => _ | None => st end).
  assert (H1 : kept_without (settings_ID (entity_settings r)) l st1).
  { unfold st1. destruct msg as [msg|]; [|exact Hst].
    destruct (is_optimistic _); [|exact Hst].
    destruct (negb _); [|exact Hst].
    intros id p. rewrite get_addToToPublish.
    destruct (String.eqb_spec id (settings_ID (entity_settings r)))
      as [-> | Hne]; [|apply Hst].
    intros Hp. injection Hp as <-. split; [reflexivity|]. intros a Ha.
    apply has_merge.
    - destruct (Obj.get _ (toPublish st)) as [o|] eqn:Ho; [|reflexivity].
      now apply (Hst _ _ Ho).
    - now apply (filter_optimistic_removes _ l). }
  clearbody st1.
  destruct delay as [delay|]; [|exact H1].
  destruct (_ && _); [now apply Hemit | exact H1].
Qed.

End Filtered.

(** X17. The keys listed in [filtered_optimistic] are not published: for
    an entity whose converters return no states of members, every state
    the handler publishes is published under the identifier of the entity
    and holds none of the listed keys. *)
Theorem filtered_keys_are_not_published
        (W : Type) (E : Env W) (topic message : string) (w : W) (t : Topic)
        (r : ResolvedEntity) (d : Details) (l : list string) :
  parseTopic E topic = Some t ->
  resolveEntity E (entityKey_of t) = Some r ->
  entity_details E r = inr d ->
  filtered_optimistic (entity_settings r) = Some l ->
  no_member_states E (converters d) ->
  forall (id : string) (payload : JsObj),
    In (publishEntityState id payload)
       (trace_of (onMQTTMessage E topic message w)) ->
    id = settings_ID (entity_settings r)
    /\ forall a : string, In a l -> Obj.has a payload = false.
Proof.
  intros Ht Hr Hd Hl Hnm id payload.
  destruct (details_of_entity W E r d Hd) as [Ho _].
  destruct (onMQTTMessage_cases W E topic message w)
    as [(r' & tr & -> & _ & Hq)
       | (t' & r' & d' & json0 & Ht' & Hr' & Hd' & _ & ->)];
    unfold trace_of; cbn [fst snd]; intros Hin.
  { rewrite Forall_forall in Hq. apply Hq in Hin. discriminate. }
  rewrite Ht in Ht'. injection Ht' as <-.
  rewrite Hr in Hr'. injection Hr' as <-.
  rewrite Hd in Hd'. injection Hd' as <-.
  set (json := fst (home_assistant E (entityState_of E r) json0)) in *.
  set (logged := snd (home_assistant E (entityState_of E r) json0)) in *.
  set (st0 := {| usedConverters := Obj.empty; toPublish := Obj.empty;
                 trace := logged; world := w |}) in *.
  set (st := snd (for_of E t r d json (entityState_of E r)
                    (ordered_entries E json) st0)) in *.
  assert (Hq : Forall (fun ev => is_quiet ev = true) logged)
    by apply home_assistant_quiet.
  assert (Hp : no_publish st).
  { apply (for_of_invariant W E t r d json (entityState_of E r) (@no_publish W)).
    - intros kv s cpl s'. apply Step_no_publish.
    - now apply quiet_no_publish. }
  assert (Hm : buffer_is_merge st).
  { apply (for_of_invariant W E t r d json (entityState_of E r)
             (@buffer_is_merge W)).
    - intros kv s cpl s'. apply Step_buffer_is_merge.
    - split; [constructor|]. intros id'. cbn [toPublish trace st0].
      now rewrite deltas_of_none by now apply quiet_not_accumulated. }
  assert (Hk : kept_without (settings_ID (entity_settings r)) l st).
  { apply (for_of_invariant W E t r d json (entityState_of E r)
             (@kept_without W (settings_ID (entity_settings r)) l)).
    - intros kv s cpl s' Hstep Hs. destruct Hstep;
        try (intros id' p; autorewrite with frames; now apply Hs).
      intros id' p. rewrite toPublish_push_used.
      apply (kept_without_after_convertSet W r d l); [now rewrite Ho | |].
      + destruct result as [res|]; [|exact I].
        apply find_some in H0 as [Hc _].
        exact (Hnm c f tgt k (snd kv) _ _ _ res Hc H3 H4).
      + intros id'' p'. autorewrite with frames. apply Hs.
    - intros id' p. discriminate. }
  assert (Hflush : In (publishEntityState id payload) (flush (toPublish st))).
  { unfold no_publish in Hp. rewrite Forall_forall in Hp.
    destruct (fst (for_of E t r d json (entityState_of E r)
                     (ordered_entries E json) st0));
      cbn [fst snd] in Hin.
    3:{ apply Hp in Hin. discriminate. }
    all: apply in_app_or in Hin as [Hin | Hin];
      [apply Hp in Hin; discriminate | exact Hin]. }
  clear Hin. rename Hflush into Hin.
  unfold flush in Hin. apply in_map_iff in Hin as ([id' p] & Heq & Hin).
  injection Heq as -> ->. destruct Hm as [Hnd _].
  apply (In_get _ _ _ Hnd) in Hin. now apply Hk.
Qed.

(** * The network map *)

Section GraphFacts.

Variable GATEWAY : Map.Device.
Variable genDeviceShortAddress : string -> option string.
Variable toString : N -> string.

Local Abbreviation push_route := (Map.push_route toString).
Local Abbreviation push_device :=
  (Map.push_device GATEWAY genDeviceShortAddress toString).
Local Abbreviation convert2graph :=
  (Map.convert2graph GATEWAY genDeviceShortAddress toString).
Local Abbreviation links_of := (Map.links_of GATEWAY toString).
Local Abbreviation coordinator := (Map.coordinator GATEWAY).
Local Abbreviation getName := (Map.getName genDeviceShortAddress).
Local Abbreviation node_of := (Map.node_of genDeviceShortAddress).
Local Abbreviation link_of_route := (Map.link_of_route toString).
Local Abbreviation routed_in := (Map.routed_in toString).

Lemma push_route_thrown (file : Obj.t Map.Device) (k : string)
      (dev : Map.Device) (routes : list N) :
  fold_left (push_route file k dev) routes None = None.
Proof. induction routes; [reflexivity | exact IHroutes]. Qed.

Lemma push_routes (file : Obj.t Map.Device) (k : string) (dev : Map.Device)
      (routes : list N) (g : Map.GraphI) :
  fold_left (push_route file k dev) routes (Some g) =
  if forallb (fun route => Obj.has (toString route) file) routes
  then Some {| Map.nodes := Map.nodes g;
               Map.links := Map.links g
                            ++ flat_map (link_of_route file k dev) routes |}
  else None.
Proof.
  revert g. induction routes as [|route routes IH]; intros g.
  - simpl. rewrite app_nil_r. now destruct g.
  - cbn [fold_left forallb flat_map].
    assert (Hstep : Map.push_route toString file k dev (Some g) route
                    = match Map.link_of_route toString file k dev route with
                      | [] => None
                      | l => Some {| Map.nodes := Map.nodes g;
                                     Map.links := Map.links g ++ l |}
                      end).
    { unfold Map.push_route, Map.link_of_route.
      now destruct (Obj.get (toString route) file). }
    rewrite Hstep.
    assert (Hhas : Obj.has (toString route) file
                   = match Map.link_of_route toString file k dev route with
                     | [] => false
                     | _ => true
                     end).
    { unfold Obj.has, Map.link_of_route.
      now destruct (Obj.get (toString route) file). }
    rewrite Hhas.
    destruct (Map.link_of_route toString file k dev route) as [|l ls].
    + apply push_route_thrown.
    + rewrite IH. cbn [Map.nodes Map.links andb].
      destruct (forallb _ routes); [|reflexivity].
      now rewrite <- app_assoc.
Qed.

Lemma push_device_thrown (file entries : Obj.t Map.Device) :
  fold_left (push_device file) entries None = None.
Proof. induction entries; [reflexivity | exact IHentries]. Qed.

Lemma push_device_step (file : Obj.t Map.Device) (g : Map.GraphI)
      (k : string) (dev : Map.Device) :
  push_device file (Some g) (k, dev) =
  if match Map.Rtg dev with
     | Some routes => forallb (fun route => Obj.has (toString route) file) routes
     | None => true
     end
  then Some {| Map.nodes := Map.nodes g ++ [node_of (k, dev)];
               Map.links := Map.links g ++ links_of file (k, dev) |}
  else None.
Proof.
  unfold Map.push_device, Map.links_of. cbn [fst snd].
  destruct (Map.Rtg dev) as [[|route routes]|]; try reflexivity.
  now rewrite push_routes.
Qed.

Lemma push_devices (file entries : Obj.t Map.Device) (g : Map.GraphI) :
  fold_left (push_device file) entries (Some g) =
  if routed_in file entries
  then Some {| Map.nodes := Map.nodes g ++ map node_of entries;
               Map.links := Map.links g ++ flat_map (links_of file) entries |}
  else None.
Proof.
  revert g. induction entries as [|[k dev] entries IH]; intros g.
  - simpl. rewrite !app_nil_r. now destruct g.
  - cbn [fold_left Map.routed_in forallb flat_map map snd].
    rewrite push_device_step.
    destruct (match Map.Rtg dev with Some _ => _ | None => true end).
    + rewrite IH. cbn [Map.nodes Map.links andb].
      fold (Map.routed_in toString file entries).
      destruct (Map.routed_in toString file entries); [|reflexivity].
      now rewrite <- !app_assoc.
    + apply push_device_thrown.
Qed.

Lemma routed_in_false (file entries : Obj.t Map.Device) :
  routed_in file entries = false <->
  exists (k : string) (dev : Map.Device) (routes : list N) (route : N),
    In (k, dev) entries /\ Map.Rtg dev = Some routes /\ In route routes
    /\ Obj.get (toString route) file = None.
Proof.
  unfold Map.routed_in. split.
  - intros H.
    assert (Hex : existsb (fun entry =>
                     negb match Map.Rtg (snd entry) with
                          | Some routes =>
                              forallb (fun route => Obj.has (toString route) file)
                                      routes
                          | None => true
                          end) entries = true).
    { clear -H. induction entries as [|e entries IH]; [discriminate|].
      simpl in *. destruct (match Map.Rtg (snd e) with Some _ => _ | None => _ end);
        simpl in *; [now apply IH | reflexivity]. }
    apply existsb_exists in Hex as ([k dev] & Hin & Hneg). cbn [snd] in Hneg.
    destruct (Map.Rtg dev) as [routes|] eqn:Hr; [|discriminate].
    apply negb_true_iff in Hneg.
    assert (Hex : existsb (fun route => negb (Obj.has (toString route) file))
                          routes = true).
    { clear -Hneg. induction routes as [|r routes IH]; [discriminate|].
      simpl in *. destruct (Obj.has (toString r) file); simpl in *;
        [now apply IH | reflexivity]. }
    apply existsb_exists in Hex as (route & Hin' & Hh).
    exists k, dev, routes, route. repeat split; auto.
    apply negb_true_iff in Hh. unfold Obj.has in Hh.
    now destruct (Obj.get (toString route) file).
  - intros (k & dev & routes & route & Hin & Hr & Hin' & Hg).
    destruct (forallb _ entries) eqn:Hall; [|reflexivity].
    rewrite forallb_forall in Hall. specialize (Hall _ Hin). cbn [snd] in Hall.
    rewrite Hr in Hall. rewrite forallb_forall in Hall. specialize (Hall _ Hin').
    unfold Obj.has in Hall. now rewrite Hg in Hall.
Qed.

End GraphFacts.

(** X18. [convert2graph] throws exactly when a device of the file has a
    route of which the string ([route.toString()]) is the key of no device
    of the file: the [TypeError] of reading [type] of [undefined] at line
    340. *)
Theorem convert2graph_throws_on_dangling_route
        (GATEWAY : Map.Device) (genDeviceShortAddress : string -> option string)
        (toString : N -> string) (file : Obj.t Map.Device) :
  Map.convert2graph GATEWAY genDeviceShortAddress toString file = None <->
  exists (deviceKey : string) (route : N), Map.dangling toString file deviceKey route.
Proof.
  unfold Map.convert2graph. rewrite push_devices.
  destruct (Map.routed_in toString file file) eqn:Hr.
  - split; [discriminate|]. intros (k & route & dev & routes & H).
    assert (Hf : Map.routed_in toString file file = false)
      by (apply routed_in_false; now exists k, dev, routes, route).
    congruence.
  - split; [|reflexivity]. intros _.
    apply routed_in_false in Hr as (k & dev & routes & route & H).
    exists k, route, dev, routes. exact H.
Qed.

(** X19. When [convert2graph] returns, the nodes of the graph are the
    coordinator and then one node for each device of the file, in the
    order of the file, with the key of the device for identifier and its
    friendly name for name, or else its short address, or else
    [Unknow device]; the links are, device after device, one link for each
    route of the device to the device the route names, or one link to the
    coordinator when the device has no route. *)
Theorem convert2graph_nodes_and_links
        (GATEWAY : Map.Device) (genDeviceShortAddress : string -> option string)
        (toString : N -> string) (file : Obj.t Map.Device) (g : Map.GraphI) :
  Map.convert2graph GATEWAY genDeviceShortAddress toString file = Some g ->
  Map.nodes g
  = Map.coordinator GATEWAY
    :: map (fun entry =>
              {| Map.id := fst entry;
                 Map.device := snd entry;
                 Map.name :=
                   match Map.friendly_name (snd entry) with
                   | Some friendlyName => friendlyName
                   | None =>
                       match genDeviceShortAddress (fst entry) with
                       | Some address => address
                       | None => "Unknow device"
                       end
                   end |}) file
  /\ Map.links g = flat_map (Map.links_of GATEWAY toString file) file
  /\ List.length (Map.nodes g) = S (List.length file)
  /\ List.length file <= List.length (Map.links g).
Proof.
  unfold Map.convert2graph. rewrite push_devices.
  destruct (Map.routed_in toString file file) eqn:Hr; [|discriminate].
  intros H. injection H as <-. cbn [Map.nodes Map.links app].
  split; [reflexivity|]. split; [reflexivity|]. split.
  - cbn [length]. now rewrite length_map.
  - assert (Hge : forall entries : Obj.t Map.Device,
               Map.routed_in toString file entries = true ->
               List.length entries
               <= List.length (flat_map (Map.links_of GATEWAY toString file) entries)).
    { induction entries as [|[k dev] entries IH]; [reflexivity|].
      cbn [Map.routed_in forallb flat_map snd]. intros Hall.
      apply andb_true_iff in Hall as [Hdev Hall]. rewrite length_app.
      specialize (IH Hall). cbn [length].
      enough (1 <= List.length (Map.links_of GATEWAY toString file (k, dev))) by lia.
      unfold Map.links_of. cbn [fst snd].
      destruct (Map.Rtg dev) as [[|route routes]|]; cbn [length]; try lia.
      cbn [forallb] in Hdev. apply andb_true_iff in Hdev as [Hh _].
      cbn [flat_map]. rewrite length_app. unfold Map.link_of_route at 1.
      unfold Obj.has in Hh.
      destruct (Obj.get (toString route) file); [|discriminate].
      cbn [length]. lia. }
    now apply Hge.
Qed.

(** X20. The graph [convert2graph] returns is closed: both ends of every
    link are nodes of the graph, the source a device of the file and the
    target a device of the file or the coordinator; and every device of
    the file is the source of a link. *)
Theorem convert2graph_is_closed
        (GATEWAY : Map.Device) (genDeviceShortAddress : string -> option string)
        (toString : N -> string) (file : Obj.t Map.Device) (g : Map.GraphI) :
  Map.convert2graph GATEWAY genDeviceShortAddress toString file = Some g ->
  (forall l : Map.LinkI,
      In l (Map.links g) ->
      In (Map.source l) (Obj.keys file)
      /\ (Map.target l = "SLS GW" \/ In (Map.target l) (Obj.keys file))
      /\ In (Map.source l) (map Map.id (Map.nodes g))
      /\ In (Map.target l) (map Map.id (Map.nodes g)))
  /\ (forall deviceKey : string,
         In deviceKey (Obj.keys file) ->
         exists l : Map.LinkI, In l (Map.links g) /\ Map.source l = deviceKey).
Proof.
  unfold Map.convert2graph. rewrite push_devices.
  destruct (Map.routed_in toString file file) eqn:Hr; [|discriminate].
  intros H. injection H as <-. cbn [Map.nodes Map.links app].
  assert (Hids : map Map.id (Map.coordinator GATEWAY
                               :: map (Map.node_of genDeviceShortAddress) file)
                 = "SLS GW" :: Obj.keys file).
  { cbn [map]. f_equal. rewrite map_map. reflexivity. }
  rewrite Hids.
  assert (Hlink : forall (k : string) (dev : Map.Device) (l : Map.LinkI),
             In (k, dev) file -> In l (Map.links_of GATEWAY toString file (k, dev)) ->
             Map.source l = k
             /\ (Map.target l = "SLS GW" \/ In (Map.target l) (Obj.keys file))).
  { intros k dev l Hin Hl. unfold Map.links_of in Hl. cbn [fst snd] in Hl.
    assert (Hroute : forall routes,
               In l (flat_map (Map.link_of_route toString file k dev) routes) ->
               Map.source l = k /\ In (Map.target l) (Obj.keys file)).
    { intros routes Hl'. apply in_flat_map in Hl' as (route & _ & Hl').
      unfold Map.link_of_route in Hl'.
      destruct (Obj.get (toString route) file) as [dest|] eqn:Hg; [|easy].
      destruct Hl' as [<- | []]. cbn. split; [reflexivity|].
      apply ObjFacts.get_In_keys. congruence. }
    destruct (Map.Rtg dev) as [[|route routes]|].
    - destruct Hl as [<- | []]. cbn. split; [reflexivity | now left].
    - destruct (Hroute _ Hl) as [Hs Ht]. split; [exact Hs | now right].
    - destruct Hl as [<- | []]. cbn. split; [reflexivity | now left]. }
  split.
  - intros l Hl. apply in_flat_map in Hl as ([k dev] & Hin & Hl).
    destruct (Hlink k dev l Hin Hl) as [Hs Ht].
    assert (Hk : In k (Obj.keys file)) by (unfold Obj.keys; now apply (in_map fst) in Hin).
    rewrite Hs. repeat split; auto.
    + now right.
    + destruct Ht as [-> | Ht]; [now left | now right].
  - intros k Hk. unfold Obj.keys in Hk. apply in_map_iff in Hk as ([k' dev] & Heq & Hin).
    cbn in Heq. subst k'.
    assert (Hne : exists l, In l (Map.links_of GATEWAY toString file (k, dev))).
    { unfold Map.routed_in in Hr. rewrite forallb_forall in Hr.
      specialize (Hr _ Hin). cbn [snd] in Hr.
      unfold Map.links_of. cbn [fst snd].
      destruct (Map.Rtg dev) as [[|route routes]|];
        try (eexists; left; reflexivity).
      cbn [forallb] in Hr. apply andb_true_iff in Hr as [Hh _].
      cbn [flat_map]. unfold Map.link_of_route at 1. unfold Obj.has in Hh.
      destruct (Obj.get (toString route) file); [|discriminate].
      eexists. left. reflexivity. }
    destruct Hne as [l Hl]. exists l. split.
    + apply in_flat_map. now exists (k, dev).
    + now destruct (Hlink k dev l Hin Hl).
Qed.

Local Open Scope list_scope.
Local Open Scope string_scope.

(** ** The further properties at work on the example *)

(** X7: nobody answers on [zigbee2mqtt/settings/set]. *)
Lemma name_starting_with_type_witness :
  onMQTTMessage (Example.E false) "zigbee2mqtt/settings/set" "ON" 0
  = (Ends returns_false, [], 0).
Proof.
  refine (proj2 (name_starting_with_type_is_ignored nat (Example.E false)
                   "settings" "/set" "ON" 0 _ (or_intror eq_refl))).
  discriminate.
Defined.

(** X8: [zigbee2mqtt/lamp1/set/state]. *)
Lemma parseTopic_of_composed_witness :
  parseTopic (Example.E false) "zigbee2mqtt/lamp1/set/state"
  = Some {| ID := "lamp1"; endpointName := ""; type := set;
            attribute := Some "state" |}.
Proof.
  refine (parseTopic_of_composed nat (Example.E false) "lamp1" "/state" set
            eq_refl eq_refl eq_refl _ eq_refl eq_refl eq_refl eq_refl _ eq_refl).
  - discriminate.
  - cbn. intros [H | [H | [H | [H | []]]]]; discriminate.
Defined.



(** X11: the payload [5]. *)
Lemma payload_without_entries_witness :
  onMQTTMessage (Example.E_more false false) "zigbee2mqtt/lamp1/set" "5" 0
  = (Ends returns_true, [], 0).
Proof.
  exact (payload_without_entries_does_nothing nat (Example.E_more false false)
           "zigbee2mqtt/lamp1/set" "5" 0 Example.set_topic
           Example.lamp Example.lamp_details (JNum 5)
           eq_refl eq_refl eq_refl eq_refl eq_refl eq_refl eq_refl
           (fun _ => eq_refl)).
Defined.


(** X13: [state] for the group without members. *)
Lemma group_converter_witness :
  find_converter (Example.E false) (group_converters (Example.E false) 30) "state"
  = find_converter (Example.E false) (defaultGroupConverters (Example.E false))
      "state".
Proof.
  exact (group_converter_is_first_of_members nat (Example.E false) 30 "state").
Defined.

(** X5: [{"state":"TOGGLE"}] for the group. *)
Lemma group_message_witness :
  writes_of 0
    (trace_of (onMQTTMessage (Example.E false) "zigbee2mqtt/group1/set"
                 Example.payload_toggle 0)) <= 1.
Proof.
  exact (proj2 (group_message_is_for_the_group nat (Example.E false)
                  "zigbee2mqtt/group1/set" Example.payload_toggle 0
                  (Example.topic_of "group1")
                  "group1" Example.group_settings 30 eq_refl eq_refl) 0).
Defined.

(** X4: [{"state":"ON","brightness":200}] for the lamp. *)
Lemma calls_are_for_entries_witness :
  Forall (fun ev =>
            is_converter_call ev = true ->
            exists (kv : entry) (ep id : string) (tgt : Target) (k : string)
                   (c : ref),
              In kv [("brightness", JNum 200); ("state", JStr "ON")]
              /\ route (Example.E false) Example.set_topic Example.lamp
                   Example.lamp_details (fst kv) = routed ep id tgt k
              /\ find_converter (Example.E false) [0; 1] k = Some c
              /\ (ev = call_convertSet c id tgt k (snd kv)
                         (meta_of Example.lamp_details
                            Example.json_state_brightness [] ep)
                  \/ ev = call_convertGet c id tgt k
                            (meta_of Example.lamp_details
                               Example.json_state_brightness [] ep)))
         (trace_of (onMQTTMessage (Example.E false) "zigbee2mqtt/lamp1/set"
                      Example.payload_state_brightness 0)).
Proof.
  exact (calls_are_for_entries nat (Example.E false) "zigbee2mqtt/lamp1/set"
           Example.payload_state_brightness 0 Example.set_topic Example.lamp
           Example.lamp_details Example.json_state_brightness
           eq_refl eq_refl eq_refl eq_refl).
Defined.

(** X1: the same on [zigbee2mqtt/lamp1/get]. *)
Lemma get_never_writes_witness :
  Forall (fun ev => is_convertSet ev = false /\ is_accumulated ev = false
                    /\ is_timer ev = false /\ is_state_publish ev = false)
         (trace_of (onMQTTMessage (Example.E false) "zigbee2mqtt/lamp1/get"
                      Example.payload_state_brightness 0)).
Proof.
  exact (get_never_writes nat (Example.E false) "zigbee2mqtt/lamp1/get"
           Example.payload_state_brightness 0 Example.get_topic
           eq_refl eq_refl).
Defined.

(** X6: [brightness], then [state], are both read. *)
Lemma read_is_not_single_use_witness :
  used_at "11"
    (snd (loop_body (Example.E false) Example.get_topic Example.lamp
            Example.lamp_details Example.json_state_brightness []
            ("state", JStr "ON")
            (snd (loop_body (Example.E false) Example.get_topic Example.lamp
                    Example.lamp_details Example.json_state_brightness []
                    ("brightness", JNum 200) (Example.start 0)))))
  = [Some 0; Some 0].
Proof.
  refine (proj1 (proj2 (proj2
            (read_is_not_single_use nat (Example.E false) Example.get_topic
               Example.lamp Example.lamp_details Example.json_state_brightness []
               ("state", JStr "ON")
               (snd (loop_body (Example.E false) Example.get_topic Example.lamp
                       Example.lamp_details Example.json_state_brightness []
                       ("brightness", JNum 200) (Example.start 0)))
               "" "11" (Endpoint 11) "state" 0
               (fun _ _ _ w => (Returned tt, S w))
               eq_refl eq_refl eq_refl eq_refl))) _).
  intros error w H. discriminate H.
Defined.

(** X2: a lamp that is not optimistic. *)
Lemma not_optimistic_witness :
  Forall (fun ev => is_accumulated ev = false /\ is_state_publish ev = false)
         (trace_of (onMQTTMessage (Example.E_more false false)
                      "zigbee2mqtt/lamp3/set" Example.payload_toggle 0)).
Proof.
  exact (not_optimistic_publishes_nothing nat (Example.E_more false false)
           "zigbee2mqtt/lamp3/set" Example.payload_toggle 0
           (Example.topic_of "lamp3") Example.lamp3 eq_refl eq_refl eq_refl).
Defined.

Lemma lamp_converters_no_member_states :
  no_member_states (Example.E_more false false) [0; 1].
Proof.
  intros c f tgt k v m w w' r [<- | [<- | []]] Hf Hcall;
    cbn in Hf; injection Hf as <-; cbn in Hcall; [|discriminate].
  now injection Hcall as <- _.
Qed.

(** X17: a lamp that keeps [brightness] out of the optimistic state. *)
Lemma filtered_keys_witness :
  "0x0e" = "0x0e"
  /\ forall a : string,
      In a ["brightness"] -> Obj.has a [("state", JStr "TOGGLE")] = false.
Proof.
  refine (filtered_keys_are_not_published nat (Example.E_more false false)
            "zigbee2mqtt/lamp4/set" Example.payload_toggle 0
            (Example.topic_of "lamp4") Example.lamp4 Example.lamp4_details
            ["brightness"] eq_refl eq_refl eq_refl eq_refl
            lamp_converters_no_member_states
            "0x0e" [("state", JStr "TOGGLE")] _).
  vm_compute. right. right. right. left. reflexivity.
Defined.

(** X3: the colour temperature of a lamp that is read back. *)
Lemma timer_witness :
  exists (t : Topic) (r : ResolvedEntity),
    parseTopic (Example.E_more false false) "zigbee2mqtt/lamp2/set" = Some t
    /\ type t = set
    /\ resolveEntity (Example.E_more false false) (entityKey_of t) = Some r
    /\ is_device r = true
    /\ retrieve_state (entity_settings r) = true
    /\ exists (id : string) (v : JsVal),
        In (call_convertSet 4 id (Endpoint 41) "color_temp" v
              (meta_of Example.lamp2_details
                 (JObj [("color_temp", JNum 300)]) [] ""))
           (trace_of (onMQTTMessage (Example.E_more false false)
                        "zigbee2mqtt/lamp2/set" Example.payload_color_temp 0)).
Proof.
  refine (timer_only_after_write_to_device nat (Example.E_more false false)
            "zigbee2mqtt/lamp2/set" Example.payload_color_temp 0
            4 (Endpoint 41) "color_temp"
            (meta_of Example.lamp2_details
               (JObj [("color_temp", JNum 300)]) [] "") 500%Z _).
  vm_compute. right. right. right. left. reflexivity.
Defined.

(** X16: [state] on [zigbee2mqtt/lamp1/left/set]. *)
Lemma topic_endpoint_witness :
  route (Example.E false) Example.left_topic Example.lamp Example.lamp_details
    "state"
  = routed "left" "11" (Endpoint 11) "state".
Proof.
  refine (proj1 (topic_endpoint_suffixes_the_state nat (Example.E false)
                   Example.left_topic Example.lamp Example.lamp_details
                   (JObj [("state", JStr "ON")]) [] "state" "left"
                   eq_refl _ _)).
  - discriminate.
  - cbn. intros n' [<- | [<- | [<- | [<- | []]]]]; reflexivity.
Defined.

(** X15: [copyright] with the endpoint [right]. *)
Lemma meta_message_witness :
  Obj.get "cop"
    (message (meta_of Example.lamp_details (JObj [("copyright", JNum 1)]) []
                "right"))
  = Some (JNum 1).
Proof.
  refine (proj1 (proj2 (meta_message_cuts_name_and_one_more Example.lamp_details
                          (JObj [("copyright", JNum 1)]) [] "right" _ _))
            "cop" "y"%char (JNum 1) (or_introl eq_refl)).
  - discriminate.
  - split.
    + intros k [<- | []] _. reflexivity.
    + intros k1 k2 [<- | []] [<- | []] _ _ _. reflexivity.
Defined.

(** X18: a route to a device that is not in the file. *)
Lemma convert2graph_throws_witness :
  Map.convert2graph MapExample.gateway MapExample.short MapExample.toString
    MapExample.broken = None.
Proof.
  refine (proj2 (convert2graph_throws_on_dangling_route MapExample.gateway
                   MapExample.short MapExample.toString MapExample.broken) _).
  exists "9", 7%N, MapExample.lost, [7%N]. cbn. auto 10.
Defined.

(** X19: the graph of the example. *)
Lemma convert2graph_nodes_witness :
  List.length (Map.nodes MapExample.graph) = 3
  /\ List.length MapExample.file <= List.length (Map.links MapExample.graph).
Proof.
  exact (proj2 (proj2 (convert2graph_nodes_and_links MapExample.gateway
                         MapExample.short MapExample.toString MapExample.file
                         MapExample.graph eq_refl))).
Defined.

(** X20: every device of the example is the source of a link. *)
Lemma convert2graph_closed_witness :
  exists l : Map.LinkI,
    In l (Map.links MapExample.graph) /\ Map.source l = "22136".
Proof.
  refine (proj2 (convert2graph_is_closed MapExample.gateway MapExample.short
                   MapExample.toString MapExample.file MapExample.graph eq_refl)
            "22136" _).
  cbn. auto.
Defined.

(** X21: [zigbee2mqtt/lamp1/left/set]. *)
Lemma parseTopic_with_endpoint_witness :
  parseTopic (Example.E false) "zigbee2mqtt/lamp1/left/set"
  = Some Example.left_topic
  /\ entityKey_of Example.left_topic = "lamp1/left".
Proof.
  refine (parseTopic_of_composed_with_endpoint nat (Example.E false)
            "lamp1" "left" "" set
            eq_refl eq_refl eq_refl _ eq_refl eq_refl eq_refl eq_refl _ eq_refl
            (or_introl eq_refl) _).
  - discriminate.
  - cbn. intros [H | [H | [H | [H | []]]]]; discriminate.
  - discriminate.
Defined.
